(** * A TCP-like reliable byte stream over datagrams: model of [main.py]

    The development embeds the three classes of [main.py]
    ([TCPSegment], [UDPBasedProtocol], [MyTCPProtocol]) and the parts of
    the Python runtime they rely on (byte-string slicing, [int.to_bytes],
    [int.from_bytes], [heapq] behind [queue.PriorityQueue]), then states
    and proves the properties of the protocol. *)

From Stdlib Require Import ZArith Lia Bool.
From Stdlib Require Import Strings.Byte.
From stdpp Require Import base list.

Local Open Scope Z_scope.

(** ** Python byte strings *)

Abbreviation bytes := (list byte).

Definition len {A} (l : list A) : Z := Z.of_nat (length l).

(** Normalisation of a slice bound: a negative bound counts from the end and
    is clipped at [0]; bounds past the end are clipped by [take]/[drop]. *)
Definition slice_index {A} (l : list A) (k : Z) : nat :=
  Z.to_nat (if k <? 0 then Z.max 0 (len l + k) else k).

(** [l[:k]] *)
Definition slice_to {A} (l : list A) (k : Z) : list A := take (slice_index l k) l.

(** [l[k:]] *)
Definition slice_from {A} (l : list A) (k : Z) : list A := drop (slice_index l k) l.

(** [l[i:j]] for non-negative constants [i <= j], as used by [load]. *)
Definition slice_between {A} (l : list A) (i j : Z) : list A :=
  slice_from (slice_to l j) i.

Definition byte_of_Z (z : Z) : byte :=
  match Byte.of_N (Z.to_N (z mod 256)) with
  | Some b => b
  | None => x00
  end.

Definition Z_of_byte (b : byte) : Z := Z.of_N (Byte.to_N b).

(** The [n] low base-256 digits of [x], most significant first. *)
Fixpoint be_digits (n : nat) (x : Z) : bytes :=
  match n with
  | O => []
  | S m => be_digits m (x / 256) ++ [byte_of_Z x]
  end.

Inductive exn := ValueError | OverflowError.

(** [x.to_bytes(n, "big")]: [OverflowError] when [x] is negative or does not
    fit in [n] bytes. *)
Definition int_to_bytes (n : nat) (x : Z) : exn + bytes :=
  if (0 <=? x) && (x <? 256 ^ Z.of_nat n) then inr (be_digits n x)
  else inl OverflowError.

(** [int.from_bytes(bs, "big")], unsigned; the empty string gives [0]. *)
Definition int_from_bytes (bs : bytes) : Z :=
  fold_left (fun acc b => acc * 256 + Z_of_byte b) bs 0.

(** ** [heapq], the list-based binary heap behind [queue.PriorityQueue] *)

Section Heapq.
Context {T : Type}.
Variable lt : T -> T -> bool.

(** The [while pos > startpos] loop of [heapq._siftdown]; [pos] decreases
    at every turn, so [pos] turns of fuel are enough. *)
Fixpoint siftdown_loop (fuel : nat) (heap : list T) (newitem : T)
    (startpos pos : nat) : list T * nat :=
  match fuel with
  | O => (heap, pos)
  | S fuel' =>
      if (startpos <? pos)%nat then
        let parentpos := ((pos - 1) / 2)%nat in
        match heap !! parentpos with
        | Some parent =>
            if lt newitem parent
            then siftdown_loop fuel' (<[pos := parent]> heap) newitem startpos parentpos
            else (heap, pos)
        | None => (heap, pos)
        end
      else (heap, pos)
  end.

Definition siftdown (heap : list T) (startpos pos : nat) : list T :=
  match heap !! pos with
  | Some newitem =>
      let '(heap', pos') := siftdown_loop pos heap newitem startpos pos in
      <[pos' := newitem]> heap'
  | None => heap
  end.

(** The [while childpos < endpos] loop of [heapq._siftup]: the smaller
    child is moved up until a leaf is reached. *)
Fixpoint siftup_loop (fuel : nat) (heap : list T) (pos : nat) : list T * nat :=
  match fuel with
  | O => (heap, pos)
  | S fuel' =>
      let endpos := length heap in
      let childpos := (2 * pos + 1)%nat in
      if (childpos <? endpos)%nat then
        let rightpos := (childpos + 1)%nat in
        match heap !! childpos with
        | Some child =>
            let childpos' :=
              match heap !! rightpos with
              | Some rchild => if negb (lt child rchild) then rightpos else childpos
              | None => childpos
              end in
            match heap !! childpos' with
            | Some c => siftup_loop fuel' (<[pos := c]> heap) childpos'
            | None => (heap, pos)
            end
        | None => (heap, pos)
        end
      else (heap, pos)
  end.

Definition siftup (heap : list T) (pos : nat) : list T :=
  match heap !! pos with
  | Some newitem =>
      let '(heap', pos') := siftup_loop (length heap) heap pos in
      siftdown (<[pos' := newitem]> heap') pos pos'
  | None => heap
  end.

(** [heapq.heappush(heap, item)] *)
Definition heappush (heap : list T) (item : T) : list T :=
  siftdown (heap ++ [item]) 0 (length heap).

(** [heapq.heappop(heap)]; [None] stands for the [IndexError] on an empty
    heap. *)
Definition heappop (heap : list T) : option (T * list T) :=
  match last heap with
  | None => None
  | Some lastelt =>
      match removelast heap with
      | [] => Some (lastelt, [])
      | returnitem :: rest => Some (returnitem, siftup (lastelt :: rest) 0)
      end
  end.
End Heapq.

(** ** [class TCPSegment] *)

(** Time is read from [time.time()]; the model counts it in whole
    microseconds, so that [ACK_TIMEOUT], 0.01 s in the code, is 10000. The
    code compares floating-point readings in seconds: for a segment stamped
    [ACK_TIMEOUT] ago to within a microsecond, what it decides depends on
    the rounding of the readings; the statements about retransmission below
    leave that case out: they ask for strictly less, or strictly more, than
    [ACK_TIMEOUT]. *)
Definition ACK_TIMEOUT : Z := 10000.

Record TCPSegment := mkSegment {
  seq_number : Z;
  ack_number : Z;
  data : bytes;
  acknowledged : bool;
  _sending_time : Z
}.

Definition set_data (d : bytes) (s : TCPSegment) : TCPSegment :=
  mkSegment (seq_number s) (ack_number s) d (acknowledged s) (_sending_time s).

Definition set_acknowledged (b : bool) (s : TCPSegment) : TCPSegment :=
  mkSegment (seq_number s) (ack_number s) (data s) b (_sending_time s).

Definition set_sending_time (t : Z) (s : TCPSegment) : TCPSegment :=
  mkSegment (seq_number s) (ack_number s) (data s) (acknowledged s) t.

(** [TCPSegment.dump] *)
Definition dump (s : TCPSegment) : exn + bytes :=
  match int_to_bytes 8 (seq_number s) with
  | inl e => inl e
  | inr seq =>
      match int_to_bytes 8 (ack_number s) with
      | inl e => inl e
      | inr ack => inr (seq ++ ack ++ data s)
      end
  end.

(** [TCPSegment.__lt__] and [TCPSegment.__eq__] *)
Definition segment_lt (a b : TCPSegment) : bool := seq_number a <? seq_number b.
Definition segment_eq (a b : TCPSegment) : bool := seq_number a =? seq_number b.

(** Python's [<] on the pairs [(seq_number, segment)] kept in the queues:
    the first components decide unless they are equal, then the segments
    are compared, by [__eq__] first and by [__lt__] if they differ. *)
Definition entry_lt (a b : Z * TCPSegment) : bool :=
  if a.1 =? b.1 then
    if segment_eq a.2 b.2 then false else segment_lt a.2 b.2
  else a.1 <? b.1.

(** [queue.PriorityQueue]: [put], [get] and [empty] on a heap list. *)
Abbreviation PriorityQueue := (list (Z * TCPSegment)).

Definition pq_put (q : PriorityQueue) (e : Z * TCPSegment) : PriorityQueue :=
  heappush entry_lt q e.

Definition pq_get (q : PriorityQueue) : option ((Z * TCPSegment) * PriorityQueue) :=
  heappop entry_lt q.

(** ** The outside world

    What the datagram socket and the clock answer, call by call:
    - [recvfrom_result i] is the datagram handed to the [i]-th call of
      [recvfrom], or [None] when that call raises [socket.error] (a
      timeout, a closed socket);
    - [sendto_accepts i] is the number of bytes the transport is ready to
      accept at the [i]-th call of [sendto], which returns the smaller of
      this and the length of the datagram;
    - [clock i] is what the [i]-th call of [time.time()] returns.

    [sendto] itself is taken to return: a transport that fails on output is
    outside the model. *)
Record World := mkWorld {
  recvfrom_result : nat -> option bytes;
  sendto_accepts : nat -> N;
  clock : nat -> Z
}.

(** ** [class MyTCPProtocol(UDPBasedProtocol)]

    The six attributes of the connection and the state of its socket: how
    many [recvfrom] calls were made, the datagrams passed to [sendto], how
    many times the clock was read. *)
Record MyTCPProtocol := mkProtocol {
  _sent_bytes_cnt : Z;
  _delivered_bytes_cnt : Z;
  _received_bytes_cnt : Z;
  _send_window : PriorityQueue;
  _recv_window : PriorityQueue;
  _buffer : bytes;
  rx_calls : nat;
  tx_log : list bytes;
  clock_reads : nat
}.

Definition max_data_sz : Z := 1024.
Definition window_sz : Z := 4096.
Definition max_lag : Z := 64.

(** [MyTCPProtocol.__init__] *)
Definition init : MyTCPProtocol := mkProtocol 0 0 0 [] [] [] 0 [] 0.

Definition set_sent (v : Z) (c : MyTCPProtocol) : MyTCPProtocol :=
  mkProtocol v (_delivered_bytes_cnt c) (_received_bytes_cnt c) (_send_window c)
    (_recv_window c) (_buffer c) (rx_calls c) (tx_log c) (clock_reads c).

Definition set_delivered (v : Z) (c : MyTCPProtocol) : MyTCPProtocol :=
  mkProtocol (_sent_bytes_cnt c) v (_received_bytes_cnt c) (_send_window c)
    (_recv_window c) (_buffer c) (rx_calls c) (tx_log c) (clock_reads c).

Definition set_received (v : Z) (c : MyTCPProtocol) : MyTCPProtocol :=
  mkProtocol (_sent_bytes_cnt c) (_delivered_bytes_cnt c) v (_send_window c)
    (_recv_window c) (_buffer c) (rx_calls c) (tx_log c) (clock_reads c).

Definition set_send_window (q : PriorityQueue) (c : MyTCPProtocol) : MyTCPProtocol :=
  mkProtocol (_sent_bytes_cnt c) (_delivered_bytes_cnt c) (_received_bytes_cnt c) q
    (_recv_window c) (_buffer c) (rx_calls c) (tx_log c) (clock_reads c).

Definition set_recv_window (q : PriorityQueue) (c : MyTCPProtocol) : MyTCPProtocol :=
  mkProtocol (_sent_bytes_cnt c) (_delivered_bytes_cnt c) (_received_bytes_cnt c)
    (_send_window c) q (_buffer c) (rx_calls c) (tx_log c) (clock_reads c).

Definition set_buffer (b : bytes) (c : MyTCPProtocol) : MyTCPProtocol :=
  mkProtocol (_sent_bytes_cnt c) (_delivered_bytes_cnt c) (_received_bytes_cnt c)
    (_send_window c) (_recv_window c) b (rx_calls c) (tx_log c) (clock_reads c).

Definition set_rx_calls (n : nat) (c : MyTCPProtocol) : MyTCPProtocol :=
  mkProtocol (_sent_bytes_cnt c) (_delivered_bytes_cnt c) (_received_bytes_cnt c)
    (_send_window c) (_recv_window c) (_buffer c) n (tx_log c) (clock_reads c).

Definition set_tx_log (l : list bytes) (c : MyTCPProtocol) : MyTCPProtocol :=
  mkProtocol (_sent_bytes_cnt c) (_delivered_bytes_cnt c) (_received_bytes_cnt c)
    (_send_window c) (_recv_window c) (_buffer c) (rx_calls c) l (clock_reads c).

Definition set_clock_reads (n : nat) (c : MyTCPProtocol) : MyTCPProtocol :=
  mkProtocol (_sent_bytes_cnt c) (_delivered_bytes_cnt c) (_received_bytes_cnt c)
    (_send_window c) (_recv_window c) (_buffer c) (rx_calls c) (tx_log c) n.

(** ** Methods as state transformers that may raise

    A method call on a connection ends in a value and a new state, in an
    exception (the attributes keep what was assigned before the [raise]), or
    it does not end: [Diverge] is what a loop gives when its fuel runs out. *)
Inductive pyexn := PyExn (e : exn) | SocketError.

Inductive outcome (A : Type) :=
| Ok (a : A) (c : MyTCPProtocol)
| Raise (e : pyexn) (c : MyTCPProtocol)
| Diverge.
Arguments Ok {A} a c.
Arguments Raise {A} e c.
Arguments Diverge {A}.

Definition M (A : Type) : Type := MyTCPProtocol -> outcome A.

Definition ret {A} (a : A) : M A := fun c => Ok a c.

Definition bind {A B} (m : M A) (k : A -> M B) : M B :=
  fun c =>
    match m c with
    | Ok a c' => k a c'
    | Raise e c' => Raise e c'
    | Diverge => Diverge
    end.

Definition raise {A} (e : pyexn) : M A := fun c => Raise e c.

Definition gets {A} (f : MyTCPProtocol -> A) : M A := fun c => Ok (f c) c.

Definition modify (f : MyTCPProtocol -> MyTCPProtocol) : M unit := fun c => Ok tt (f c).

(** [try: m  except socket.error: h] *)
Definition except_socket_error {A} (m : M A) (h : M A) : M A :=
  fun c =>
    match m c with
    | Raise SocketError c' => h c'
    | r => r
    end.

Definition lift_exn {A} (r : exn + A) : M A :=
  match r with
  | inl e => raise (PyExn e)
  | inr a => ret a
  end.

Declare Scope py_scope.
Delimit Scope py_scope with py.
Notation "x <- m ;; k" := (bind m (fun x => k))
  (at level 100, m at next level, right associativity) : py_scope.
Notation "m ;;; k" := (bind m (fun _ => k))
  (at level 100, right associativity) : py_scope.
Local Open Scope py_scope.

(** The local variables of [send]: [data], [sent_data_len] and [lag]. *)
Record send_locals := mkLocals {
  l_data : bytes;
  l_sent_data_len : Z;
  l_lag : Z
}.

Section Methods.
Variable w : World.

(** [time.time()] *)
Definition time_time : M Z :=
  fun c => Ok (clock w (clock_reads c)) (set_clock_reads (S (clock_reads c)) c).

(** [TCPSegment.__init__] *)
Definition TCPSegment_init (seq ack : Z) (d : bytes) : M TCPSegment :=
  t <- time_time ;;
  ret (mkSegment seq ack d false t).

(** [TCPSegment.update_sending_time()] *)
Definition update_sending_time (s : TCPSegment) : M TCPSegment :=
  t <- time_time ;;
  ret (set_sending_time t s).

(** [TCPSegment.load] *)
Definition load (d : bytes) : M TCPSegment :=
  let seq := int_from_bytes (slice_to d 8) in
  let ack := int_from_bytes (slice_between d 8 16) in
  TCPSegment_init seq ack (slice_from d 16).

(** [TCPSegment.expired]: the clock is read only when the segment is not
    acknowledged. *)
Definition expired (s : TCPSegment) : M bool :=
  if negb (acknowledged s) then
    t <- time_time ;;
    ret (ACK_TIMEOUT <? t - _sending_time s)
  else ret false.

(** [UDPBasedProtocol.sendto] *)
Definition sendto (d : bytes) : M Z :=
  fun c =>
    let accepted := N.min (sendto_accepts w (length (tx_log c))) (N.of_nat (length d)) in
    Ok (Z.of_N accepted) (set_tx_log (tx_log c ++ [d]) c).

(** [UDPBasedProtocol.recvfrom]: at most [n] bytes of the datagram. *)
Definition recvfrom (n : Z) : M bytes :=
  fun c =>
    let c' := set_rx_calls (S (rx_calls c)) c in
    match recvfrom_result w (rx_calls c) with
    | Some d => Ok (take (Z.to_nat n) d) c'
    | None => Raise SocketError c'
    end.

(** [MyTCPProtocol._send_segment] *)
Definition _send_segment (segment : TCPSegment) : M Z :=
  d <- lift_exn (dump segment) ;;
  r <- sendto d ;;
  let sent_length := r - 16 in
  sent <- gets _sent_bytes_cnt ;;
  (if seq_number segment =? sent then
     modify (set_sent (sent + sent_length))
   else if sent <? seq_number segment then
     raise (PyExn ValueError)
   else ret tt) ;;;
  (if negb (len (data segment) =? 0) then
     segment' <- update_sending_time (set_data (slice_to (data segment) sent_length) segment) ;;
     modify (fun c => set_send_window (pq_put (_send_window c) (seq_number segment', segment')) c)
   else ret tt) ;;;
  ret sent_length.

(** The [while] loop of [_shift_recv_window]; each turn that goes on has
    taken one entry out of the queue. *)
Fixpoint shift_recv_loop (fuel : nat) (first_segment : option TCPSegment)
    : M (option TCPSegment) :=
  fun c =>
    match pq_get (_recv_window c) with
    | None => Ok first_segment c
    | Some ((_, first), rest) =>
        match fuel with
        | O => Diverge
        | S fuel' =>
            let c1 := set_recv_window rest c in
            if seq_number first <? _received_bytes_cnt c1 then
              shift_recv_loop fuel' (Some (set_acknowledged true first)) c1
            else if seq_number first =? _received_bytes_cnt c1 then
              shift_recv_loop fuel' (Some (set_acknowledged true first))
                (set_received (_received_bytes_cnt c1 + len (data first))
                   (set_buffer (_buffer c1 ++ data first) c1))
            else
              Ok (Some first)
                (set_recv_window (pq_put rest (seq_number first, first)) c1)
        end
    end.

(** [MyTCPProtocol._shift_recv_window] *)
Definition _shift_recv_window : M unit :=
  q <- gets _recv_window ;;
  first_segment <- shift_recv_loop (length q) None ;;
  match first_segment with
  | Some _ =>
      sent <- gets _sent_bytes_cnt ;;
      received <- gets _received_bytes_cnt ;;
      ack <- TCPSegment_init sent received [] ;;
      _send_segment ack ;;;
      ret tt
  | None => ret tt
  end.

(** The [while] loop of [_shift_send_window]. *)
Fixpoint shift_send_loop (fuel : nat) : M unit :=
  fun c =>
    match pq_get (_send_window c) with
    | None => Ok tt c
    | Some ((_, first), rest) =>
        match fuel with
        | O => Diverge
        | S fuel' =>
            if _delivered_bytes_cnt c <=? seq_number first then
              Ok tt (set_send_window (pq_put rest (seq_number first, first)) c)
            else shift_send_loop fuel' (set_send_window rest c)
        end
    end.

(** [MyTCPProtocol._shift_send_window] *)
Definition _shift_send_window : M unit :=
  q <- gets _send_window ;;
  shift_send_loop (length q).

(** The statements of [_receive_segment] that follow the [try] block, for
    the segment that was decoded. *)
Definition process_segment (segment : TCPSegment) : M bool :=
  (if negb (len (data segment) =? 0) then
     modify (fun c => set_recv_window
                        (pq_put (_recv_window c) (seq_number segment, segment)) c) ;;;
     _shift_recv_window
   else ret tt) ;;;
  delivered <- gets _delivered_bytes_cnt ;;
  (if delivered <? ack_number segment then
     modify (set_delivered (ack_number segment)) ;;;
     _shift_send_window
   else ret tt) ;;;
  ret true.

(** [MyTCPProtocol._receive_segment]; [settimeout] has no effect of its
    own here, the world decides whether [recvfrom] returns or raises. *)
Definition _receive_segment (timeout : option Z) : M bool :=
  received <- except_socket_error
                (d <- recvfrom (max_data_sz + 16) ;;
                 s <- load d ;;
                 ret (Some s))
                (ret None) ;;
  match received with
  | None => ret false
  | Some segment => process_segment segment
  end.

(** [MyTCPProtocol._resend_first_segment] *)
Definition _resend_first_segment : M unit :=
  q <- gets _send_window ;;
  match pq_get q with
  | None => ret tt
  | Some ((_, first_segment), rest) =>
      modify (set_send_window rest) ;;;
      e <- expired first_segment ;;
      if e then
        _send_segment first_segment ;;;
        ret tt
      else
        modify (fun c => set_send_window
                           (pq_put (_send_window c) (seq_number first_segment, first_segment)) c)
  end.

(** One turn of the [while] loop of [send], on its local variables. *)
Definition send_body (l : send_locals) : M send_locals :=
  sent <- gets _sent_bytes_cnt ;;
  delivered <- gets _delivered_bytes_cnt ;;
  next <- (if (sent - delivered <=? window_sz) && negb (len (l_data l) =? 0) then
             received <- gets _received_bytes_cnt ;;
             segment <- TCPSegment_init sent received
                          (slice_to (l_data l) (Z.min max_data_sz (len (l_data l)))) ;;
             sent_length <- _send_segment segment ;;
             ret (mkLocals (slice_from (l_data l) sent_length)
                    (l_sent_data_len l + sent_length) (l_lag l))
           else
             arrived <- _receive_segment (Some ACK_TIMEOUT) ;;
             ret (mkLocals (l_data l) (l_sent_data_len l)
                    (if arrived : bool then 0 else l_lag l + 1))) ;;
  _resend_first_segment ;;;
  ret next.

(** The condition of the [while] loop of [send]. *)
Definition send_guard (l : send_locals) (c : MyTCPProtocol) : bool :=
  (l_lag l <? max_lag)
  && (negb (len (l_data l) =? 0) || (_delivered_bytes_cnt c <? _sent_bytes_cnt c)).

Fixpoint send_loop (fuel : nat) (l : send_locals) : M Z :=
  fun c =>
    if send_guard l c then
      match fuel with
      | O => Diverge
      | S fuel' => (l' <- send_body l ;; send_loop fuel' l') c
      end
    else Ok (l_sent_data_len l) c.

(** [MyTCPProtocol.send] *)
Definition send (fuel : nat) (d : bytes) : M Z := send_loop fuel (mkLocals d 0 0).

(** The [while] loop of [recv]. *)
Fixpoint recv_loop (fuel : nat) (data_sz : Z) (d : bytes) : M bytes :=
  fun c =>
    if len d <? data_sz then
      match fuel with
      | O => Diverge
      | S fuel' =>
          let right_border := Z.min data_sz (len (_buffer c)) in
          let d' := d ++ slice_to (_buffer c) right_border in
          let c' := set_buffer (slice_from (_buffer c) right_border) c in
          if len d' <? data_sz then
            (_receive_segment None ;;; recv_loop fuel' data_sz d') c'
          else recv_loop fuel' data_sz d' c'
      end
    else Ok d c.

(** [MyTCPProtocol.recv] *)
Definition recv (fuel : nat) (data_sz : Z) : M bytes := recv_loop fuel data_sz [].
End Methods.

(** ** Predicates used in the statements *)

Definition u64 (x : Z) : Prop := 0 <= x < 2 ^ 64.

(** The transport takes at least the 16 bytes of the header of every
    datagram. *)
Definition header_accepted (w : World) : Prop :=
  forall i, (16 <= sendto_accepts w i)%N.

(** An entry of the send window lies below the sent cursor. *)
Definition entry_sent (sent : Z) (e : Z * TCPSegment) : Prop :=
  seq_number e.2 + len (data e.2) <= sent.

Definition send_window_ok (c : MyTCPProtocol) : Prop :=
  Forall (entry_sent (_sent_bytes_cnt c)) (_send_window c).

(** The state a call ends in, when it ends. *)
Definition final_state {A} (r : outcome A) : option MyTCPProtocol :=
  match r with
  | Ok _ c => Some c
  | Raise _ c => Some c
  | Diverge => None
  end.

(** What [_send_segment] does after [sendto] returned [sent_length + 16]
    and the cursor was brought up to date. *)
Definition keep_in_flight (w : World) (segment : TCPSegment) (sent_length : Z)
    (c : MyTCPProtocol) : outcome Z :=
  if negb (len (data segment) =? 0) then
    Ok sent_length
      (set_send_window
         (pq_put (_send_window c)
            (seq_number segment,
             set_sending_time (clock w (clock_reads c))
               (set_data (slice_to (data segment) sent_length) segment)))
         (set_clock_reads (S (clock_reads c)) c))
  else Ok sent_length c.

(** ** Concrete worlds and datagrams for the examples *)

Definition ascii_bytes (l : list Z) : bytes := map byte_of_Z l.

(** A datagram as the peer frames it. *)
Definition frame (seq ack : Z) (payload : bytes) : bytes :=
  be_digits 8 seq ++ be_digits 8 ack ++ payload.

(** A transport that takes every datagram whole, as UDP does. *)
Definition whole_datagrams : nat -> N := fun _ => 65535%N.

(** A clock that advances by one millisecond per reading. *)
Definition ticking : nat -> Z := fun i => 1000 * Z.of_nat i.

(** Nothing ever arrives. *)
Definition silent_world : World := mkWorld (fun _ => None) whole_datagrams ticking.

(** The datagrams of [l] arrive one per [recvfrom], then nothing. *)
Definition arrivals (l : list bytes) : World :=
  mkWorld (fun i => l !! i) whole_datagrams ticking.

(** ** Specifications of calls

    [wp D m Q E c]: the call [m] from state [c] ends in a value and a state
    that satisfy [Q], or raises an exception with a state that satisfy [E];
    [D] says whether it may run out of fuel. *)
Definition wp {A} (D : Prop) (m : M A) (Q : A -> MyTCPProtocol -> Prop)
    (E : pyexn -> MyTCPProtocol -> Prop) (c : MyTCPProtocol) : Prop :=
  match m c with
  | Ok a c' => Q a c'
  | Raise e c' => E e c'
  | Diverge => D
  end.

(** [ends R m c]: the call ends, and [R] relates [c] to the state it ends
    in, whether it returns or raises. *)
Definition ends {A} (R : MyTCPProtocol -> MyTCPProtocol -> Prop) (m : M A)
    (c : MyTCPProtocol) : Prop :=
  wp False m (fun _ c' => R c c') (fun _ c' => R c c') c.

(** The segments of [segs] follow one another in the stream from offset [k]
    up to offset [k']: each starts where the one before it ended. *)
Fixpoint contiguous (k : Z) (segs : list TCPSegment) (k' : Z) : Prop :=
  match segs with
  | [] => k' = k
  | s :: rest => seq_number s = k /\ contiguous (k + len (data s)) rest k'
  end.

(** From [c] to [c'] the delivery buffer only grew, by the payloads of
    segments that follow one another from the received cursor of [c] up to
    that of [c']. *)
Definition delivers (c c' : MyTCPProtocol) : Prop :=
  exists segs,
    contiguous (_received_bytes_cnt c) segs (_received_bytes_cnt c') /\
    _buffer c' = _buffer c ++ concat (map data segs).

(** The receive side of the connection is the same in [c] and [c']. *)
Definition same_recv_side (c c' : MyTCPProtocol) : Prop :=
  _received_bytes_cnt c' = _received_bytes_cnt c /\
  _recv_window c' = _recv_window c /\
  _buffer c' = _buffer c.

(** The send side of the connection is the same in [c] and [c']. *)
Definition same_send_side (c c' : MyTCPProtocol) : Prop :=
  _sent_bytes_cnt c' = _sent_bytes_cnt c /\
  _delivered_bytes_cnt c' = _delivered_bytes_cnt c /\
  _send_window c' = _send_window c.

(** From [c] to [c'] the sent cursor stayed, the delivered cursor did not go
    back, and the send window is still below the sent cursor. *)
Definition calm (c c' : MyTCPProtocol) : Prop :=
  _sent_bytes_cnt c' = _sent_bytes_cnt c /\
  _delivered_bytes_cnt c <= _delivered_bytes_cnt c' /\
  send_window_ok c'.

(** Every segment kept in a queue satisfies [P]. *)
Definition window_all (P : TCPSegment -> Prop) (q : PriorityQueue) : Prop :=
  Forall (fun e => P e.2) q.

(** The connection reads no datagram from [c] to [c']. *)
Definition no_rx (c c' : MyTCPProtocol) : Prop := rx_calls c' = rx_calls c.

(** What handling one incoming segment with acknowledgment number [a] may
    do to the send side: the sent cursor stays, the delivered cursor stays
    or moves forward to [a], and the send window keeps only segments it
    had. *)
Definition acked_to (a : Z) (c c' : MyTCPProtocol) : Prop :=
  _sent_bytes_cnt c' = _sent_bytes_cnt c /\
  (_delivered_bytes_cnt c' = _delivered_bytes_cnt c
   \/ (_delivered_bytes_cnt c < a /\ _delivered_bytes_cnt c' = a)) /\
  (forall P, window_all P (_send_window c) -> window_all P (_send_window c')).

(** The acknowledgment number that a datagram carries on the wire. *)
Definition wire_ack (d : bytes) : Z := int_from_bytes (slice_between d 8 16).

(** Ten bytes of payload starting with the value [x]. *)
Definition ten_from (x : Z) : bytes :=
  ascii_bytes [x; x + 1; x + 2; x + 3; x + 4; x + 5; x + 6; x + 7; x + 8; x + 9].

(** A connection that has received and delivered the first ten bytes of the
    stream and holds nothing else. *)
Definition ten_received : MyTCPProtocol := mkProtocol 0 0 10 [] [] [] 0 [] 0.


(** The bytes in flight stay within the window plus one segment. *)
Definition window_bound (c : MyTCPProtocol) : Prop :=
  _sent_bytes_cnt c - _delivered_bytes_cnt c <= window_sz + max_data_sz.

(** The test of [send] that lets a new segment out: the window is not full
    and payload remains. *)
Definition carves (l : send_locals) (c : MyTCPProtocol) : Prop :=
  _sent_bytes_cnt c - _delivered_bytes_cnt c <= window_sz /\ l_data l <> [].

(** A segment whose two numbers fit the 8-byte fields of the header. *)
Definition wire_ok (s : TCPSegment) : Prop :=
  u64 (seq_number s) /\ u64 (ack_number s).

(** Nothing ever arrives: every [recvfrom] times out. *)
Definition silent (w : World) : Prop := forall i, recvfrom_result w i = None.

(** The transport takes whole every datagram the protocol builds for new
    payload: a header and up to [max_data_sz] bytes. *)
Definition takes_whole (w : World) : Prop :=
  forall i, (1040 <= sendto_accepts w i)%N.

(** A state from which [send] can run: the send window lies below the sent
    cursor and holds segments that fit the header, the cursors are in order
    and fit the header, and the bytes in flight are within the window plus
    one segment. *)
Definition sender_ready (c : MyTCPProtocol) : Prop :=
  send_window_ok c /\ window_all wire_ok (_send_window c) /\
  0 <= _delivered_bytes_cnt c <= _sent_bytes_cnt c /\
  u64 (_received_bytes_cnt c) /\ window_bound c.

(** How many bytes of [n] fit in the window when [in_flight] bytes are
    unacknowledged: whole segments of [max_data_sz] bytes go out while at
    most [window_sz] bytes are in flight. *)
Definition room (in_flight n : Z) : Z :=
  Z.min n (max_data_sz * ((window_sz + max_data_sz - in_flight) / max_data_sz)).

Definition hello : bytes := ascii_bytes [104; 101; 108; 108; 111].

(** The states a connection goes through in world [w]: the fresh one, and
    those in which a call of [send] or [recv] returns. *)
Inductive reachable (w : World) : MyTCPProtocol -> Prop :=
| reachable_init : reachable w init
| reachable_send fuel d c n c' :
    reachable w c -> send w fuel d c = Ok n c' -> reachable w c'
| reachable_recv fuel data_sz c d c' :
    reachable w c -> recv w fuel data_sz c = Ok d c' -> reachable w c'.

(** A run of the connection in world [w]: from state [c], after any
    sequence of datagrams handled by [_receive_segment] and of calls of
    [send] and [recv] that returned, the application has read the bytes
    [out] and the connection is in state [c']. *)
Inductive stream_run (w : World) (c : MyTCPProtocol) : bytes -> MyTCPProtocol -> Prop :=
| run_start : stream_run w c [] c
| run_arrival out c1 timeout c2 :
    stream_run w c out c1 ->
    final_state (_receive_segment w timeout c1) = Some c2 ->
    stream_run w c out c2
| run_send out c1 fuel d n c2 :
    stream_run w c out c1 ->
    send w fuel d c1 = Ok n c2 ->
    stream_run w c out c2
| run_recv out c1 fuel data_sz d c2 :
    stream_run w c out c1 ->
    recv w fuel data_sz c1 = Ok d c2 ->
    stream_run w c (out ++ d) c2.

(** The sequence number that a datagram carries on the wire. *)
Definition wire_seq (d : bytes) : Z := int_from_bytes (slice_to d 8).

(** The payload that [_receive_segment] reads from a datagram: what follows
    the header in its first [max_data_sz + 16] bytes. *)
Definition wire_payload (d : bytes) : bytes :=
  slice_from (take (Z.to_nat (max_data_sz + 16)) d) 16.

(** ** Order of a heap

    [hle lt x y]: [x] is not after [y], that is, [y < x] does not hold. *)
Definition hle {T} (lt : T -> T -> bool) (x y : T) : Prop := lt y x = false.

(** The position of the parent of position [j] in a heap list. *)
Definition parent (j : nat) : nat := (j - 1) / 2.

(** A list is ordered as a heap: no entry is before its parent. *)
Definition heap_ok {T} (lt : T -> T -> bool) (h : list T) : Prop :=
  forall j x y, (0 < j)%nat -> h !! j = Some y -> h !! parent j = Some x -> hle lt x y.

(** Ordered as a heap but for the entry at [pos], which may be before its
    ancestors (and is not after its children, whose grandparent is not after
    them). *)
Definition heap_ok_but {T} (lt : T -> T -> bool) (h : list T) (pos : nat) : Prop :=
  (forall j x y, (0 < j)%nat -> j <> pos ->
     h !! j = Some y -> h !! parent j = Some x -> hle lt x y) /\
  (forall j x y, (0 < j)%nat -> (0 < pos)%nat -> parent j = pos ->
     h !! j = Some y -> h !! parent pos = Some x -> hle lt x y).

(** Ordered as a heap when the entry at [pos] is left out: no other entry is
    before its parent, and the children of [pos] are not before the parent
    of [pos]. *)
Definition heap_hole {T} (lt : T -> T -> bool) (h : list T) (pos : nat) : Prop :=
  (forall j x y, (0 < j)%nat -> j <> pos -> parent j <> pos ->
     h !! j = Some y -> h !! parent j = Some x -> hle lt x y) /\
  (forall j x y, (0 < j)%nat -> (0 < pos)%nat -> parent j = pos ->
     h !! j = Some y -> h !! parent pos = Some x -> hle lt x y).

(** ** The queues of the connection *)

(** An entry [(k, segment)] of a queue is filed under the sequence number of
    its segment, as every [put] of the protocol does. *)
Definition keyed (e : Z * TCPSegment) : Prop := e.1 = seq_number e.2.

(** A queue as the protocol builds it: a heap of entries filed under their
    sequence numbers. *)
Definition queue_ok (q : PriorityQueue) : Prop :=
  heap_ok entry_lt q /\ Forall keyed q.

(** Every entry of the queue starts beyond offset [k]. *)
Definition beyond (k : Z) (q : PriorityQueue) : Prop :=
  Forall (fun e => k < seq_number e.2) q.

(** Both windows are queues as the protocol builds them, and every segment
    that waits in the receive window starts beyond the received cursor. *)
Definition windows_ok (c : MyTCPProtocol) : Prop :=
  queue_ok (_send_window c) /\ queue_ok (_recv_window c) /\
  beyond (_received_bytes_cnt c) (_recv_window c).

(** Every segment in flight carries at most [max_data_sz] bytes, and every
    datagram handed to [sendto] so far had at most [max_data_sz + 16]
    bytes. *)
Definition sized (c : MyTCPProtocol) : Prop :=
  window_all (fun s => len (data s) <= max_data_sz) (_send_window c) /\
  Forall (fun d => len d <= max_data_sz + 16) (tx_log c).

(** ** Where a delivered segment comes from *)

(** The segment [s] waits in the receive window of [c]. *)
Definition waiting_in (c : MyTCPProtocol) (s : TCPSegment) : Prop :=
  exists k, (k, s) ∈ _recv_window c.

(** The segment [s] is what [_receive_segment] decodes from the datagram
    that one of the [recvfrom] calls number [i] to [j - 1] returned: it has
    the sequence number and the payload of that datagram. *)
Definition arrived_in (w : World) (i j : nat) (s : TCPSegment) : Prop :=
  exists n d,
    (i <= n < j)%nat /\ recvfrom_result w n = Some d /\
    seq_number s = wire_seq d /\ data s = wire_payload d.

(** From [c] to [c'] the segments [segs] were appended to the buffer, one
    after the other: each of them waited in the receive window of [c] or
    arrived in between, and each was appended when the received cursor stood
    at its sequence number; what waits in the receive window of [c'] waited
    in that of [c] or arrived in between. *)
Definition traced (w : World) (c c' : MyTCPProtocol) (segs : list TCPSegment) : Prop :=
  (rx_calls c <= rx_calls c')%nat /\
  contiguous (_received_bytes_cnt c) segs (_received_bytes_cnt c') /\
  Forall (fun s => waiting_in c s \/ arrived_in w (rx_calls c) (rx_calls c') s) segs /\
  forall s, waiting_in c' s -> waiting_in c s \/ arrived_in w (rx_calls c) (rx_calls c') s.

(** From [c] to [c'] the buffer grew by the payloads of segments traced to
    the receive window of [c] or to the arrivals in between. *)
Definition appends (w : World) (c c' : MyTCPProtocol) : Prop :=
  exists segs,
    traced w c c' segs /\ _buffer c' = _buffer c ++ concat (map data segs).


(** * Properties *)

(** ** The codec *)

Lemma Z_of_byte_of_Z z : Z_of_byte (byte_of_Z z) = z mod 256.
Proof.
  unfold Z_of_byte, byte_of_Z.
  assert (Hr : 0 <= z mod 256 < 256) by (apply Z.mod_pos_bound; lia).
  destruct (Byte.of_N (Z.to_N (z mod 256))) as [b|] eqn:E.
  - apply Byte.to_of_N in E. rewrite E. lia.
  - apply Byte.of_N_None_iff in E. lia.
Qed.

Lemma int_from_bytes_snoc bs b :
  int_from_bytes (bs ++ [b]) = int_from_bytes bs * 256 + Z_of_byte b.
Proof. unfold int_from_bytes. now rewrite fold_left_app. Qed.

Lemma length_be_digits n x : length (be_digits n x) = n.
Proof.
  revert x. induction n as [|n IH]; intros x; simpl; [reflexivity|].
  rewrite length_app, IH. simpl. lia.
Qed.

Lemma int_from_be_digits n x :
  int_from_bytes (be_digits n x) = x mod 256 ^ Z.of_nat n.
Proof.
  revert x. induction n as [|n IH]; intros x.
  - simpl. now rewrite Z.mod_1_r.
  - cbn [be_digits]. rewrite int_from_bytes_snoc, IH, Z_of_byte_of_Z.
    rewrite Nat2Z.inj_succ, Z.pow_succ_r by lia.
    rewrite Z.rem_mul_r by lia. lia.
Qed.

Lemma int_to_bytes_ok n x :
  0 <= x < 256 ^ Z.of_nat n ->
  int_to_bytes n x = inr (be_digits n x).
Proof.
  intros [H0 H1]. unfold int_to_bytes.
  apply Z.leb_le in H0. apply Z.ltb_lt in H1. now rewrite H0, H1.
Qed.

Lemma dump_ok s :
  u64 (seq_number s) -> u64 (ack_number s) ->
  dump s = inr (be_digits 8 (seq_number s) ++ be_digits 8 (ack_number s) ++ data s).
Proof.
  intros Hs Ha. unfold dump.
  rewrite !int_to_bytes_ok; [reflexivity | exact Ha | exact Hs].
Qed.

Lemma load_fields w d c :
  load w d c =
  Ok (mkSegment (int_from_bytes (slice_to d 8)) (int_from_bytes (slice_between d 8 16))
        (slice_from d 16) false (clock w (clock_reads c)))
     (set_clock_reads (S (clock_reads c)) c).
Proof. reflexivity. Qed.

Lemma slices_of_frame (h1 h2 p : bytes) :
  length h1 = 8%nat -> length h2 = 8%nat ->
  slice_to (h1 ++ h2 ++ p) 8 = h1 /\
  slice_between (h1 ++ h2 ++ p) 8 16 = h2 /\
  slice_from (h1 ++ h2 ++ p) 16 = p.
Proof.
  intros L1 L2. unfold slice_between, slice_to, slice_from, slice_index. simpl.
  change (Z.to_nat 8) with 8%nat. change (Z.to_nat 16) with 16%nat.
  repeat split.
  - now rewrite take_app_length'.
  - rewrite app_assoc, take_app_length' by (rewrite length_app; lia).
    now rewrite drop_app_length'.
  - rewrite app_assoc. apply drop_app_length'. rewrite length_app. lia.
Qed.

(** ** The heap *)

Section HeapqFacts.
Context {T : Type}.
Variable lt : T -> T -> bool.

Lemma siftdown_loop_fuel f1 f2 (heap : list T) newitem startpos pos :
  (pos <= f1)%nat -> (pos <= f2)%nat ->
  siftdown_loop lt f1 heap newitem startpos pos
  = siftdown_loop lt f2 heap newitem startpos pos.
Proof.
  revert f2 heap pos. induction f1 as [|f1 IH]; intros f2 heap pos H1 H2.
  - assert (pos = 0%nat) as -> by lia. destruct f2; reflexivity.
  - destruct f2 as [|f2].
    + assert (pos = 0%nat) as -> by lia. reflexivity.
    + cbn [siftdown_loop]. destruct (startpos <? pos)%nat eqn:E; [|reflexivity].
      apply Nat.ltb_lt in E.
      destruct (heap !! ((pos - 1) / 2)%nat); [|reflexivity].
      destruct (lt newitem t); [|reflexivity].
      assert ((pos - 1) / 2 <= pos - 1)%nat by (apply Nat.Div0.div_le_upper_bound; lia).
      apply IH; lia.
Qed.

Lemma siftup_loop_fuel f1 f2 (heap : list T) pos :
  (length heap - pos <= f1)%nat -> (length heap - pos <= f2)%nat ->
  siftup_loop lt f1 heap pos = siftup_loop lt f2 heap pos.
Proof.
  revert f2 heap pos. induction f1 as [|f1 IH]; intros f2 heap pos H1 H2.
  - destruct f2 as [|f2]; [reflexivity|]. cbn [siftup_loop].
    destruct (2 * pos + 1 <? length heap)%nat eqn:E; [|reflexivity].
    apply Nat.ltb_lt in E. lia.
  - destruct f2 as [|f2]; cbn [siftup_loop];
      destruct (2 * pos + 1 <? length heap)%nat eqn:E; try reflexivity;
      apply Nat.ltb_lt in E; [lia | ].
    destruct (heap !! (2 * pos + 1)%nat) as [child|]; [|reflexivity].
    set (cp := match heap !! (2 * pos + 1 + 1)%nat with
               | Some rchild => if negb (lt child rchild) then (2 * pos + 1 + 1)%nat
                                else (2 * pos + 1)%nat
               | None => (2 * pos + 1)%nat
               end).
    assert (Hcp : (pos < cp)%nat).
    { subst cp. destruct (heap !! (2 * pos + 1 + 1)%nat) as [r|]; [|lia].
      destruct (negb (lt child r)); lia. }
    destruct (heap !! cp) as [c|] eqn:Ec; [|reflexivity].
    apply lookup_lt_Some in Ec.
    apply IH; rewrite length_insert; lia.
Qed.

Section Forall.
Variable P : T -> Prop.

Lemma siftdown_loop_Forall fuel (heap : list T) newitem startpos pos :
  Forall P heap -> Forall P (siftdown_loop lt fuel heap newitem startpos pos).1.
Proof.
  revert heap pos. induction fuel as [|fuel IH]; intros heap pos H; [exact H | ].
  cbn [siftdown_loop]. destruct (startpos <? pos)%nat; [|exact H].
  destruct (heap !! ((pos - 1) / 2)%nat) as [parent|] eqn:E; [|exact H].
  destruct (lt newitem parent); [|exact H].
  apply IH, Forall_insert; [exact H | ].
  exact (Forall_lookup_1 _ _ _ _ H ltac:(eassumption)).
Qed.

Lemma siftdown_Forall (heap : list T) startpos pos :
  Forall P heap -> Forall P (siftdown lt heap startpos pos).
Proof.
  intros H. unfold siftdown. destruct (heap !! pos) as [newitem|] eqn:E; [|exact H].
  pose proof (siftdown_loop_Forall pos heap newitem startpos pos H) as H'.
  destruct (siftdown_loop lt pos heap newitem startpos pos) as [heap' pos'].
  apply Forall_insert; [exact H' | ]. exact (Forall_lookup_1 _ _ _ _ H ltac:(eassumption)).
Qed.

Lemma siftup_loop_Forall fuel (heap : list T) pos :
  Forall P heap -> Forall P (siftup_loop lt fuel heap pos).1.
Proof.
  revert heap pos. induction fuel as [|fuel IH]; intros heap pos H; [exact H | ].
  cbn [siftup_loop]. destruct (2 * pos + 1 <? length heap)%nat; [|exact H].
  destruct (heap !! (2 * pos + 1)%nat) as [child|]; [|exact H].
  match goal with |- context [heap !! ?cp] =>
    lazymatch cp with
    | (2 * pos + 1)%nat => fail
    | _ => destruct (heap !! cp) as [c|] eqn:Ec; [|exact H]
    end end.
  apply IH, Forall_insert; [exact H | ]. exact (Forall_lookup_1 _ _ _ _ H ltac:(eassumption)).
Qed.

Lemma siftup_Forall (heap : list T) pos :
  Forall P heap -> Forall P (siftup lt heap pos).
Proof.
  intros H. unfold siftup. destruct (heap !! pos) as [newitem|] eqn:E; [|exact H].
  pose proof (siftup_loop_Forall (length heap) heap pos H) as H'.
  destruct (siftup_loop lt (length heap) heap pos) as [heap' pos'].
  apply siftdown_Forall, Forall_insert; [exact H' | ].
  exact (Forall_lookup_1 _ _ _ _ H ltac:(eassumption)).
Qed.

Lemma heappush_Forall (heap : list T) item :
  Forall P heap -> P item -> Forall P (heappush lt heap item).
Proof.
  intros H Hi. apply siftdown_Forall, Forall_app. split; [exact H | ].
  now constructor.
Qed.

Lemma heappop_Forall (heap : list T) x heap' :
  heappop lt heap = Some (x, heap') -> Forall P heap -> P x /\ Forall P heap'.
Proof.
  unfold heappop. intros E H. destruct (last heap) as [lastelt|] eqn:El; [|discriminate].
  apply last_Some in El as [l' ->]. rewrite removelast_last in E.
  apply Forall_app in H as [Hl Hx]. rewrite Forall_singleton in Hx.
  destruct l' as [|returnitem rest]; injection E as <- <-.
  - split; [exact Hx | constructor].
  - apply Forall_cons in Hl as [Hr Hrest]. split; [exact Hr | ].
    apply siftup_Forall. now constructor.
Qed.
End Forall.

Lemma siftdown_loop_length fuel (heap : list T) newitem startpos pos :
  length (siftdown_loop lt fuel heap newitem startpos pos).1 = length heap.
Proof.
  revert heap pos. induction fuel as [|fuel IH]; intros heap pos; [reflexivity|].
  cbn [siftdown_loop]. destruct (startpos <? pos)%nat; [|reflexivity].
  destruct (heap !! ((pos - 1) / 2)%nat) as [parent|]; [|reflexivity].
  destruct (lt newitem parent); [|reflexivity].
  now rewrite IH, length_insert.
Qed.

Lemma siftdown_length (heap : list T) startpos pos :
  length (siftdown lt heap startpos pos) = length heap.
Proof.
  unfold siftdown. destruct (heap !! pos) as [newitem|]; [|reflexivity].
  pose proof (siftdown_loop_length pos heap newitem startpos pos) as H.
  destruct (siftdown_loop lt pos heap newitem startpos pos) as [heap' pos'].
  now rewrite length_insert.
Qed.

Lemma siftup_loop_length fuel (heap : list T) pos :
  length (siftup_loop lt fuel heap pos).1 = length heap.
Proof.
  revert heap pos. induction fuel as [|fuel IH]; intros heap pos; [reflexivity|].
  cbn [siftup_loop]. destruct (2 * pos + 1 <? length heap)%nat; [|reflexivity].
  destruct (heap !! (2 * pos + 1)%nat) as [child|]; [|reflexivity].
  match goal with |- context [heap !! ?cp] =>
    lazymatch cp with
    | (2 * pos + 1)%nat => fail
    | _ => destruct (heap !! cp) as [c|]; [|reflexivity]
    end end.
  now rewrite IH, length_insert.
Qed.

Lemma siftup_length (heap : list T) pos :
  length (siftup lt heap pos) = length heap.
Proof.
  unfold siftup. destruct (heap !! pos) as [newitem|]; [|reflexivity].
  pose proof (siftup_loop_length (length heap) heap pos) as H.
  destruct (siftup_loop lt (length heap) heap pos) as [heap' pos'].
  now rewrite siftdown_length, length_insert.
Qed.

Lemma heappush_length (heap : list T) item :
  length (heappush lt heap item) = S (length heap).
Proof.
  unfold heappush. rewrite siftdown_length, length_app. simpl. lia.
Qed.

Lemma heappop_length (heap : list T) x heap' :
  heappop lt heap = Some (x, heap') -> length heap = S (length heap').
Proof.
  unfold heappop. intros E. destruct (last heap) as [lastelt|] eqn:El; [|discriminate].
  apply last_Some in El as [l' ->]. rewrite removelast_last in E.
  rewrite length_app. simpl.
  destruct l' as [|returnitem rest]; injection E as <- <-; [reflexivity|].
  rewrite siftup_length. simpl. lia.
Qed.

Lemma heappop_None (heap : list T) : heappop lt heap = None <-> heap = [].
Proof.
  unfold heappop. split.
  - destruct (last heap) as [lastelt|] eqn:El.
    + destruct (removelast heap); discriminate.
    + intros _. now apply last_None.
  - now intros ->.
Qed.
End HeapqFacts.

(** ** The transmit path *)

Lemma dump_length s d : dump s = inr d -> length d = (16 + length (data s))%nat.
Proof.
  unfold dump, int_to_bytes.
  destruct ((0 <=? seq_number s) && (seq_number s <? 256 ^ Z.of_nat 8)); [ | discriminate].
  destruct ((0 <=? ack_number s) && (ack_number s <? 256 ^ Z.of_nat 8)); [ | discriminate].
  intros E. assert (d = be_digits 8 (seq_number s) ++ be_digits 8 (ack_number s) ++ data s) as -> by congruence.
  rewrite !length_app, !length_be_digits. lia.
Qed.

Lemma _send_segment_unfold w segment c :
  _send_segment w segment c =
  match dump segment with
  | inl e => Raise (PyExn e) c
  | inr d =>
      let sent_length :=
        Z.of_N (N.min (sendto_accepts w (length (tx_log c))) (N.of_nat (length d))) - 16 in
      let c1 := set_tx_log (tx_log c ++ [d]) c in
      if seq_number segment =? _sent_bytes_cnt c then
        keep_in_flight w segment sent_length
          (set_sent (_sent_bytes_cnt c + sent_length) c1)
      else if _sent_bytes_cnt c <? seq_number segment then Raise (PyExn ValueError) c1
      else keep_in_flight w segment sent_length c1
  end.
Proof.
  unfold _send_segment, keep_in_flight, bind, lift_exn.
  destruct (dump segment) as [e|d]; [reflexivity | ].
  cbn -[Z.of_N N.min N.of_nat Z.sub Z.add pq_put slice_to len].
  destruct (seq_number segment =? _sent_bytes_cnt c).
  - cbn -[Z.of_N N.min N.of_nat Z.sub Z.add pq_put slice_to len].
    destruct (len (data segment) =? 0); reflexivity.
  - destruct (_sent_bytes_cnt c <? seq_number segment); [reflexivity | ].
    cbn -[Z.of_N N.min N.of_nat Z.sub Z.add pq_put slice_to len].
    destruct (len (data segment) =? 0); reflexivity.
Qed.

(** ** Framing *)

Lemma pow_256_8 : 256 ^ Z.of_nat 8 = 2 ^ 64.
Proof. reflexivity. Qed.

Lemma load_dump w c s d :
  dump s = inr d ->
  load w d c =
  Ok (mkSegment (seq_number s) (ack_number s) (data s) false (clock w (clock_reads c)))
     (set_clock_reads (S (clock_reads c)) c).
Proof.
  unfold dump, int_to_bytes. rewrite pow_256_8.
  destruct ((0 <=? seq_number s) && (seq_number s <? 2 ^ 64)) eqn:Es; [ | discriminate].
  destruct ((0 <=? ack_number s) && (ack_number s <? 2 ^ 64)) eqn:Ea; [ | discriminate].
  intros E.
  assert (d = be_digits 8 (seq_number s) ++ be_digits 8 (ack_number s) ++ data s) as ->
    by congruence.
  rewrite load_fields.
  destruct (slices_of_frame (be_digits 8 (seq_number s)) (be_digits 8 (ack_number s)) (data s))
    as (-> & -> & ->); try apply length_be_digits.
  rewrite !int_from_be_digits, pow_256_8.
  apply andb_true_iff in Es as [Es1 Es2]. apply andb_true_iff in Ea as [Ea1 Ea2].
  rewrite !Z.mod_small by lia. reflexivity.
Qed.

(** C8. Encoding then decoding a segment whose sequence and acknowledgment
    numbers are below 2^64 and whose payload has at most 1024 bytes gives
    back the same sequence number, acknowledgment number and payload; the
    decoded segment is equal to the original one in the sense of
    [TCPSegment.__eq__]. *)
Theorem dump_load_roundtrip (w : World) (c : MyTCPProtocol) (s : TCPSegment) :
  u64 (seq_number s) -> u64 (ack_number s) -> len (data s) <= 1024 ->
  exists d s' c',
    dump s = inr d /\ load w d c = Ok s' c' /\
    seq_number s' = seq_number s /\ ack_number s' = ack_number s /\
    data s' = data s /\ segment_eq s' s = true.
Proof.
  intros Hs Ha _. pose proof (dump_ok s Hs Ha) as Hd.
  eexists _, _, _. split; [exact Hd | ]. split; [exact (load_dump w c s _ Hd) | ].
  cbn. repeat split. apply Z.eqb_refl.
Qed.

Lemma dump_load_roundtrip_witness :
  exists d s' c',
    dump (mkSegment 7 9 (ascii_bytes [104; 105]) false 0) = inr d /\
    load silent_world d init = Ok s' c' /\
    seq_number s' = 7 /\ ack_number s' = 9 /\
    data s' = ascii_bytes [104; 105] /\
    segment_eq s' (mkSegment 7 9 (ascii_bytes [104; 105]) false 0) = true.
Proof.
  apply (dump_load_roundtrip silent_world init
           (mkSegment 7 9 (ascii_bytes [104; 105]) false 0));
    unfold u64, len; simpl; lia.
Defined.

(** C2, as the code has it. [load] never fails: whatever the length of the
    input, it returns a segment whose sequence number is read from the first
    8 bytes that are there, whose acknowledgment number is read from the
    bytes at offsets 8 to 15 that are there, and whose payload is the input
    after offset 16, verbatim (empty when the input is shorter). *)
Theorem load_total (w : World) (d : bytes) (c : MyTCPProtocol) :
  exists s c',
    load w d c = Ok s c' /\
    seq_number s = int_from_bytes (take 8 d) /\
    ack_number s = int_from_bytes (drop 8 (take 16 d)) /\
    data s = drop 16 d.
Proof. eexists _, _. rewrite load_fields. repeat split. Qed.

(** C2 fails on the empty datagram: it is shorter than 16 bytes and [load]
    returns a segment with both numbers 0 and no payload. *)
Lemma load_short_input :
  (length ([] : bytes) < 16)%nat /\
  load silent_world [] init = Ok (mkSegment 0 0 [] false 0) (set_clock_reads 1 init).
Proof. split; [cbn; lia | reflexivity]. Qed.

(** ** The assertion of the transmit path *)

(** C9. A segment with numbers below 2^64 handed to [_send_segment]: when its
    sequence number is above the sent cursor the call raises [ValueError],
    and the cursors, both windows and the buffer are what they were (the
    datagram has gone out); when it is at or below the sent cursor the call
    returns. *)
Theorem send_segment_ahead_raises (w : World) (segment : TCPSegment) (c : MyTCPProtocol) :
  u64 (seq_number segment) -> u64 (ack_number segment) ->
  (_sent_bytes_cnt c < seq_number segment ->
   exists d, dump segment = inr d /\
     _send_segment w segment c = Raise (PyExn ValueError) (set_tx_log (tx_log c ++ [d]) c)) /\
  (seq_number segment <= _sent_bytes_cnt c ->
   exists n c', _send_segment w segment c = Ok n c').
Proof.
  intros Hs Ha. rewrite _send_segment_unfold, (dump_ok _ Hs Ha). cbv zeta. split; intros H.
  - eexists. split; [reflexivity | ].
    destruct (seq_number segment =? _sent_bytes_cnt c) eqn:E; [apply Z.eqb_eq in E; lia | ].
    apply Z.ltb_lt in H. now rewrite H.
  - unfold keep_in_flight.
    destruct (seq_number segment =? _sent_bytes_cnt c) eqn:E.
    + destruct (negb (len (data segment) =? 0)); eexists _, _; reflexivity.
    + apply Z.eqb_neq in E.
      destruct (_sent_bytes_cnt c <? seq_number segment) eqn:E'; [apply Z.ltb_lt in E'; lia | ].
      destruct (negb (len (data segment) =? 0)); eexists _, _; reflexivity.
Qed.

Lemma send_segment_ahead_raises_witness :
  (exists d, dump (mkSegment 5 0 [] false 0) = inr d /\
     _send_segment silent_world (mkSegment 5 0 [] false 0) init
     = Raise (PyExn ValueError) (set_tx_log (tx_log init ++ [d]) init)) /\
  (exists n c', _send_segment silent_world (mkSegment 0 0 [] false 0) init = Ok n c').
Proof.
  split.
  - apply (send_segment_ahead_raises silent_world (mkSegment 5 0 [] false 0) init);
      unfold u64; simpl; lia.
  - apply (send_segment_ahead_raises silent_world (mkSegment 0 0 [] false 0) init);
      unfold u64; simpl; lia.
Defined.

(** ** Sending nothing *)

(** C10. When nothing is in flight ([_delivered_bytes_cnt >= _sent_bytes_cnt]),
    [send(b"")] returns 0 and the whole state is what it was: the cursors,
    both windows, the buffer, and no datagram was sent or asked for. *)
Theorem send_empty_idle (w : World) (fuel : nat) (c : MyTCPProtocol) :
  _sent_bytes_cnt c <= _delivered_bytes_cnt c ->
  send w fuel [] c = Ok 0 c.
Proof.
  intros H. unfold send.
  assert (G : send_guard (mkLocals [] 0 0) c = false).
  { unfold send_guard. cbn. apply Z.ltb_ge. exact H. }
  destruct fuel; cbn [send_loop]; now rewrite G.
Qed.

Lemma send_empty_idle_witness : send silent_world 0 [] init = Ok 0 init.
Proof. apply (send_empty_idle silent_world 0 init). cbn. lia. Defined.

(** ** Reasoning about calls *)

Lemma wp_bind {A B} D (m : M A) (k : A -> M B) Q E c :
  wp D m (fun a c' => wp D (k a) Q E c') E c -> wp D (bind m k) Q E c.
Proof. unfold wp, bind. destruct (m c); auto. Qed.

Lemma wp_mono {A} D (m : M A) (Q Q' : A -> MyTCPProtocol -> Prop)
    (E E' : pyexn -> MyTCPProtocol -> Prop) c :
  (forall a c', Q a c' -> Q' a c') -> (forall e c', E e c' -> E' e c') ->
  wp D m Q E c -> wp D m Q' E' c.
Proof. unfold wp. intros HQ HE. destruct (m c); auto. Qed.

Lemma wp_and {A} D (m : M A) (Q1 Q2 : A -> MyTCPProtocol -> Prop)
    (E1 E2 : pyexn -> MyTCPProtocol -> Prop) c :
  wp D m Q1 E1 c -> wp D m Q2 E2 c ->
  wp D m (fun a c' => Q1 a c' /\ Q2 a c') (fun e c' => E1 e c' /\ E2 e c') c.
Proof. unfold wp. destruct (m c); auto. Qed.

Lemma wp_partial {A} (m : M A) Q E c : wp False m Q E c -> wp True m Q E c.
Proof. unfold wp. destruct (m c); auto. Qed.

Lemma ends_final {A} R (m : M A) c :
  ends R m c -> exists c', final_state (m c) = Some c' /\ R c c'.
Proof.
  unfold ends, wp. destruct (m c); intros H; [eauto | eauto | contradiction].
Qed.

Lemma ends_mono {A} (R R' : MyTCPProtocol -> MyTCPProtocol -> Prop) (m : M A) c :
  (forall c', R c c' -> R' c c') -> ends R m c -> ends R' m c.
Proof. intros H. apply wp_mono; intros; apply H; assumption. Qed.

Lemma ends_and {A} (R1 R2 : MyTCPProtocol -> MyTCPProtocol -> Prop) (m : M A) c :
  ends R1 m c -> ends R2 m c -> ends (fun c c' => R1 c c' /\ R2 c c') m c.
Proof. unfold ends, wp. destruct (m c); auto. Qed.

(** Composition along a transitive relation. *)
Lemma ends_bind {A B} (R : MyTCPProtocol -> MyTCPProtocol -> Prop)
    (m : M A) (k : A -> M B) c :
  (forall c1 c2 c3, R c1 c2 -> R c2 c3 -> R c1 c3) ->
  ends R m c ->
  (forall a c', R c c' -> ends R (k a) c') ->
  ends R (bind m k) c.
Proof.
  intros Ht Hm Hk. unfold ends, wp, bind in *. destruct (m c) as [a c'|e c'|]; auto.
  specialize (Hk a c' Hm). destruct (k a c'); eauto.
Qed.

Lemma contiguous_app k l1 k1 l2 k2 :
  contiguous k l1 k1 -> contiguous k1 l2 k2 -> contiguous k (l1 ++ l2) k2.
Proof.
  revert k. induction l1 as [|s l1 IH]; intros k; cbn.
  - now intros ->.
  - intros [-> H1] H2. split; [reflexivity | ]. now apply IH.
Qed.

Lemma delivers_refl c : delivers c c.
Proof. exists []. cbn. split; [reflexivity | ]. now rewrite app_nil_r. Qed.

Lemma delivers_trans c1 c2 c3 : delivers c1 c2 -> delivers c2 c3 -> delivers c1 c3.
Proof.
  intros (l1 & H1 & E1) (l2 & H2 & E2). exists (l1 ++ l2). split.
  - eapply contiguous_app; eassumption.
  - now rewrite E2, E1, map_app, concat_app, app_assoc.
Qed.

Lemma same_recv_side_delivers c c' : same_recv_side c c' -> delivers c c'.
Proof.
  intros (Hr & _ & Hb). exists []. cbn. now rewrite Hb, app_nil_r.
Qed.

(** ** Slices *)

Lemma len_nonneg {A} (l : list A) : 0 <= len l.
Proof. unfold len. lia. Qed.

Lemma len_slice_to {A} (l : list A) k : 0 <= k -> len (slice_to l k) = Z.min k (len l).
Proof.
  intros H. unfold slice_to, slice_index, len.
  destruct (k <? 0) eqn:E; [apply Z.ltb_lt in E; lia | ].
  rewrite length_take. lia.
Qed.

Lemma len_slice_from {A} (l : list A) k :
  0 <= k -> len (slice_from l k) = len l - Z.min k (len l).
Proof.
  intros H. unfold slice_from, slice_index, len.
  destruct (k <? 0) eqn:E; [apply Z.ltb_lt in E; lia | ].
  rewrite length_drop. lia.
Qed.

Lemma len_app {A} (l1 l2 : list A) : len (l1 ++ l2) = len l1 + len l2.
Proof. unfold len. rewrite length_app. lia. Qed.

Lemma len_zero {A} (l : list A) : len l = 0 <-> l = [].
Proof. unfold len. destruct l; cbn; split; intros; (reflexivity || discriminate || lia). Qed.

(** ** The transmit path, continued *)

Ltac fields :=
  cbn [_sent_bytes_cnt _delivered_bytes_cnt _received_bytes_cnt _send_window
       _recv_window _buffer rx_calls tx_log clock_reads
       set_sent set_delivered set_received set_send_window set_recv_window
       set_buffer set_rx_calls set_tx_log set_clock_reads
       seq_number ack_number data acknowledged _sending_time
       set_data set_acknowledged set_sending_time fst snd] in *.

(** The payload length that [_send_segment] computes lies between 0 and the
    payload length of the segment when the transport takes the header. *)
Lemma sent_length_bounds w s d i :
  header_accepted w -> dump s = inr d ->
  0 <= Z.of_N (N.min (sendto_accepts w i) (N.of_nat (length d))) - 16 <= len (data s).
Proof.
  intros HA Hd. specialize (HA i). apply dump_length in Hd. unfold len. lia.
Qed.

(** [_send_segment] leaves the receive side, the delivered cursor and the
    count of [recvfrom] calls alone. *)
Lemma _send_segment_recv_side w segment c :
  ends (fun c c' => same_recv_side c c' /\
                    _delivered_bytes_cnt c' = _delivered_bytes_cnt c /\
                    rx_calls c' = rx_calls c)
       (_send_segment w segment) c.
Proof.
  unfold ends, wp. rewrite _send_segment_unfold. unfold keep_in_flight, same_recv_side.
  destruct (dump segment) as [e|d]; [now repeat split | ]. cbv zeta.
  destruct (seq_number segment =? _sent_bytes_cnt c).
  - destruct (negb (len (data segment) =? 0)); now repeat split.
  - destruct (_sent_bytes_cnt c <? seq_number segment); [now repeat split | ].
    destruct (negb (len (data segment) =? 0)); now repeat split.
Qed.

Lemma entry_sent_mono sent sent' e : sent <= sent' -> entry_sent sent e -> entry_sent sent' e.
Proof. unfold entry_sent. lia. Qed.

(** The sent cursor and the send window after [_send_segment], for a
    segment that starts at the sent cursor or lies below it. *)
Lemma _send_segment_sent w segment c :
  header_accepted w -> send_window_ok c ->
  seq_number segment = _sent_bytes_cnt c
  \/ seq_number segment + len (data segment) <= _sent_bytes_cnt c ->
  wp False (_send_segment w segment)
    (fun n c' =>
       0 <= n <= len (data segment) /\ send_window_ok c' /\
       _sent_bytes_cnt c' =
         (if seq_number segment =? _sent_bytes_cnt c then _sent_bytes_cnt c + n
          else _sent_bytes_cnt c))
    (fun _ c' => send_window_ok c' /\ _sent_bytes_cnt c' = _sent_bytes_cnt c) c.
Proof.
  intros HA Hok Hseg. unfold wp. rewrite _send_segment_unfold.
  destruct (dump segment) as [e|d] eqn:Hd; [now split | ]. cbv zeta.
  pose proof (sent_length_bounds w segment d (length (tx_log c)) HA Hd) as Hn.
  set (n := Z.of_N _ - 16) in *. unfold keep_in_flight, send_window_ok in *.
  pose proof (len_nonneg (data segment)) as Hl.
  destruct (seq_number segment =? _sent_bytes_cnt c) eqn:E.
  - apply Z.eqb_eq in E.
    assert (Hmono : Forall (entry_sent (_sent_bytes_cnt c + n)) (_send_window c)).
    { eapply Forall_impl; [exact Hok | ]. intros e. apply entry_sent_mono. lia. }
    destruct (negb (len (data segment) =? 0)); fields; (split; [exact Hn | ]);
      (split; [ | reflexivity]); [ | exact Hmono].
    apply heappush_Forall; [exact Hmono | ].
    unfold entry_sent. fields. rewrite len_slice_to by lia. lia.
  - apply Z.eqb_neq in E.
    destruct (_sent_bytes_cnt c <? seq_number segment) eqn:E'; [apply Z.ltb_lt in E'; lia | ].
    destruct (negb (len (data segment) =? 0)); fields; (split; [exact Hn | ]);
      (split; [ | reflexivity]); [ | exact Hok].
    apply heappush_Forall; [exact Hok | ].
    unfold entry_sent. fields. rewrite len_slice_to by lia. lia.
Qed.

(** A segment that lies below the sent cursor, or is empty and starts at
    it, is transmitted without moving the cursors. *)
Lemma _send_segment_calm w segment c :
  header_accepted w -> send_window_ok c ->
  seq_number segment + len (data segment) <= _sent_bytes_cnt c ->
  ends (fun c c' => calm c c' /\ _delivered_bytes_cnt c' = _delivered_bytes_cnt c)
       (_send_segment w segment) c.
Proof.
  intros HA Hok Hseg.
  pose proof (_send_segment_sent w segment c HA Hok (or_intror Hseg)) as H1.
  pose proof (_send_segment_recv_side w segment c) as H2.
  unfold ends, wp, calm in *. pose proof (len_nonneg (data segment)) as Hl.
  destruct (_send_segment w segment c) as [n c'|e c'|]; [ | | contradiction].
  - destruct H1 as (Hn & Hok' & Hs), H2 as (_ & Hd & _).
    destruct (seq_number segment =? _sent_bytes_cnt c) eqn:E.
    + apply Z.eqb_eq in E. repeat split; (assumption || lia).
    + repeat split; (assumption || lia).
  - destruct H1 as (Hok' & Hs), H2 as (_ & Hd & _). repeat split; (assumption || lia).
Qed.

(** ** The two windows *)

Lemma ends_ret {A} (R : MyTCPProtocol -> MyTCPProtocol -> Prop) (a : A) c :
  R c c -> ends R (ret a) c.
Proof. intros H. exact H. Qed.

Lemma ends_modify (R : MyTCPProtocol -> MyTCPProtocol -> Prop) f c :
  R c (f c) -> ends R (modify f) c.
Proof. intros H. exact H. Qed.

Lemma pq_get_length q e q' : pq_get q = Some (e, q') -> length q = S (length q').
Proof. apply heappop_length. Qed.

Lemma pq_get_all P q e q' :
  pq_get q = Some (e, q') -> window_all P q -> P e.2 /\ window_all P q'.
Proof. intros E H. exact (heappop_Forall entry_lt (fun e => P e.2) q e q' E H). Qed.

Lemma pq_put_all P q k s : window_all P q -> P s -> window_all P (pq_put q (k, s)).
Proof. intros H Hs. apply heappush_Forall; assumption. Qed.

Lemma send_window_ok_all c :
  send_window_ok c <->
  window_all (fun s => seq_number s + len (data s) <= _sent_bytes_cnt c) (_send_window c).
Proof. reflexivity. Qed.

(** The loop of [_shift_send_window] ends within [length q] turns, drops
    entries of the send window and touches nothing else. *)
Lemma shift_send_loop_ends fuel c :
  (length (_send_window c) <= fuel)%nat ->
  ends (fun c c' =>
          same_recv_side c c' /\ no_rx c c' /\
          _sent_bytes_cnt c' = _sent_bytes_cnt c /\
          _delivered_bytes_cnt c' = _delivered_bytes_cnt c /\
          forall P, window_all P (_send_window c) -> window_all P (_send_window c'))
       (shift_send_loop fuel) c.
Proof.
  revert c. induction fuel as [|fuel IH]; intros c Hf; unfold ends, wp;
    cbn [shift_send_loop];
    destruct (pq_get (_send_window c)) as [[[k first] rest]|] eqn:E;
    try (now repeat split).
  - apply pq_get_length in E. lia.
  - destruct (_delivered_bytes_cnt c <=? seq_number first).
    + fields. repeat split. intros P HP.
      destruct (pq_get_all P _ _ _ E HP) as [H1 H2]. now apply pq_put_all.
    + assert (Hf' : (length (_send_window (set_send_window rest c)) <= fuel)%nat).
      { fields. apply pq_get_length in E. lia. }
      specialize (IH _ Hf'). unfold ends, wp in IH.
      destruct (shift_send_loop fuel (set_send_window rest c)) as [[] c'|e c'|];
        [ | | contradiction]; fields.
      * unfold same_recv_side, no_rx in *. fields.
        destruct IH as (Hr & Hx & Hs & Hd & HP). repeat split; try tauto.
        intros P HP0. apply HP. exact (proj2 (pq_get_all P _ _ _ E HP0)).
      * unfold same_recv_side, no_rx in *. fields.
        destruct IH as (Hr & Hx & Hs & Hd & HP). repeat split; try tauto.
        intros P HP0. apply HP. exact (proj2 (pq_get_all P _ _ _ E HP0)).
Qed.

(** The loop of [_shift_recv_window] ends within [length q] turns; it
    appends to the buffer the payloads of segments that follow one another
    from the received cursor, and touches nothing of the send side. *)
Lemma shift_recv_loop_ends fuel first_segment c :
  (length (_recv_window c) <= fuel)%nat ->
  ends (fun c c' => delivers c c' /\ same_send_side c c' /\ no_rx c c')
       (shift_recv_loop fuel first_segment) c.
Proof.
  revert first_segment c.
  induction fuel as [|fuel IH]; intros first_segment c Hf; unfold ends, wp;
    cbn [shift_recv_loop];
    destruct (pq_get (_recv_window c)) as [[[k first] rest]|] eqn:E;
    try (split; [apply delivers_refl | now repeat split]).
  - apply pq_get_length in E. lia.
  - apply pq_get_length in E. fields.
    destruct (seq_number first <? _received_bytes_cnt c).
    + specialize (IH (Some (set_acknowledged true first)) (set_recv_window rest c)).
      unfold ends, wp in IH.
      destruct (shift_recv_loop fuel _ (set_recv_window rest c)) as [a c'|e c'|];
        fields; apply IH; lia.
    + destruct (seq_number first =? _received_bytes_cnt c) eqn:Eq.
      * apply Z.eqb_eq in Eq.
        match goal with |- context [shift_recv_loop fuel ?fs ?c1] =>
          specialize (IH fs c1); set (c1' := c1) in * end.
        unfold ends, wp in IH.
        assert (Hstep : forall c', delivers c1' c' -> delivers c c').
        { intros c' (segs & Hc & Hb). exists (first :: segs). subst c1'. fields.
          split; [split; [exact Eq | exact Hc] | ].
          rewrite Hb. cbn [map concat]. now rewrite app_assoc. }
        destruct (shift_recv_loop fuel _ c1') as [a c'|e c'|]; subst c1'; fields.
        -- destruct IH as (H1 & H2 & H3); [lia | ]. split; [now apply Hstep | now split].
        -- destruct IH as (H1 & H2 & H3); [lia | ]. split; [now apply Hstep | now split].
        -- apply IH. lia.
      * fields. split; [ | now repeat split].
        exists []. cbn. fields. now rewrite app_nil_r.
Qed.

(** ** Receiving *)

Ltac relations :=
  unfold same_recv_side, same_send_side, no_rx, calm, acked_to in *; fields.

Ltac wp_prim :=
  apply wp_bind; unfold wp at 1;
  cbn [gets modify ret raise bind time_time TCPSegment_init update_sending_time].

(** An empty segment that starts at the sent cursor, the acknowledgment
    that [_shift_recv_window] emits, leaves the send side alone. *)
Lemma _send_segment_ack w segment c :
  header_accepted w -> data segment = [] -> seq_number segment = _sent_bytes_cnt c ->
  ends same_send_side (_send_segment w segment) c.
Proof.
  intros HA Hd Hs. unfold ends, wp. rewrite _send_segment_unfold.
  destruct (dump segment) as [e|d] eqn:E; [now repeat split | ]. cbv zeta.
  pose proof (sent_length_bounds w segment d (length (tx_log c)) HA E) as Hn.
  rewrite Hd in *. change (len (@nil byte)) with 0 in Hn.
  rewrite Hs, Z.eqb_refl. unfold keep_in_flight. rewrite Hd.
  change (negb (len (@nil byte) =? 0)) with false. cbv iota.
  relations. repeat split. lia.
Qed.

Lemma _shift_recv_window_ends w c :
  ends (fun c c' =>
          delivers c c' /\ no_rx c c' /\
          _delivered_bytes_cnt c' = _delivered_bytes_cnt c /\
          (header_accepted w -> same_send_side c c'))
       (_shift_recv_window w) c.
Proof.
  unfold ends, _shift_recv_window. wp_prim. apply wp_bind.
  eapply wp_mono; [ | | apply (shift_recv_loop_ends (length (_recv_window c)) None c); lia].
  - intros fs c1 (Hd & Hs & Hx). destruct fs as [first|].
    + do 2 wp_prim. wp_prim. apply wp_bind.
      match goal with |- wp _ (_send_segment w ?s) _ _ ?c2 =>
        pose proof (_send_segment_recv_side w s c2) as H1;
        pose proof (fun HA => _send_segment_ack w s c2 HA eq_refl eq_refl) as H2 end.
      unfold ends, wp in *.
      destruct (_send_segment w _ _) as [n c3|e c3|]; [ | | contradiction];
        relations; cbn [ret];
        (split; [eapply delivers_trans; [exact Hd | ];
                 apply same_recv_side_delivers; relations; tauto | ]);
        (split; [destruct H1 as (_ & _ & ->); lia | ]);
        (split; [destruct H1 as (_ & -> & _); tauto | ]);
        intros HA; specialize (H2 HA); intuition congruence.
    + cbn [wp ret]. relations. intuition congruence.
  - intros e c1 (Hd & Hs & Hx). relations. intuition congruence.
Qed.

Lemma _shift_send_window_ends c :
  ends (fun c c' =>
          same_recv_side c c' /\ no_rx c c' /\
          _sent_bytes_cnt c' = _sent_bytes_cnt c /\
          _delivered_bytes_cnt c' = _delivered_bytes_cnt c /\
          forall P, window_all P (_send_window c) -> window_all P (_send_window c'))
       _shift_send_window c.
Proof.
  unfold _shift_send_window, ends. wp_prim.
  apply (shift_send_loop_ends (length (_send_window c)) c). lia.
Qed.

Lemma acked_to_refl a c : acked_to a c c.
Proof. relations. auto. Qed.

Lemma process_segment_ends w segment c :
  ends (fun c c' =>
          delivers c c' /\ no_rx c c' /\
          (header_accepted w -> acked_to (ack_number segment) c c'))
       (process_segment w segment) c.
Proof.
  set (R := fun c c' : MyTCPProtocol =>
              delivers c c' /\ no_rx c c' /\
              _delivered_bytes_cnt c' = _delivered_bytes_cnt c /\
              (header_accepted w -> same_send_side c c')).
  set (Q := fun c' : MyTCPProtocol =>
              delivers c c' /\ no_rx c c' /\
              (header_accepted w -> acked_to (ack_number segment) c c')).
  assert (HRQ : forall c1, R c c1 -> Q c1).
  { intros c1 (H1 & H2 & H3 & H4). split; [exact H1 | ]. split; [exact H2 | ].
    intros HA. destruct (H4 HA) as (T1 & T2 & T3). relations.
    split; [lia | ]. split; [left; lia | ]. intros P. now rewrite T3. }
  assert (Hrest : forall c1, R c c1 ->
            wp False
              (delivered <- gets _delivered_bytes_cnt ;;
               (if delivered <? ack_number segment then
                  modify (set_delivered (ack_number segment)) ;;; _shift_send_window
                else ret tt) ;;; ret true)
              (fun _ => Q) (fun _ => Q) c1).
  { intros c1 HR. pose proof HR as (H1 & H2 & H3 & H4). wp_prim. apply wp_bind.
    destruct (_delivered_bytes_cnt c1 <? ack_number segment) eqn:E.
    - apply Z.ltb_lt in E. wp_prim.
      eapply wp_mono; [ | | apply _shift_send_window_ends ]; cbv beta;
        [intros _ c2 (S1 & S2 & S3 & S4 & S5); cbn [wp ret] | intros _ c2 (S1 & S2 & S3 & S4 & S5)];
        subst Q; relations;
        (split; [eapply delivers_trans; [exact H1 | ];
                 apply same_recv_side_delivers; relations; tauto | ]);
        (split; [lia | ]);
        intros HA; destruct (H4 HA) as (T1 & T2 & T3);
        (split; [lia | ]); (split; [right; lia | ]);
        intros P HP; apply S5; rewrite T3; exact HP.
    - cbn [wp ret]. now apply HRQ. }
  unfold ends, process_segment. apply wp_bind.
  destruct (negb (len (data segment) =? 0)).
  - wp_prim.
    match goal with |- wp _ _ _ _ ?c1 =>
      eapply wp_mono; [ | | apply (_shift_recv_window_ends w c1)]; cbv beta end.
    + intros _ c2 (S1 & S2 & S3 & S4). apply Hrest. subst R. relations.
      split; [ | repeat split; (lia || apply S4; assumption)].
      destruct S1 as (segs & Hc & Hb). exists segs. fields. now split.
    + intros _ c2 (S1 & S2 & S3 & S4). apply HRQ. subst R. relations.
      split; [ | repeat split; (lia || apply S4; assumption)].
      destruct S1 as (segs & Hc & Hb). exists segs. fields. now split.
  - cbn [wp ret]. apply Hrest. subst R. relations.
    split; [apply delivers_refl | tauto].
Qed.

Lemma _receive_segment_unfold w timeout c :
  _receive_segment w timeout c =
  match recvfrom_result w (rx_calls c) with
  | None => Ok false (set_rx_calls (S (rx_calls c)) c)
  | Some d =>
      let d' := take (Z.to_nat (max_data_sz + 16)) d in
      process_segment w
        (mkSegment (int_from_bytes (slice_to d' 8)) (int_from_bytes (slice_between d' 8 16))
           (slice_from d' 16) false (clock w (clock_reads c)))
        (set_clock_reads (S (clock_reads c)) (set_rx_calls (S (rx_calls c)) c))
  end.
Proof.
  unfold _receive_segment, bind, except_socket_error, recvfrom.
  destruct (recvfrom_result w (rx_calls c)); reflexivity.
Qed.

(** What one call of [_receive_segment] does: the buffer grows in stream
    order, one [recvfrom] is made, and when the transport takes the header
    the sent cursor stays, the delivered cursor does not go back and the
    send window keeps only segments it had. *)
Lemma _receive_segment_ends w timeout c :
  ends (fun c c' =>
          delivers c c' /\ rx_calls c' = S (rx_calls c) /\
          (header_accepted w ->
           _sent_bytes_cnt c' = _sent_bytes_cnt c /\
           _delivered_bytes_cnt c <= _delivered_bytes_cnt c' /\
           forall P, window_all P (_send_window c) -> window_all P (_send_window c')))
       (_receive_segment w timeout) c.
Proof.
  unfold ends, wp. rewrite _receive_segment_unfold.
  destruct (recvfrom_result w (rx_calls c)) as [d|].
  - cbv zeta.
    match goal with |- context [process_segment w ?s ?c1] =>
      pose proof (process_segment_ends w s c1) as H; unfold ends, wp in H;
      destruct (process_segment w s c1) as [b c2|e c2|]; [ | | contradiction] end;
      destruct H as ((segs & Hc & Hb) & Hx & HA); relations;
      (split; [exists segs; now split | ]); (split; [exact Hx | ]);
      intros Hw; destruct (HA Hw) as (T1 & T2 & T3); repeat split; (lia || assumption).
  - fields. split; [apply same_recv_side_delivers; relations; tauto | ].
    split; [reflexivity | ].
    intros _. repeat split; (lia || auto).
Qed.

(** ** Retransmission *)

Lemma _resend_first_segment_ends w c :
  header_accepted w -> send_window_ok c ->
  ends (fun c c' =>
          calm c c' /\ _delivered_bytes_cnt c' = _delivered_bytes_cnt c /\
          same_recv_side c c' /\ no_rx c c')
       (_resend_first_segment w) c.
Proof.
  intros HA Hok. unfold ends, _resend_first_segment. wp_prim.
  destruct (pq_get (_send_window c)) as [[[k first] rest]|] eqn:E.
  - destruct (pq_get_all _ _ _ _ E (proj1 (send_window_ok_all c) Hok)) as [Hf Hrest].
    cbn [snd] in Hf. wp_prim. apply wp_bind. unfold expired.
    assert (Hput : forall c1, _send_window c1 = rest ->
              _sent_bytes_cnt c1 = _sent_bytes_cnt c ->
              send_window_ok (set_send_window
                                (pq_put (_send_window c1) (seq_number first, first)) c1)).
    { intros c1 H1 H2. apply send_window_ok_all. fields. rewrite H1, H2.
      now apply pq_put_all. }
    assert (Hsend : forall c1, _send_window c1 = rest ->
              _sent_bytes_cnt c1 = _sent_bytes_cnt c ->
              _delivered_bytes_cnt c1 = _delivered_bytes_cnt c ->
              same_recv_side c c1 -> no_rx c c1 ->
              wp False (_send_segment w first ;;; ret tt)
                (fun _ c' => calm c c' /\ _delivered_bytes_cnt c' = _delivered_bytes_cnt c /\
                             same_recv_side c c' /\ no_rx c c')
                (fun _ c' => calm c c' /\ _delivered_bytes_cnt c' = _delivered_bytes_cnt c /\
                             same_recv_side c c' /\ no_rx c c') c1).
    { intros c1 H1 H2 H3 H4 H5. apply wp_bind.
      assert (Hok1 : send_window_ok c1).
      { apply send_window_ok_all. now rewrite H1, H2. }
      assert (Hb : seq_number first + len (data first) <= _sent_bytes_cnt c1) by lia.
      pose proof (_send_segment_calm w first c1 HA Hok1 Hb) as G1.
      pose proof (_send_segment_recv_side w first c1) as G2.
      unfold ends, wp in *.
      destruct (_send_segment w first c1) as [n c2|e c2|]; [ | | contradiction];
        cbn [ret]; relations; intuition (try lia; try congruence). }
    destruct (negb (acknowledged first)).
    + wp_prim. unfold wp at 1. cbn [ret].
      destruct (ACK_TIMEOUT <? _).
      * apply Hsend; relations; auto.
      * cbn [wp modify]. relations. repeat split; try lia.
        apply (Hput (set_clock_reads (S (clock_reads c)) (set_send_window rest c)));
          reflexivity.
    + unfold wp at 1. cbn [ret wp modify]. relations. repeat split; try lia.
      apply (Hput (set_send_window rest c)); reflexivity.
  - cbn [wp ret]. relations. repeat split; (lia || assumption).
Qed.

(** ** The delivered cursor *)

Lemma wire_ack_take d n : (16 <= n)%nat -> wire_ack (take n d) = wire_ack d.
Proof.
  intros H. unfold wire_ack, slice_between, slice_to, slice_from, slice_index. simpl.
  change (Z.to_nat 16) with 16%nat. rewrite take_take. now replace (16 `min` n)%nat with 16%nat by lia.
Qed.

Lemma _send_segment_sent_mono w segment c :
  header_accepted w ->
  ends (fun c c' => _sent_bytes_cnt c <= _sent_bytes_cnt c' /\
                    _delivered_bytes_cnt c' = _delivered_bytes_cnt c)
       (_send_segment w segment) c.
Proof.
  intros HA. unfold ends, wp. rewrite _send_segment_unfold.
  destruct (dump segment) as [e|d] eqn:Hd; [split; [lia | reflexivity] | ]. cbv zeta.
  pose proof (sent_length_bounds w segment d (length (tx_log c)) HA Hd) as Hn.
  unfold keep_in_flight.
  destruct (seq_number segment =? _sent_bytes_cnt c).
  - destruct (negb (len (data segment) =? 0)); fields; split; (lia || reflexivity).
  - destruct (_sent_bytes_cnt c <? seq_number segment); [fields; split; (lia || reflexivity) | ].
    destruct (negb (len (data segment) =? 0)); fields; split; (lia || reflexivity).
Qed.

(** C3, as the code has it. With a transport that takes the header of every
    datagram, [_delivered_bytes_cnt <= _sent_bytes_cnt] is kept by
    transmitting any segment, and by handling an incoming datagram whose
    acknowledgment number is at most the sent cursor. *)
Theorem delivered_le_sent_kept (w : World) (c : MyTCPProtocol) :
  header_accepted w ->
  _delivered_bytes_cnt c <= _sent_bytes_cnt c ->
  (forall segment, exists c',
      final_state (_send_segment w segment c) = Some c' /\
      _delivered_bytes_cnt c' <= _sent_bytes_cnt c') /\
  (forall timeout,
      (forall d, recvfrom_result w (rx_calls c) = Some d -> wire_ack d <= _sent_bytes_cnt c) ->
      exists c',
        final_state (_receive_segment w timeout c) = Some c' /\
        _delivered_bytes_cnt c' <= _sent_bytes_cnt c').
Proof.
  intros HA Hinv. split.
  - intros segment.
    destruct (ends_final _ _ _ (_send_segment_sent_mono w segment c HA)) as (c' & Hf & H1 & H2).
    exists c'. split; [exact Hf | lia].
  - intros timeout Hack. rewrite _receive_segment_unfold.
    destruct (recvfrom_result w (rx_calls c)) as [d|] eqn:E.
    + cbv zeta. specialize (Hack d eq_refl).
      rewrite <- (wire_ack_take d (Z.to_nat (max_data_sz + 16))) in Hack
        by (change (Z.to_nat (max_data_sz + 16)) with 1040%nat; lia).
      match goal with |- context [process_segment w ?s ?c1] =>
        destruct (ends_final _ _ _ (process_segment_ends w s c1)) as (c' & Hf & _ & _ & H) end.
      exists c'. split; [exact Hf | ]. destruct (H HA) as (H1 & H2 & _). fields.
      unfold wire_ack in Hack. lia.
    + eexists. split; [reflexivity | ]. fields. exact Hinv.
Qed.

Lemma delivered_le_sent_kept_witness :
  let w := arrivals [frame 0 0 (ascii_bytes [104; 105])] in
  (exists c',
      final_state (_send_segment w (mkSegment 0 0 (ascii_bytes [104; 105]) false 0) init)
      = Some c' /\
      _delivered_bytes_cnt c' <= _sent_bytes_cnt c') /\
  (exists c',
      final_state (_receive_segment w None init) = Some c' /\
      _delivered_bytes_cnt c' <= _sent_bytes_cnt c').
Proof.
  cbv zeta.
  assert (HA : header_accepted (arrivals [frame 0 0 (ascii_bytes [104; 105])])).
  { intros i. unfold arrivals, whole_datagrams. simpl. lia. }
  assert (Hinv : _delivered_bytes_cnt init <= _sent_bytes_cnt init) by (simpl; lia).
  destruct (delivered_le_sent_kept _ init HA Hinv) as [H1 H2]. split.
  - apply H1.
  - apply H2. intros d E. injection E as <-. vm_compute. discriminate.
Defined.

(** C3 fails on a fresh connection that receives an empty segment whose
    acknowledgment number is 1000: the delivered cursor becomes 1000 while
    the sent cursor is 0. *)
Lemma ack_beyond_sent :
  exists c',
    _receive_segment (arrivals [frame 0 1000 []]) None init = Ok true c' /\
    _sent_bytes_cnt c' = 0 /\ _delivered_bytes_cnt c' = 1000.
Proof. eexists. split; [vm_compute; reflexivity | ]. split; reflexivity. Qed.

(** ** [recv] *)

(** C1 fails: on a fresh connection that receives the segments ["abc"] at
    offset 0 and ["defg"] at offset 3, [recv(5)] returns the seven bytes
    ["abcdefg"]. *)
Lemma recv_returns_more_than_asked :
  exists c',
    recv (arrivals [frame 0 0 (ascii_bytes [97; 98; 99]);
                    frame 3 0 (ascii_bytes [100; 101; 102; 103])]) 3 5 init
    = Ok (ascii_bytes [97; 98; 99; 100; 101; 102; 103]) c' /\
    _buffer c' = [].
Proof. eexists. split; vm_compute; reflexivity. Qed.

(** When [recv] returns, it returns at least the bytes asked for. *)
Lemma recv_loop_at_least w fuel data_sz d c r c' :
  recv_loop w fuel data_sz d c = Ok r c' -> data_sz <= len r.
Proof.
  revert d c. induction fuel as [|fuel IH]; intros d c; cbn [recv_loop];
    destruct (len d <? data_sz) eqn:E; try discriminate;
    try (intros [= <- <-]; apply Z.ltb_ge in E; exact E).
  destruct (len (d ++ _) <? data_sz).
  - unfold bind. destruct (_receive_segment w None _); try discriminate. apply IH.
  - apply IH.
Qed.

(** ** The loop of [send] *)

Lemma process_segment_true w segment c b c' :
  process_segment w segment c = Ok b c' -> b = true.
Proof.
  unfold process_segment, bind, gets, ret. intros H.
  repeat match type of H with
         | context [match ?x with _ => _ end] => destruct x; try discriminate
         end.
  all: now injection H as <- _.
Qed.

(** [_receive_segment] returns [False] only when nothing arrived, and then
    the state is what it was, one [recvfrom] later. *)
Lemma _receive_segment_false w timeout c c' :
  _receive_segment w timeout c = Ok false c' ->
  recvfrom_result w (rx_calls c) = None /\ c' = set_rx_calls (S (rx_calls c)) c.
Proof.
  rewrite _receive_segment_unfold. destruct (recvfrom_result w (rx_calls c)) as [d|].
  - cbv zeta. intros H. apply process_segment_true in H. discriminate.
  - intros [= <-]. now split.
Qed.

Lemma carves_test l c :
  (_sent_bytes_cnt c - _delivered_bytes_cnt c <=? window_sz) && negb (len (l_data l) =? 0)
  = true <-> carves l c.
Proof.
  unfold carves. rewrite andb_true_iff, negb_true_iff, Z.leb_le, Z.eqb_neq, len_zero.
  reflexivity.
Qed.

(** One turn of the loop of [send], with a transport that takes the header
    and a send window below the sent cursor: either a new segment went out,
    the sent cursor advanced by at most [max_data_sz] and [lag] is what it
    was; or [_receive_segment] was called, the sent cursor stayed, and [lag]
    is 0 or is one more with the delivered cursor where it was. *)
Lemma send_body_turn w l c :
  header_accepted w -> send_window_ok c ->
  wp False (send_body w l)
    (fun l' c' =>
       send_window_ok c' /\ _delivered_bytes_cnt c <= _delivered_bytes_cnt c' /\
       ((carves l c /\
         _sent_bytes_cnt c <= _sent_bytes_cnt c' <= _sent_bytes_cnt c + max_data_sz /\
         _delivered_bytes_cnt c' = _delivered_bytes_cnt c /\ l_lag l' = l_lag l)
        \/ (~ carves l c /\ _sent_bytes_cnt c' = _sent_bytes_cnt c /\
            l_data l' = l_data l /\
            (l_lag l' = 0
             \/ (l_lag l' = l_lag l + 1 /\
                 _delivered_bytes_cnt c' = _delivered_bytes_cnt c)))))
    (fun _ _ => True) c.
Proof.
  intros HA Hok. unfold send_body. do 2 wp_prim. apply wp_bind.
  destruct ((_ <=? _) && _) eqn:Ec.
  - apply carves_test in Ec. do 2 wp_prim. apply wp_bind.
    match goal with |- wp _ (_send_segment w ?s) _ _ ?c1 =>
      assert (Hok1 : send_window_ok c1) by exact Hok;
      pose proof (_send_segment_sent w s c1 HA Hok1 (or_introl eq_refl)) as H1;
      pose proof (_send_segment_recv_side w s c1) as H2;
      unfold ends, wp in *;
      destruct (_send_segment w s c1) as [n c2|e c2|]; [ | exact I | contradiction] end.
    fields. rewrite Z.eqb_refl in H1. destruct H1 as (Hn & Hok2 & Hs), H2 as (_ & Hd & _).
    rewrite len_slice_to in Hn by (pose proof (len_nonneg (l_data l)); unfold max_data_sz; lia).
    cbn [ret]. apply wp_bind.
    pose proof (_resend_first_segment_ends w c2 HA Hok2) as H3. unfold ends, wp in *.
    destruct (_resend_first_segment w c2) as [[] c3|e c3|]; [ | exact I | contradiction].
    cbn [ret]. relations. destruct H3 as ((T1 & T2 & T3) & T4 & _).
    split; [exact T3 | ]. split; [lia | ]. left. split; [exact Ec | ].
    unfold max_data_sz in *. repeat split; lia.
  - assert (Hn : ~ carves l c).
    { intros H. apply carves_test in H. congruence. }
    apply wp_bind.
    pose proof (_receive_segment_ends w (Some ACK_TIMEOUT) c) as H1.
    pose proof (_receive_segment_false w (Some ACK_TIMEOUT) c) as H2.
    unfold ends, wp in *.
    destruct (_receive_segment w (Some ACK_TIMEOUT) c) as [arrived c1|e c1|];
      [ | exact I | contradiction].
    destruct H1 as (_ & _ & H1). destruct (H1 HA) as (S1 & S2 & S3).
    assert (Hok1 : send_window_ok c1).
    { apply send_window_ok_all. rewrite S1. apply S3, Hok. }
    cbn [ret]. apply wp_bind.
    pose proof (_resend_first_segment_ends w c1 HA Hok1) as H3. unfold ends, wp in *.
    destruct (_resend_first_segment w c1) as [[] c2|e c2|]; [ | exact I | contradiction].
    cbn [ret]. relations. destruct H3 as ((T1 & T2 & T3) & T4 & _).
    split; [exact T3 | ]. split; [lia | ]. right. split; [exact Hn | ].
    split; [lia | ]. split; [reflexivity | ].
    destruct arrived; [left; reflexivity | right].
    destruct (H2 c1 eq_refl) as [_ ->]. fields. split; [reflexivity | lia].
Qed.

Lemma send_loop_turn w fuel l c l' c' :
  send_guard l c = true -> send_body w l c = Ok l' c' ->
  send_loop w (S fuel) l c = send_loop w fuel l' c'.
Proof. intros G B. cbn [send_loop]. unfold bind. now rewrite G, B. Qed.

Lemma send_loop_keeps_bound w fuel l c n c' :
  header_accepted w -> send_window_ok c -> window_bound c ->
  send_loop w fuel l c = Ok n c' ->
  send_window_ok c' /\ window_bound c'.
Proof.
  intros HA. revert l c. induction fuel as [|fuel IH]; intros l c Hok Hb;
    cbn [send_loop]; destruct (send_guard l c); try discriminate;
    try (intros [= _ <-]; now split).
  unfold bind. pose proof (send_body_turn w l c HA Hok) as H. unfold wp in H.
  destruct (send_body w l c) as [l1 c1|e c1|]; try discriminate.
  destruct H as (Hok1 & Hd & H). apply IH; [exact Hok1 | ].
  unfold window_bound, carves, window_sz, max_data_sz in *.
  destruct H as [((Hc & _) & Hs & Hd' & _) | (_ & Hs & _)]; lia.
Qed.

(** C6. With a transport that takes the header of every datagram, from a
    state in which the window invariant holds (the bytes in flight are within
    [window_sz + max_data_sz] and the segments of the send window lie below
    the sent cursor), whatever arrives during the call: when [send] returns,
    [_sent_bytes_cnt - _delivered_bytes_cnt <= window_sz + max_data_sz]. *)
Theorem send_window_bound (w : World) (fuel : nat) (d : bytes) (c : MyTCPProtocol)
    (n : Z) (c' : MyTCPProtocol) :
  header_accepted w ->
  send_window_ok c ->
  _sent_bytes_cnt c - _delivered_bytes_cnt c <= window_sz + max_data_sz ->
  send w fuel d c = Ok n c' ->
  _sent_bytes_cnt c' - _delivered_bytes_cnt c' <= window_sz + max_data_sz.
Proof.
  intros HA Hok Hb H.
  exact (proj2 (send_loop_keeps_bound w fuel _ c n c' HA Hok Hb H)).
Qed.

Lemma send_window_bound_witness :
  exists n c',
    send (arrivals [frame 0 5 []]) 10 hello init = Ok n c' /\
    _sent_bytes_cnt c' - _delivered_bytes_cnt c' <= window_sz + max_data_sz.
Proof.
  assert (E : exists n c', send (arrivals [frame 0 5 []]) 10 hello init = Ok n c')
    by (vm_compute; eexists _, _; reflexivity).
  destruct E as (n & c' & E). exists n, c'. split; [exact E | ].
  apply (send_window_bound (arrivals [frame 0 5 []]) 10 hello init n c').
  - intros i. unfold arrivals, whole_datagrams. simpl. lia.
  - constructor.
  - unfold window_sz, max_data_sz. simpl. lia.
  - exact E.
Defined.

(** ** An unresponsive peer *)

Lemma takes_whole_header w : takes_whole w -> header_accepted w.
Proof. intros H i. specialize (H i). lia. Qed.

Lemma wire_ok_dump s :
  wire_ok s -> dump s = inr (be_digits 8 (seq_number s) ++ be_digits 8 (ack_number s) ++ data s).
Proof. intros [Hs Ha]. now apply dump_ok. Qed.

(** With segments that fit the header and lie below the sent cursor in the
    send window, [_resend_first_segment] returns, and the send window still
    holds segments that fit the header. *)
Lemma _resend_first_segment_returns w c :
  send_window_ok c -> window_all wire_ok (_send_window c) ->
  wp False (_resend_first_segment w)
    (fun _ c' => window_all wire_ok (_send_window c')) (fun _ _ => False) c.
Proof.
  intros Hok Hw. unfold _resend_first_segment. wp_prim.
  destruct (pq_get (_send_window c)) as [[[k first] rest]|] eqn:E; [ | exact Hw].
  destruct (pq_get_all _ _ _ _ E (proj1 (send_window_ok_all c) Hok)) as [Hf _].
  destruct (pq_get_all _ _ _ _ E Hw) as [Hwf Hwrest]. cbn [snd] in Hf, Hwf.
  assert (Hsend : forall c1, _send_window c1 = rest -> _sent_bytes_cnt c1 = _sent_bytes_cnt c ->
            wp False (_send_segment w first ;;; ret tt)
              (fun _ c' => window_all wire_ok (_send_window c')) (fun _ _ => False) c1).
  { intros c1 H1 H2. apply wp_bind. unfold wp. rewrite _send_segment_unfold.
    rewrite (wire_ok_dump _ Hwf). cbv zeta. unfold keep_in_flight.
    pose proof (len_nonneg (data first)) as Hl.
    assert (Hstore : forall n t q, q = rest ->
              window_all wire_ok
                (pq_put q (seq_number first,
                           set_sending_time t (set_data (slice_to (data first) n) first)))).
    { intros n t q ->. apply pq_put_all; [exact Hwrest | exact Hwf]. }
    destruct (seq_number first =? _sent_bytes_cnt c1).
    - destruct (negb (len (data first) =? 0)); cbn [ret]; fields;
        [now apply Hstore | now rewrite H1].
    - destruct (_sent_bytes_cnt c1 <? seq_number first) eqn:E'; [apply Z.ltb_lt in E'; lia | ].
      destruct (negb (len (data first) =? 0)); cbn [ret]; fields;
        [now apply Hstore | now rewrite H1]. }
  wp_prim. apply wp_bind. unfold expired.
  destruct (negb (acknowledged first)).
  - wp_prim. unfold wp at 1. cbn [ret]. destruct (ACK_TIMEOUT <? _).
    + now apply Hsend.
    + cbn [wp modify]. fields. now apply pq_put_all.
  - unfold wp at 1. cbn [ret wp modify]. fields. now apply pq_put_all.
Qed.

(** All that a call of [_resend_first_segment] does in a state from which
    [send] can run. *)
Lemma _resend_first_segment_ready w c :
  header_accepted w -> send_window_ok c -> window_all wire_ok (_send_window c) ->
  exists c',
    _resend_first_segment w c = Ok tt c' /\
    send_window_ok c' /\ window_all wire_ok (_send_window c') /\
    _sent_bytes_cnt c' = _sent_bytes_cnt c /\
    _delivered_bytes_cnt c' = _delivered_bytes_cnt c /\
    _received_bytes_cnt c' = _received_bytes_cnt c /\
    rx_calls c' = rx_calls c.
Proof.
  intros HA Hok Hw.
  pose proof (_resend_first_segment_returns w c Hok Hw) as H1.
  pose proof (_resend_first_segment_ends w c HA Hok) as H2.
  unfold ends, wp in *.
  destruct (_resend_first_segment w c) as [[] c'|e c'|]; [ | contradiction | contradiction].
  exists c'. relations. intuition.
Qed.

Lemma bind_ok {A B} (m : M A) (k : A -> M B) c a c' :
  m c = Ok a c' -> bind m k c = k a c'.
Proof. intros H. unfold bind. now rewrite H. Qed.

(** A turn of the loop of [send] in which nothing arrives. *)
Lemma send_body_timeout w l c :
  silent w -> header_accepted w ->
  send_window_ok c -> window_all wire_ok (_send_window c) ->
  ~ carves l c ->
  exists c',
    send_body w l c = Ok (mkLocals (l_data l) (l_sent_data_len l) (l_lag l + 1)) c' /\
    send_window_ok c' /\ window_all wire_ok (_send_window c') /\
    _sent_bytes_cnt c' = _sent_bytes_cnt c /\
    _delivered_bytes_cnt c' = _delivered_bytes_cnt c /\
    rx_calls c' = S (rx_calls c).
Proof.
  intros Hs HA Hok Hw Hn.
  destruct (_resend_first_segment_ready w (set_rx_calls (S (rx_calls c)) c) HA Hok Hw)
    as (c' & E & H1 & H2 & H3 & H4 & H5 & H6).
  exists c'. split; [ | fields; repeat split; assumption].
  unfold send_body. do 2 (erewrite bind_ok; [ | reflexivity]).
  destruct ((_ <=? _) && _) eqn:Ec; [apply carves_test in Ec; contradiction | ].
  erewrite bind_ok; cycle 1.
  { erewrite bind_ok; [reflexivity | ]. rewrite _receive_segment_unfold, Hs. reflexivity. }
  erewrite bind_ok; [reflexivity | exact E].
Qed.

(** A turn of the loop of [send] in which a new segment goes out whole. *)
Lemma send_body_carve w l c :
  takes_whole w -> send_window_ok c -> window_all wire_ok (_send_window c) ->
  u64 (_sent_bytes_cnt c) -> u64 (_received_bytes_cnt c) ->
  carves l c ->
  let n := Z.min max_data_sz (len (l_data l)) in
  exists c',
    send_body w l c
    = Ok (mkLocals (slice_from (l_data l) n) (l_sent_data_len l + n) (l_lag l)) c' /\
    send_window_ok c' /\ window_all wire_ok (_send_window c') /\
    _sent_bytes_cnt c' = _sent_bytes_cnt c + n /\
    _delivered_bytes_cnt c' = _delivered_bytes_cnt c /\
    _received_bytes_cnt c' = _received_bytes_cnt c /\
    rx_calls c' = rx_calls c.
Proof.
  intros Hw Hok Hwire Hsent Hrecv Hc n. pose proof (takes_whole_header w Hw) as HA.
  set (chunk := slice_to (l_data l) n).
  set (c1 := set_clock_reads (S (clock_reads c)) c).
  set (segment := mkSegment (_sent_bytes_cnt c) (_received_bytes_cnt c) chunk false
                    (clock w (clock_reads c))).
  assert (Hn : 0 < n <= 1024).
  { subst n. destruct Hc as [_ Hd]. pose proof (len_nonneg (l_data l)).
    assert (len (l_data l) <> 0) by (rewrite len_zero; exact Hd).
    unfold max_data_sz. lia. }
  assert (Hchunk : len chunk = n).
  { subst chunk. rewrite len_slice_to by lia. subst n. lia. }
  assert (Hseg : wire_ok segment) by (split; assumption).
  set (c2 := set_send_window
               (pq_put (_send_window c)
                  (_sent_bytes_cnt c,
                   set_sending_time (clock w (S (clock_reads c)))
                     (set_data (slice_to chunk n) segment)))
               (set_clock_reads (S (S (clock_reads c)))
                  (set_sent (_sent_bytes_cnt c + n)
                     (set_tx_log (tx_log c ++ [be_digits 8 (_sent_bytes_cnt c)
                                               ++ be_digits 8 (_received_bytes_cnt c)
                                               ++ chunk]) c1)))).
  assert (Esend : _send_segment w segment c1 = Ok n c2).
  { rewrite _send_segment_unfold, (wire_ok_dump _ Hseg). cbv zeta.
    subst segment c1. fields. rewrite Z.eqb_refl. unfold keep_in_flight. fields.
    rewrite Hchunk. destruct (n =? 0) eqn:E0; [apply Z.eqb_eq in E0; lia | ]. cbn [negb].
    set (sent_length := Z.of_N _ - 16).
    assert (Hlen : sent_length = n).
    { subst sent_length. specialize (Hw (length (tx_log c))).
      rewrite !length_app, !length_be_digits. unfold len in Hchunk. lia. }
    rewrite Hlen. reflexivity. }
  assert (Hok2 : send_window_ok c2).
  { apply send_window_ok_all. subst c2 c1. fields. apply pq_put_all.
    - eapply Forall_impl; [exact Hok | ]. intros e He. cbv beta. unfold entry_sent in He. lia.
    - subst segment. fields. rewrite len_slice_to by lia. lia. }
  assert (Hwire2 : window_all wire_ok (_send_window c2)).
  { subst c2 c1. fields. apply pq_put_all; [exact Hwire | exact Hseg]. }
  destruct (_resend_first_segment_ready w c2 HA Hok2 Hwire2)
    as (c' & E & H1 & H2 & H3 & H4 & H5 & H6).
  exists c'. split; [ | subst c2 c1; fields; repeat split; assumption].
  unfold send_body. do 2 (erewrite bind_ok; [ | reflexivity]).
  destruct ((_ <=? _) && _) eqn:Ec; [ | apply carves_test in Hc; congruence].
  erewrite bind_ok; cycle 1.
  { erewrite bind_ok; [ | reflexivity]. erewrite bind_ok; [ | reflexivity].
    erewrite bind_ok; [reflexivity | exact Esend]. }
  erewrite bind_ok; [reflexivity | exact E].
Qed.

(** The turns of the loop of [send] once no new segment can go out and
    nothing arrives: [j] timeouts bring [lag] to [max_lag]. *)
Lemma send_loop_timeouts w (j : nat) fuel l c :
  silent w -> header_accepted w ->
  send_window_ok c -> window_all wire_ok (_send_window c) ->
  (j <= fuel)%nat -> l_lag l = max_lag - Z.of_nat j ->
  ~ carves l c ->
  l_data l <> [] \/ _delivered_bytes_cnt c < _sent_bytes_cnt c ->
  exists c',
    send_loop w fuel l c = Ok (l_sent_data_len l) c' /\
    rx_calls c' = (rx_calls c + j)%nat /\
    _sent_bytes_cnt c' = _sent_bytes_cnt c /\
    _delivered_bytes_cnt c' = _delivered_bytes_cnt c.
Proof.
  intros Hs HA. revert fuel l c.
  induction j as [|j IH]; intros fuel l c Hok Hw Hf Hlag Hn Hgo.
  - assert (G : send_guard l c = false).
    { unfold send_guard. replace (l_lag l <? max_lag) with false; [reflexivity | ].
      symmetry. apply Z.ltb_ge. lia. }
    exists c. split; [destruct fuel; cbn [send_loop]; now rewrite G | ].
    repeat split. lia.
  - assert (G : send_guard l c = true).
    { unfold send_guard. apply andb_true_iff. split; [apply Z.ltb_lt; lia | ].
      apply orb_true_iff. destruct Hgo as [Hd | Hd].
      - left. apply negb_true_iff, Z.eqb_neq. now rewrite len_zero.
      - right. now apply Z.ltb_lt. }
    destruct fuel as [|fuel]; [lia | ].
    destruct (send_body_timeout w l c Hs HA Hok Hw Hn) as (c1 & E & H1 & H2 & H3 & H4 & H5).
    rewrite (send_loop_turn w fuel l c _ c1 G E).
    destruct (IH fuel (mkLocals (l_data l) (l_sent_data_len l) (l_lag l + 1)) c1)
      as (c' & E' & R1 & R2 & R3); try assumption.
    + lia.
    + cbn [l_lag]. lia.
    + unfold carves in *. cbn [l_data]. now rewrite H3, H4.
    + cbn [l_data]. rewrite H3, H4. exact Hgo.
    + exists c'. cbn [l_sent_data_len] in E'. split; [exact E' | ].
      repeat split; lia.
Qed.

Lemma room_closed (f n : Z) :
  room f n = Z.min n (1024 * ((5120 - f) / 1024)).
Proof. reflexivity. Qed.

(** No segment can go out: the window is full or nothing is left to send. *)
Lemma send_loop_no_room w fuel l c :
  silent w -> header_accepted w ->
  sender_ready c ->
  l_lag l = 0 ->
  l_data l <> [] \/ _delivered_bytes_cnt c < _sent_bytes_cnt c ->
  ~ carves l c ->
  (64 <= fuel)%nat ->
  exists c',
    send_loop w fuel l c
    = Ok (l_sent_data_len l
          + room (_sent_bytes_cnt c - _delivered_bytes_cnt c) (len (l_data l))) c' /\
    rx_calls c' = (rx_calls c + 64)%nat /\
    _sent_bytes_cnt c'
    = _sent_bytes_cnt c + room (_sent_bytes_cnt c - _delivered_bytes_cnt c) (len (l_data l)) /\
    _delivered_bytes_cnt c' = _delivered_bytes_cnt c.
Proof.
  intros Hs HA (Hok & Hwire & Hcur & Hrecv & Hb) Hlag Hgo Hn Hf.
  assert (Hroom : room (_sent_bytes_cnt c - _delivered_bytes_cnt c) (len (l_data l)) = 0).
  { rewrite room_closed. unfold window_bound, window_sz, max_data_sz, carves in *.
    pose proof (len_nonneg (l_data l)) as Hlen.
    pose proof (Z.div_mod (5120 - (_sent_bytes_cnt c - _delivered_bytes_cnt c)) 1024
                  ltac:(lia)) as Hq.
    pose proof (Z.mod_pos_bound (5120 - (_sent_bytes_cnt c - _delivered_bytes_cnt c)) 1024
                  ltac:(lia)) as Hr.
    set (q := (5120 - (_sent_bytes_cnt c - _delivered_bytes_cnt c)) / 1024) in *.
    destruct (Z.eq_dec (len (l_data l)) 0) as [E0 | E0]; [lia | ].
    assert (4096 < _sent_bytes_cnt c - _delivered_bytes_cnt c).
    { apply Z.nle_gt. intros Hle. apply Hn. split; [exact Hle | ]. now rewrite <- len_zero. }
    lia. }
  rewrite Hroom, !Z.add_0_r.
  destruct (send_loop_timeouts w 64 fuel l c Hs HA Hok Hwire Hf) as (c' & E & R1 & R2 & R3);
    try assumption.
  exists c'. auto.
Qed.

(** The run of [send] when nothing arrives and the transport takes every
    datagram whole: segments go out while the window has room, then
    [max_lag] timeouts end the call. *)
Lemma send_loop_carving w (m : nat) fuel l c :
  silent w -> takes_whole w ->
  sender_ready c ->
  _sent_bytes_cnt c + len (l_data l) < 2 ^ 64 ->
  l_lag l = 0 ->
  l_data l <> [] \/ _delivered_bytes_cnt c < _sent_bytes_cnt c ->
  (5120 - (_sent_bytes_cnt c - _delivered_bytes_cnt c)) / 1024 <= Z.of_nat m ->
  (m + 64 <= fuel)%nat ->
  exists c',
    send_loop w fuel l c
    = Ok (l_sent_data_len l
          + room (_sent_bytes_cnt c - _delivered_bytes_cnt c) (len (l_data l))) c' /\
    rx_calls c' = (rx_calls c + 64)%nat /\
    _sent_bytes_cnt c'
    = _sent_bytes_cnt c + room (_sent_bytes_cnt c - _delivered_bytes_cnt c) (len (l_data l)) /\
    _delivered_bytes_cnt c' = _delivered_bytes_cnt c.
Proof.
  intros Hs Hw. pose proof (takes_whole_header w Hw) as HA. revert fuel l c.
  induction m as [|m IH]; intros fuel l c (Hok & Hwire & Hcur & Hrecv & Hb) H64 Hlag Hgo Hm Hf;
    unfold window_bound, window_sz, max_data_sz in Hb;
    pose proof (len_nonneg (l_data l)) as Hlen;
    rewrite room_closed;
    pose proof (Z.div_mod (5120 - (_sent_bytes_cnt c - _delivered_bytes_cnt c)) 1024 ltac:(lia)) as Hq;
    pose proof (Z.mod_pos_bound (5120 - (_sent_bytes_cnt c - _delivered_bytes_cnt c)) 1024 ltac:(lia)) as Hr;
    set (q := (5120 - (_sent_bytes_cnt c - _delivered_bytes_cnt c)) / 1024) in *;
    destruct ((_sent_bytes_cnt c - _delivered_bytes_cnt c <=? window_sz)
              && negb (len (l_data l) =? 0)) eqn:Ec.
  2, 4: subst q; rewrite <- !room_closed; apply send_loop_no_room; try assumption; try lia;
    [ unfold sender_ready, window_bound, window_sz, max_data_sz; tauto
    | intros H; apply carves_test in H; congruence ].
  1, 2: apply carves_test in Ec; pose proof Ec as [Ec1 Ec2]; unfold window_sz in Ec1.
  - lia.
  - (* a segment goes out *)
    assert (G : send_guard l c = true).
    { unfold send_guard. rewrite Hlag. apply andb_true_iff. split; [reflexivity | ].
      apply orb_true_iff. left. apply negb_true_iff, Z.eqb_neq. now rewrite len_zero. }
    destruct fuel as [|fuel]; [lia | ].
    assert (Hsent : u64 (_sent_bytes_cnt c)) by (unfold u64; lia).
    destruct (send_body_carve w l c Hw Hok Hwire Hsent Hrecv Ec)
      as (c1 & E & H1 & H2 & H3 & H4 & H5 & H6).
    rewrite (send_loop_turn w fuel l c _ c1 G E).
    assert (Hne : len (l_data l) <> 0) by (rewrite len_zero; exact Ec2).
    unfold max_data_sz in *.
    destruct (Z.le_gt_cases (len (l_data l)) 1024) as [Hshort | Hlong].
    + (* the last segment *)
      rewrite Z.min_r in * by lia.
      destruct (send_loop_timeouts w 64 fuel
                  (mkLocals (slice_from (l_data l) (len (l_data l)))
                     (l_sent_data_len l + len (l_data l)) (l_lag l)) c1)
        as (c' & E' & R1 & R2 & R3); try assumption.
      * lia.
      * unfold carves. cbn [l_data]. intros [_ Hd]. apply Hd, len_zero.
        rewrite len_slice_from by lia. lia.
      * right. lia.
      * exists c'. cbn [l_sent_data_len] in E'. rewrite E'.
        replace (len (l_data l) `min` (1024 * q)) with (len (l_data l)) by lia.
        repeat split; lia.
    + (* a whole segment, and more to send *)
      rewrite Z.min_l in * by lia.
      destruct (IH fuel (mkLocals (slice_from (l_data l) 1024)
                           (l_sent_data_len l + 1024) (l_lag l)) c1)
        as (c' & E' & R1 & R2 & R3).
      * unfold sender_ready, window_bound, window_sz, max_data_sz, u64 in *.
        rewrite H3, H4, H5. repeat split; try assumption; lia.
      * cbn [l_data]. rewrite len_slice_from by lia. lia.
      * exact Hlag.
      * right. lia.
      * rewrite H3, H4.
        pose proof (Z.div_mod (5120 - (_sent_bytes_cnt c + 1024 - _delivered_bytes_cnt c)) 1024
                      ltac:(lia)).
        pose proof (Z.mod_pos_bound (5120 - (_sent_bytes_cnt c + 1024 - _delivered_bytes_cnt c))
                      1024 ltac:(lia)).
        lia.
      * lia.
      * exists c'. cbn [l_sent_data_len l_data] in *. rewrite E'.
        rewrite len_slice_from, room_closed in * by lia.
        rewrite H3, H4 in *.
        pose proof (Z.div_mod (5120 - (_sent_bytes_cnt c + 1024 - _delivered_bytes_cnt c)) 1024
                      ltac:(lia)) as Hq'.
        pose proof (Z.mod_pos_bound (5120 - (_sent_bytes_cnt c + 1024 - _delivered_bytes_cnt c))
                      1024 ltac:(lia)) as Hr'.
        set (q' := (5120 - (_sent_bytes_cnt c + 1024 - _delivered_bytes_cnt c)) / 1024) in *.
        assert (q' = q - 1) by lia.
        replace (1024 `min` len (l_data l)) with 1024 by lia.
        replace ((len (l_data l) - 1024) `min` (1024 * q')) with
          (len (l_data l) `min` (1024 * q) - 1024) in * by lia.
        split; [f_equal; lia | ]. repeat split; lia.
Qed.

Lemma room_fresh n : room 0 n = Z.min n 5120.
Proof. reflexivity. Qed.

Lemma room_le f n : room f n <= n.
Proof. unfold room. lia. Qed.

(** C4, as the code has it. On a connection ready to send, with a transport
    that takes every datagram whole and no datagram arriving during the
    call, [send(data)] for non-empty [data] returns without raising after
    exactly [max_lag] calls of [_receive_segment], all timed out. What it
    returns is the count of the bytes it transmitted, [room in_flight
    (len data)]: the whole of [len data] when the data fit the room left in
    the window (up to 5120 bytes when nothing is in flight), and less than
    [len data] only otherwise. *)
Theorem send_to_silent_peer (w : World) (fuel : nat) (d : bytes) (c : MyTCPProtocol) :
  silent w -> takes_whole w ->
  sender_ready c ->
  d <> [] ->
  _sent_bytes_cnt c + len d < 2 ^ 64 ->
  (69 <= fuel)%nat ->
  exists c',
    send w fuel d c = Ok (room (_sent_bytes_cnt c - _delivered_bytes_cnt c) (len d)) c' /\
    rx_calls c' = (rx_calls c + 64)%nat /\
    room (_sent_bytes_cnt c - _delivered_bytes_cnt c) (len d) <= len d.
Proof.
  intros Hs Hw Hready Hd H64 Hf.
  destruct (send_loop_carving w 5 fuel (mkLocals d 0 0) c Hs Hw Hready H64 eq_refl)
    as (c' & E & R1 & _).
  - now left.
  - destruct Hready as (_ & _ & Hcur & _).
    apply Z.div_le_upper_bound; [lia | ]. change (Z.of_nat 5) with 5. lia.
  - lia.
  - exists c'. cbn [l_sent_data_len l_data] in E. rewrite Z.add_0_l in E.
    split; [exact E | ]. split; [exact R1 | apply room_le].
Qed.

Lemma send_to_silent_peer_witness :
  exists c',
    send silent_world 69 hello init = Ok 5 c' /\
    rx_calls c' = 64%nat /\ 5 <= len hello.
Proof.
  apply (send_to_silent_peer silent_world 69 hello init).
  - intros i. reflexivity.
  - intros i. unfold silent_world, whole_datagrams. simpl. lia.
  - unfold sender_ready, window_bound, u64, window_sz, max_data_sz. simpl.
    repeat split; try lia; constructor.
  - discriminate.
  - reflexivity.
  - lia.
Defined.

(** C4 fails for five bytes sent on a fresh connection to a peer that never
    answers: [send] returns 5, the length of the data, not less. *)
Lemma send_short_data_returns_all :
  hello <> [] /\ len hello = 5 /\
  exists c', send silent_world 69 hello init = Ok 5 c'.
Proof.
  split; [discriminate | ]. split; [reflexivity | ].
  eexists. vm_compute. reflexivity.
Qed.

(** ** The invariants across the public calls *)

Lemma init_window : send_window_ok init /\ window_bound init.
Proof. split; [constructor | unfold window_bound, window_sz, max_data_sz; simpl; lia]. Qed.

Lemma slice_to_from {A} (l : list A) k : slice_to l k ++ slice_from l k = l.
Proof. unfold slice_to, slice_from. apply take_drop. Qed.

(** What [recv] returns, followed by what it leaves in the buffer, is what
    the buffer held followed by the payloads of segments in stream order. *)
Lemma recv_loop_stream_order w fuel data_sz d0 c d c' :
  recv_loop w fuel data_sz d0 c = Ok d c' ->
  exists segs,
    contiguous (_received_bytes_cnt c) segs (_received_bytes_cnt c') /\
    d ++ _buffer c' = d0 ++ _buffer c ++ concat (map data segs).
Proof.
  revert d0 c. induction fuel as [|fuel IH]; intros d0 c; cbn [recv_loop];
    destruct (len d0 <? data_sz); try discriminate;
    try (intros [= <- <-]; exists []; cbn; now rewrite app_nil_r).
  set (rb := Z.min data_sz (len (_buffer c))).
  set (c1 := set_buffer (slice_from (_buffer c) rb) c).
  assert (Hsplit : forall tail,
            (d0 ++ slice_to (_buffer c) rb) ++ _buffer c1 ++ tail = d0 ++ _buffer c ++ tail).
  { intros tail. subst c1. fields.
    rewrite <- (slice_to_from (_buffer c) rb) at 3. now rewrite <- !app_assoc. }
  destruct (len (d0 ++ slice_to (_buffer c) rb) <? data_sz).
  - unfold bind.
    pose proof (_receive_segment_ends w None c1) as H. unfold ends, wp in H.
    destruct (_receive_segment w None c1) as [b c2|e c2|]; try discriminate.
    destruct H as ((segs1 & Hc1 & Hb1) & _). intros E.
    destruct (IH _ _ E) as (segs2 & Hc2 & Hb2). exists (segs1 ++ segs2). split.
    + eapply contiguous_app; [exact Hc1 | exact Hc2].
    + rewrite Hb2, Hb1, map_app, concat_app, <- Hsplit. now rewrite <- !app_assoc.
  - intros E. destruct (IH _ _ E) as (segs & Hc & Hb). exists segs. split; [exact Hc | ].
    rewrite Hb. apply Hsplit.
Qed.

(** [recv] keeps the window invariant that [send] relies on. *)
Lemma recv_loop_keeps_window w fuel data_sz d0 c d c' :
  header_accepted w -> send_window_ok c -> window_bound c ->
  recv_loop w fuel data_sz d0 c = Ok d c' ->
  send_window_ok c' /\ window_bound c'.
Proof.
  intros HA. revert d0 c. induction fuel as [|fuel IH]; intros d0 c Hok Hb; cbn [recv_loop];
    destruct (len d0 <? data_sz); try discriminate;
    try (intros [= _ <-]; now split).
  set (c1 := set_buffer _ c).
  assert (Hok1 : send_window_ok c1) by exact Hok.
  assert (Hb1 : window_bound c1) by exact Hb.
  destruct (len (d0 ++ _) <? data_sz); [ | now apply IH].
  unfold bind.
  pose proof (_receive_segment_ends w None c1) as H. unfold ends, wp in H.
  destruct (_receive_segment w None c1) as [b c2|e c2|]; try discriminate.
  destruct H as (_ & _ & H). destruct (H HA) as (S1 & S2 & S3).
  apply IH.
  - apply send_window_ok_all. rewrite S1. apply S3, Hok1.
  - unfold window_bound in *. lia.
Qed.

(** ** The heap on an example *)

Example heappop_example :
  heappop Z.ltb [1; 3; 4; 5; 2; 7] = Some (1, [3; 2; 4; 5; 7]).
Proof. reflexivity. Qed.

Example heappush_example :
  heappush Z.ltb [1; 3; 4; 5] 0 = [0; 1; 4; 5; 3].
Proof. reflexivity. Qed.

(** The window invariant holds in every state the connection reaches. *)
Lemma reachable_window w c :
  header_accepted w -> reachable w c -> send_window_ok c /\ window_bound c.
Proof.
  intros HA Hr. induction Hr as [|fuel d c n c' Hr [Hok Hb] E|fuel data_sz c d c' Hr [Hok Hb] E].
  - exact init_window.
  - exact (send_loop_keeps_bound w fuel _ c n c' HA Hok Hb E).
  - exact (recv_loop_keeps_window w fuel data_sz [] c d c' HA Hok Hb E).
Qed.

(** ** The stream across a whole run *)

Lemma _resend_first_segment_recv_side w c :
  ends same_recv_side (_resend_first_segment w) c.
Proof.
  unfold ends, _resend_first_segment. wp_prim.
  destruct (pq_get (_send_window c)) as [[[k first] rest]|]; [ | cbn [wp ret]; now repeat split].
  wp_prim. apply wp_bind. unfold expired.
  assert (Hsend : forall c1, same_recv_side c c1 ->
            wp False (_send_segment w first ;;; ret tt)
              (fun _ c' => same_recv_side c c') (fun _ c' => same_recv_side c c') c1).
  { intros c1 H1. apply wp_bind. pose proof (_send_segment_recv_side w first c1) as G.
    unfold ends, wp in *.
    destruct (_send_segment w first c1) as [n c2|e c2|]; [ | | contradiction];
      cbn [ret]; relations; intuition congruence. }
  destruct (negb (acknowledged first)).
  - wp_prim. unfold wp at 1. cbn [ret]. destruct (ACK_TIMEOUT <? _).
    + apply Hsend. now repeat split.
    + cbn [wp modify]. now repeat split.
  - unfold wp at 1. cbn [ret wp modify]. now repeat split.
Qed.

(** One turn of the loop of [send] ends, and appends to the buffer in
    stream order. *)
Lemma send_body_delivers w l c : ends delivers (send_body w l) c.
Proof.
  unfold ends, send_body. do 2 wp_prim. apply wp_bind.
  assert (Hrest : forall (next : send_locals) c1, delivers c c1 ->
            wp False (_resend_first_segment w ;;; ret next)
              (fun _ c' => delivers c c') (fun _ c' => delivers c c') c1).
  { intros next c1 H1. apply wp_bind.
    pose proof (_resend_first_segment_recv_side w c1) as G. unfold ends, wp in *.
    destruct (_resend_first_segment w c1) as [[] c2|e c2|]; [ | | contradiction];
      cbn [ret]; (eapply delivers_trans; [exact H1 | now apply same_recv_side_delivers]). }
  destruct ((_ <=? _) && _).
  - do 2 wp_prim. apply wp_bind.
    match goal with |- wp _ (_send_segment w ?s) _ _ ?c1 =>
      pose proof (_send_segment_recv_side w s c1) as G; unfold ends, wp in *;
      destruct (_send_segment w s c1) as [n c2|e c2|]; [ | | contradiction] end.
    + cbn [ret]. apply Hrest. apply same_recv_side_delivers. relations. tauto.
    + apply same_recv_side_delivers. relations. tauto.
  - apply wp_bind.
    pose proof (_receive_segment_ends w (Some ACK_TIMEOUT) c) as G. unfold ends, wp in *.
    destruct (_receive_segment w (Some ACK_TIMEOUT) c) as [b c1|e c1|]; [ | | contradiction].
    + cbn [ret]. apply Hrest. apply G.
    + apply G.
Qed.

Lemma send_loop_delivers w fuel l c n c' :
  send_loop w fuel l c = Ok n c' -> delivers c c'.
Proof.
  revert l c. induction fuel as [|fuel IH]; intros l c; cbn [send_loop];
    destruct (send_guard l c); try discriminate;
    try (intros [= _ <-]; apply delivers_refl).
  unfold bind. pose proof (send_body_delivers w l c) as H. unfold ends, wp in H.
  destruct (send_body w l c) as [l1 c1|e c1|]; try discriminate.
  intros E. eapply delivers_trans; [exact H | exact (IH _ _ E)].
Qed.

Lemma _receive_segment_in_order w timeout c :
  exists c', final_state (_receive_segment w timeout c) = Some c' /\ delivers c c'.
Proof.
  destruct (ends_final _ _ _ (_receive_segment_ends w timeout c)) as (c' & Hf & Hd & _).
  now exists c'.
Qed.

(** The scenario of C7: the received cursor is at 10, the segment for
    [20,30) arrives first and stays in the receive window with the buffer
    still empty; when the segment for [10,20) arrives the buffer receives
    the twenty bytes in stream order. *)
Example gap_then_fill :
  let w := arrivals [frame 20 0 (ten_from 20); frame 10 0 (ten_from 10)] in
  exists c1 c2,
    _receive_segment w None ten_received = Ok true c1 /\
    _buffer c1 = [] /\ _received_bytes_cnt c1 = 10 /\
    map fst (_recv_window c1) = [20] /\
    _receive_segment w None c1 = Ok true c2 /\
    _buffer c2 = ten_from 10 ++ ten_from 20 /\ _received_bytes_cnt c2 = 30 /\
    _recv_window c2 = [].
Proof.
  cbv zeta. eexists _, _.
  split; [vm_compute; reflexivity | ].
  repeat (split; [vm_compute; reflexivity | ]). vm_compute; reflexivity.
Qed.

(** * Further properties of the code *)

(** ** The frame *)

Lemma Z_of_byte_range b : 0 <= Z_of_byte b < 256.
Proof. unfold Z_of_byte. pose proof (Byte.to_N_bounded b). lia. Qed.

Lemma byte_of_Z_of_byte b : byte_of_Z (Z_of_byte b) = b.
Proof.
  unfold byte_of_Z. rewrite Z.mod_small by apply Z_of_byte_range.
  unfold Z_of_byte. now rewrite N2Z.id, Byte.of_to_N.
Qed.

Lemma int_from_bytes_range bs : 0 <= int_from_bytes bs < 256 ^ Z.of_nat (length bs).
Proof.
  induction bs as [|b bs IH] using rev_ind; [cbn; lia | ].
  rewrite int_from_bytes_snoc, length_app. cbn [length].
  replace (Z.of_nat (length bs + 1)) with (Z.succ (Z.of_nat (length bs))) by lia.
  rewrite Z.pow_succ_r by lia. pose proof (Z_of_byte_range b). nia.
Qed.

Lemma be_digits_int_from_bytes bs : be_digits (length bs) (int_from_bytes bs) = bs.
Proof.
  induction bs as [|b bs IH] using rev_ind; [reflexivity | ].
  rewrite int_from_bytes_snoc, length_app. cbn [length].
  replace (length bs + 1)%nat with (S (length bs)) by lia. cbn [be_digits].
  pose proof (Z_of_byte_range b) as Hb.
  replace ((int_from_bytes bs * 256 + Z_of_byte b) / 256) with (int_from_bytes bs)
    by (rewrite Z.div_add_l, (Z.div_small (Z_of_byte b)) by lia; lia).
  rewrite IH. f_equal. f_equal. unfold byte_of_Z.
  replace ((int_from_bytes bs * 256 + Z_of_byte b) mod 256) with (Z_of_byte b)
    by (rewrite Z.add_comm, Z.mod_add, Z.mod_small by lia; reflexivity).
  unfold Z_of_byte. now rewrite N2Z.id, Byte.of_to_N.
Qed.

Lemma int_from_bytes_u64 bs : (length bs <= 8)%nat -> u64 (int_from_bytes bs).
Proof.
  intros H. pose proof (int_from_bytes_range bs) as [H0 H1]. split; [exact H0 | ].
  eapply Z.lt_le_trans; [exact H1 | ].
  change (2 ^ 64) with (256 ^ 8). apply Z.pow_le_mono_r; lia.
Qed.

(** X1. [dump] fails, with [OverflowError], exactly when the sequence number
    or the acknowledgment number is negative or does not fit in 8 bytes;
    otherwise it returns the 16 bytes of the header followed by the
    payload. *)
Theorem dump_overflow (s : TCPSegment) :
  (wire_ok s ->
   exists d, dump s = inr d /\ length d = (16 + length (data s))%nat /\ drop 16 d = data s) /\
  (~ wire_ok s -> dump s = inl OverflowError).
Proof.
  split.
  - intros H. rewrite (wire_ok_dump s H). eexists. split; [reflexivity | ].
    split.
    + rewrite !length_app, !length_be_digits. lia.
    + rewrite app_assoc. apply drop_app_length'. rewrite length_app, !length_be_digits. lia.
  - intros H. unfold dump, int_to_bytes. rewrite pow_256_8.
    destruct ((0 <=? seq_number s) && (seq_number s <? 2 ^ 64)) eqn:Es; [ | reflexivity].
    destruct ((0 <=? ack_number s) && (ack_number s <? 2 ^ 64)) eqn:Ea; [ | reflexivity].
    exfalso. apply H. apply andb_true_iff in Es as [Es1 Es2]. apply andb_true_iff in Ea as [Ea1 Ea2].
    unfold wire_ok, u64. lia.
Qed.

(** X2. [dump] is injective: two segments with the same encoding have the
    same sequence number, acknowledgment number and payload. *)
Theorem dump_injective (s1 s2 : TCPSegment) (d : bytes) :
  dump s1 = inr d -> dump s2 = inr d ->
  seq_number s1 = seq_number s2 /\ ack_number s1 = ack_number s2 /\ data s1 = data s2.
Proof.
  intros H1 H2.
  pose proof (load_dump silent_world init s1 d H1) as L1.
  pose proof (load_dump silent_world init s2 d H2) as L2.
  rewrite L1 in L2. injection L2 as E1 E2 E3. auto.
Qed.

Lemma dump_injective_witness :
  seq_number (mkSegment 7 9 hello false 0) = seq_number (mkSegment 7 9 hello true 5) /\
  ack_number (mkSegment 7 9 hello false 0) = ack_number (mkSegment 7 9 hello true 5) /\
  data (mkSegment 7 9 hello false 0) = data (mkSegment 7 9 hello true 5).
Proof.
  apply (dump_injective (mkSegment 7 9 hello false 0) (mkSegment 7 9 hello true 5)
           (frame 7 9 hello)); reflexivity.
Defined.

(** X3. A datagram of at least 16 bytes is the encoding of the segment that
    [load] makes of it: decoding then encoding gives the datagram back. *)
Theorem load_dump_roundtrip (w : World) (d : bytes) (c : MyTCPProtocol) :
  (16 <= length d)%nat ->
  exists s c', load w d c = Ok s c' /\ dump s = inr d.
Proof.
  intros H. rewrite load_fields. eexists _, _. split; [reflexivity | ].
  unfold slice_between, slice_from, slice_to, slice_index. cbn [Z.ltb Z.compare].
  change (Z.to_nat 8) with 8%nat. change (Z.to_nat 16) with 16%nat.
  rewrite wire_ok_dump; cbn [seq_number ack_number data].
  - assert (L1 : length (take 8 d) = 8%nat) by (rewrite length_take; lia).
    assert (L2 : length (drop 8 (take 16 d)) = 8%nat)
      by (rewrite length_drop, length_take; lia).
    pose proof (be_digits_int_from_bytes (take 8 d)) as B1. rewrite L1 in B1.
    pose proof (be_digits_int_from_bytes (drop 8 (take 16 d))) as B2. rewrite L2 in B2.
    rewrite B1, B2.
    f_equal. replace (take 8 d) with (take 8 (take 16 d))
      by (rewrite take_take; f_equal).
    now rewrite app_assoc, take_drop, take_drop.
  - split; cbn [seq_number ack_number]; apply int_from_bytes_u64.
    + rewrite length_take. lia.
    + rewrite length_drop, length_take. lia.
Qed.

Lemma load_dump_roundtrip_witness :
  exists s c', load silent_world (frame 7 9 hello) init = Ok s c' /\
               dump s = inr (frame 7 9 hello).
Proof. apply (load_dump_roundtrip silent_world (frame 7 9 hello) init). cbn. lia. Defined.

(** X4. Whatever the datagram, short or long, the segment that [load] makes
    of it has a sequence number and an acknowledgment number in [[0, 2^64)]:
    a received segment can always be encoded again. *)
Theorem load_numbers_in_range (w : World) (d : bytes) (c : MyTCPProtocol) :
  exists s c', load w d c = Ok s c' /\ wire_ok s /\ exists d', dump s = inr d'.
Proof.
  rewrite load_fields. eexists _, _. split; [reflexivity | ].
  assert (H : wire_ok (mkSegment (int_from_bytes (slice_to d 8))
                         (int_from_bytes (slice_between d 8 16)) (slice_from d 16) false
                         (clock w (clock_reads c)))).
  { unfold slice_between, slice_from, slice_to, slice_index. cbn [Z.ltb Z.compare].
    change (Z.to_nat 8) with 8%nat. change (Z.to_nat 16) with 16%nat.
    split; cbn [seq_number ack_number]; apply int_from_bytes_u64.
    - rewrite length_take. lia.
    - rewrite length_drop, length_take. lia. }
  split; [exact H | ]. rewrite (wire_ok_dump _ H). eexists. reflexivity.
Qed.

(** ** What the window loops touch *)

Lemma set_send_window_same c : set_send_window (_send_window c) c = c.
Proof. now destruct c. Qed.

Lemma set_recv_side_same c :
  set_recv_window (_recv_window c) (set_received (_received_bytes_cnt c)
    (set_buffer (_buffer c) c)) = c.
Proof. now destruct c. Qed.

(** The loop of [_shift_send_window] returns, and the state it returns
    differs from the one it started in by the send window only, which holds
    no more entries than before and only segments it had. *)
Lemma shift_send_loop_state fuel c :
  (length (_send_window c) <= fuel)%nat ->
  exists q,
    shift_send_loop fuel c = Ok tt (set_send_window q c) /\
    (length q <= length (_send_window c))%nat /\
    forall P, window_all P (_send_window c) -> window_all P q.
Proof.
  revert c. induction fuel as [|fuel IH]; intros c Hf; cbn [shift_send_loop];
    destruct (pq_get (_send_window c)) as [[[k first] rest]|] eqn:E;
    try (exists (_send_window c); rewrite set_send_window_same; now repeat split).
  - apply pq_get_length in E. lia.
  - pose proof (pq_get_length _ _ _ E) as Hl.
    destruct (_delivered_bytes_cnt c <=? seq_number first).
    + exists (pq_put rest (seq_number first, first)). split; [reflexivity | ]. split.
      * unfold pq_put. rewrite heappush_length. lia.
      * intros P HP. destruct (pq_get_all P _ _ _ E HP) as [H1 H2]. now apply pq_put_all.
    + destruct (IH (set_send_window rest c)) as (q & Eq & Hq & HP); [fields; lia | ].
      exists q. fields. split; [exact Eq | ]. split; [lia | ].
      intros P HP0. apply HP. exact (proj2 (pq_get_all P _ _ _ E HP0)).
Qed.

(** The loop of [_shift_recv_window] returns, and the state it returns
    differs from the one it started in by the receive side only; it has seen
    a segment as soon as the receive window is not empty. *)
Lemma shift_recv_loop_state fuel first_segment c :
  (length (_recv_window c) <= fuel)%nat ->
  exists fs q r b,
    shift_recv_loop fuel first_segment c
    = Ok fs (set_recv_window q (set_received r (set_buffer b c))) /\
    (_recv_window c <> [] \/ first_segment <> None -> fs <> None) /\
    (_recv_window c = [] -> fs = first_segment) /\
    (length q <= length (_recv_window c))%nat /\
    forall P, window_all P (_recv_window c) -> window_all P q.
Proof.
  revert first_segment c. induction fuel as [|fuel IH]; intros first_segment c Hf;
    cbn [shift_recv_loop];
    destruct (pq_get (_recv_window c)) as [[[k first] rest]|] eqn:E.
  - apply pq_get_length in E. lia.
  - apply heappop_None in E.
    exists first_segment, (_recv_window c), (_received_bytes_cnt c), (_buffer c).
    rewrite set_recv_side_same. split; [reflexivity | ].
    split; [intros [H | H]; [contradiction | exact H] | ]. now repeat split.
  - pose proof (pq_get_length _ _ _ E) as Hl.
    assert (Hne : _recv_window c <> []) by (intros H; rewrite H in Hl; discriminate).
    fields.
    destruct (seq_number first <? _received_bytes_cnt c).
    + destruct (IH (Some (set_acknowledged true first)) (set_recv_window rest c))
        as (fs & q & r & b & Eq & Hfs & _ & Hq & HP); [fields; lia | ].
      exists fs, q, r, b. fields. split; [exact Eq | ].
      split; [intros _; apply Hfs; now right | ]. split; [contradiction | ].
      split; [lia | ]. intros P HP0. apply HP. exact (proj2 (pq_get_all P _ _ _ E HP0)).
    + destruct (seq_number first =? _received_bytes_cnt c).
      * match goal with |- context [shift_recv_loop fuel ?fs0 ?c1] =>
          destruct (IH fs0 c1) as (fs & q & r & b & Eq & Hfs & _ & Hq & HP);
            [fields; lia | ] end.
        exists fs, q, r, b. fields. split; [exact Eq | ].
        split; [intros _; apply Hfs; now right | ]. split; [contradiction | ].
        split; [lia | ]. intros P HP0. apply HP. exact (proj2 (pq_get_all P _ _ _ E HP0)).
      * exists (Some first), (pq_put rest (seq_number first, first)),
          (_received_bytes_cnt c), (_buffer c).
        split; [now destruct c | ]. split; [discriminate | ]. split; [contradiction | ].
        split; [unfold pq_put; rewrite heappush_length; lia | ].
        intros P HP0. destruct (pq_get_all P _ _ _ E HP0) as [H1 H2]. now apply pq_put_all.
  - apply heappop_None in E.
    exists first_segment, (_recv_window c), (_received_bytes_cnt c), (_buffer c).
    rewrite set_recv_side_same. split; [reflexivity | ].
    split; [intros [H | H]; [contradiction | exact H] | ]. now repeat split.
Qed.

(** X5. [_shift_send_window] always returns, and changes nothing but the
    send window, which it only prunes: it holds no more entries than before,
    and every segment in it was in it before. *)
Theorem shift_send_window_only_prunes (c : MyTCPProtocol) :
  exists q,
    _shift_send_window c = Ok tt (set_send_window q c) /\
    (length q <= length (_send_window c))%nat /\
    forall e, e ∈ q -> e.2 ∈ map snd (_send_window c).
Proof.
  destruct (shift_send_loop_state (length (_send_window c)) c) as (q & E & Hl & HP); [lia | ].
  exists q. split; [exact E | ]. split; [exact Hl | ].
  intros e He.
  assert (H : window_all (fun s => s ∈ map snd (_send_window c)) q).
  { apply HP. apply Forall_forall. intros x Hx. apply list_elem_of_fmap. now exists x. }
  exact (proj1 (Forall_forall _ _) H e He).
Qed.

(** ** What goes on the wire *)

(** X6. [_send_segment] hands to [sendto] exactly one datagram, the encoding
    of the segment, and leaves the receive side and the delivered cursor
    alone, also when it raises [ValueError]; when the segment cannot be
    encoded it raises [OverflowError] and the state is untouched: nothing
    was sent. *)
Theorem send_segment_transmits (w : World) (segment : TCPSegment) (c : MyTCPProtocol) :
  (forall e, dump segment = inl e -> _send_segment w segment c = Raise (PyExn e) c) /\
  (forall d, dump segment = inr d ->
     exists c', final_state (_send_segment w segment c) = Some c' /\
       tx_log c' = tx_log c ++ [d] /\
       same_recv_side c c' /\ _delivered_bytes_cnt c' = _delivered_bytes_cnt c).
Proof.
  rewrite _send_segment_unfold. split.
  - intros e ->. reflexivity.
  - intros d ->. cbv zeta. unfold keep_in_flight, same_recv_side.
    destruct (seq_number segment =? _sent_bytes_cnt c).
    + destruct (negb (len (data segment) =? 0)); eexists; (split; [reflexivity | ]);
        fields; now repeat split.
    + destruct (_sent_bytes_cnt c <? seq_number segment);
        [eexists; (split; [reflexivity | ]); fields; now repeat split | ].
      destruct (negb (len (data segment) =? 0)); eexists; (split; [reflexivity | ]);
        fields; now repeat split.
Qed.

(** All that handling one decoded segment does to the delivered cursor and
    to the wire. *)
Lemma process_segment_effect w segment c :
  match process_segment w segment c with
  | Ok b c' =>
      b = true /\
      _delivered_bytes_cnt c' = Z.max (_delivered_bytes_cnt c) (ack_number segment) /\
      (if len (data segment) =? 0
       then tx_log c' = tx_log c /\ same_recv_side c c' /\
            _sent_bytes_cnt c' = _sent_bytes_cnt c
       else tx_log c' = tx_log c ++ [frame (_sent_bytes_cnt c) (_received_bytes_cnt c') []])
  | Raise e c' =>
      e = PyExn OverflowError /\
      _delivered_bytes_cnt c' = _delivered_bytes_cnt c /\ tx_log c' = tx_log c /\
      len (data segment) <> 0 /\
      ~ (u64 (_sent_bytes_cnt c) /\ u64 (_received_bytes_cnt c'))
  | Diverge => False
  end.
Proof.
  assert (Hrest : forall c1, exists c',
            (delivered <- gets _delivered_bytes_cnt ;;
             (if delivered <? ack_number segment then
                modify (set_delivered (ack_number segment)) ;;; _shift_send_window
              else ret tt) ;;; ret true) c1 = Ok true c' /\
            _delivered_bytes_cnt c' = Z.max (_delivered_bytes_cnt c1) (ack_number segment) /\
            tx_log c' = tx_log c1 /\ same_recv_side c1 c' /\
            _sent_bytes_cnt c' = _sent_bytes_cnt c1).
  { intros c1. erewrite bind_ok by reflexivity.
    destruct (_delivered_bytes_cnt c1 <? ack_number segment) eqn:E.
    - apply Z.ltb_lt in E.
      destruct (shift_send_loop_state (length (_send_window (set_delivered (ack_number segment) c1)))
                  (set_delivered (ack_number segment) c1)) as (q & Eq & _); [lia | ].
      eexists. split.
      + erewrite bind_ok; [reflexivity | ].
        erewrite bind_ok by reflexivity. unfold _shift_send_window.
        erewrite bind_ok by reflexivity. exact Eq.
      + relations. repeat split. lia.
    - apply Z.ltb_ge in E. eexists. split.
      + erewrite bind_ok by reflexivity. reflexivity.
      + relations. repeat split. lia. }
  unfold process_segment.
  destruct (len (data segment) =? 0) eqn:El; cbn [negb].
  - erewrite bind_ok by reflexivity. destruct (Hrest c) as (c' & -> & H). now split.
  - apply Z.eqb_neq in El.
    set (c1 := set_recv_window (pq_put (_recv_window c) (seq_number segment, segment)) c).
    destruct (shift_recv_loop_state (length (_recv_window c1)) None c1)
      as (fs & q & r & b & Eq & Hfs & _); [lia | ].
    assert (Hne : _recv_window c1 <> []).
    { subst c1. fields. intros H. apply (f_equal length) in H. unfold pq_put in H.
      rewrite heappush_length in H. discriminate. }
    destruct fs as [first|]; [ | exfalso; apply Hfs; [now left | reflexivity]].
    set (c2 := set_recv_window q (set_received r (set_buffer b c1))) in *.
    set (ack := mkSegment (_sent_bytes_cnt c) r [] false (clock w (clock_reads c))).
    set (c3 := set_clock_reads (S (clock_reads c)) c2).
    assert (Eshift : _shift_recv_window w c1 =
                     (_send_segment w ack ;;; ret tt) c3).
    { unfold _shift_recv_window. erewrite bind_ok by reflexivity.
      erewrite bind_ok by exact Eq. cbv iota beta.
      do 3 (erewrite bind_ok by reflexivity). reflexivity. }
    unfold bind at 1. unfold bind at 1. cbn [modify]. fold c1. rewrite Eshift.
    unfold bind at 1. rewrite _send_segment_unfold.
    destruct (dump_overflow ack) as [Hok Hbad].
    destruct (dump ack) as [e|d] eqn:Ed.
    + assert (Hn : ~ wire_ok ack).
      { intros H. destruct (Hok H) as (d & Ed' & _). discriminate. }
      pose proof (Hbad Hn) as Ee. injection Ee as ->. subst c3 c2 c1. fields.
      repeat split; assumption.
    + assert (Hw : wire_ok ack).
      { destruct (int_to_bytes 8 (seq_number ack)) eqn:E1;
          [unfold dump in Ed; rewrite E1 in Ed; discriminate | ].
        destruct (int_to_bytes 8 (ack_number ack)) eqn:E2;
          [unfold dump in Ed; rewrite E1, E2 in Ed; discriminate | ].
        unfold int_to_bytes in E1, E2. rewrite pow_256_8 in E1, E2.
        destruct ((0 <=? seq_number ack) && _) eqn:B1; [ | discriminate].
        destruct ((0 <=? ack_number ack) && _) eqn:B2; [ | discriminate].
        apply andb_true_iff in B1 as [? ?], B2 as [? ?]. unfold wire_ok, u64. lia. }
      rewrite (wire_ok_dump _ Hw) in Ed. injection Ed as <-.
      cbv zeta. subst c3 c2 c1 ack. fields. rewrite Z.eqb_refl. unfold keep_in_flight. fields.
      change (negb (len (@nil byte) =? 0)) with false. cbv iota. cbn [ret].
      match goal with |- context [bind _ _ ?c4] => destruct (Hrest c4) as (c' & E' & H) end.
      unfold bind at 1 in E'. unfold bind at 1. cbn [gets] in *. rewrite E'.
      relations. destruct H as (Hd & Ht & (Hr1 & Hr2 & Hr3) & Hs).
      split; [reflexivity | ]. split; [exact Hd | ]. rewrite Ht, Hr1. reflexivity.
Qed.

(** ** One call of [_receive_segment] *)

Lemma wire_seq_take d n : (8 <= n)%nat -> wire_seq (take n d) = wire_seq d.
Proof.
  intros H. unfold wire_seq, slice_to, slice_index. simpl.
  change (Z.to_nat 8) with 8%nat. rewrite take_take.
  now replace (8 `min` n)%nat with 8%nat by lia.
Qed.

(** [_receive_segment] when a datagram arrives: the segment it handles. *)
Lemma _receive_segment_arrival w timeout c d :
  recvfrom_result w (rx_calls c) = Some d ->
  _receive_segment w timeout c =
  process_segment w
    (mkSegment (wire_seq d) (wire_ack d) (wire_payload d) false (clock w (clock_reads c)))
    (set_clock_reads (S (clock_reads c)) (set_rx_calls (S (rx_calls c)) c)).
Proof.
  intros E. rewrite _receive_segment_unfold, E. cbv zeta.
  change (Z.to_nat (max_data_sz + 16)) with 1040%nat.
  fold (wire_seq (take 1040 d)). fold (wire_ack (take 1040 d)).
  rewrite wire_seq_take, wire_ack_take by lia. reflexivity.
Qed.

Lemma len_wire_payload d : len (wire_payload d) = Z.max 0 (Z.min (len d) 1040 - 16).
Proof.
  unfold wire_payload, slice_from, slice_index, len. cbn [Z.ltb Z.compare].
  change (Z.to_nat 16) with 16%nat. change (Z.to_nat (max_data_sz + 16)) with 1040%nat.
  rewrite length_drop, length_take. lia.
Qed.


(** X8. Acknowledgments are cumulative: when a datagram arrives and
    [_receive_segment] returns, it returns [True] and the delivered cursor is
    the larger of what it was and the acknowledgment number of the
    datagram. *)
Theorem receive_segment_cumulative_ack (w : World) (timeout : option Z)
    (c : MyTCPProtocol) (d : bytes) (b : bool) (c' : MyTCPProtocol) :
  recvfrom_result w (rx_calls c) = Some d ->
  _receive_segment w timeout c = Ok b c' ->
  b = true /\ _delivered_bytes_cnt c' = Z.max (_delivered_bytes_cnt c) (wire_ack d).
Proof.
  intros E H. rewrite (_receive_segment_arrival w timeout c d E) in H.
  match type of H with process_segment w ?s ?c1 = _ =>
    pose proof (process_segment_effect w s c1) as G end.
  rewrite H in G. destruct G as (-> & G & _). fields. now split.
Qed.

Lemma receive_segment_cumulative_ack_witness :
  exists c',
    _receive_segment (arrivals [frame 0 7 []]) None init = Ok true c' /\
    true = true /\ _delivered_bytes_cnt c' = Z.max (_delivered_bytes_cnt init) 7.
Proof.
  assert (E : exists c', _receive_segment (arrivals [frame 0 7 []]) None init = Ok true c')
    by (eexists; vm_compute; reflexivity).
  destruct E as (c' & E). exists c'. split; [exact E | ].
  apply (receive_segment_cumulative_ack (arrivals [frame 0 7 []]) None init (frame 0 7 []) true c');
    [reflexivity | exact E].
Defined.

(** X9. A datagram without payload (16 bytes or fewer) is never answered:
    [_receive_segment] returns [True], sends nothing, and leaves the
    received cursor, the receive window, the buffer and the sent cursor as
    they were. *)
Theorem receive_segment_pure_ack (w : World) (timeout : option Z)
    (c : MyTCPProtocol) (d : bytes) :
  recvfrom_result w (rx_calls c) = Some d ->
  (length d <= 16)%nat ->
  exists c',
    _receive_segment w timeout c = Ok true c' /\
    tx_log c' = tx_log c /\
    _received_bytes_cnt c' = _received_bytes_cnt c /\
    _recv_window c' = _recv_window c /\
    _buffer c' = _buffer c /\
    _sent_bytes_cnt c' = _sent_bytes_cnt c.
Proof.
  intros E Hl. rewrite (_receive_segment_arrival w timeout c d E).
  match goal with |- context [process_segment w ?s ?c1] =>
    pose proof (process_segment_effect w s c1) as H;
    destruct (process_segment w s c1) as [b c'|e c'|]; [ | | contradiction] end; fields.
  - assert (Hz : len (wire_payload d) = 0) by (rewrite len_wire_payload; unfold len; lia).
    rewrite Hz in H. cbn [Z.eqb] in H. destruct H as (-> & _ & Ht & (H1 & H2 & H3) & H4).
    exists c'. fields. now repeat split.
  - exfalso. destruct H as (_ & _ & _ & Hne & _). apply Hne.
    rewrite len_wire_payload. unfold len. lia.
Qed.

Lemma receive_segment_pure_ack_witness :
  exists c',
    _receive_segment (arrivals [frame 0 7 []]) None init = Ok true c' /\
    tx_log c' = tx_log init /\
    _received_bytes_cnt c' = _received_bytes_cnt init /\
    _recv_window c' = _recv_window init /\
    _buffer c' = _buffer init /\
    _sent_bytes_cnt c' = _sent_bytes_cnt init.
Proof.
  apply (receive_segment_pure_ack (arrivals [frame 0 7 []]) None init (frame 0 7 []));
    [reflexivity | cbn; lia].
Defined.

(** X10. Every datagram that carries payload is answered at once: when
    [_receive_segment] returns after such an arrival (in order, duplicate or
    ahead of a gap alike), it has sent exactly one datagram, an empty
    segment whose sequence number is the sent cursor and whose
    acknowledgment number is the received cursor after the arrival. *)
Theorem receive_segment_acknowledges (w : World) (timeout : option Z)
    (c : MyTCPProtocol) (d : bytes) (b : bool) (c' : MyTCPProtocol) :
  recvfrom_result w (rx_calls c) = Some d ->
  (16 < length d)%nat ->
  _receive_segment w timeout c = Ok b c' ->
  tx_log c' = tx_log c ++ [frame (_sent_bytes_cnt c) (_received_bytes_cnt c') []].
Proof.
  intros E Hl H. rewrite (_receive_segment_arrival w timeout c d E) in H.
  match type of H with process_segment w ?s ?c1 = _ =>
    pose proof (process_segment_effect w s c1) as G end.
  rewrite H in G. destruct G as (_ & _ & G). fields.
  destruct (len (wire_payload d) =? 0) eqn:Ez; [ | exact G].
  apply Z.eqb_eq in Ez. rewrite len_wire_payload in Ez. unfold len in Ez. lia.
Qed.

Lemma receive_segment_acknowledges_witness :
  exists c',
    _receive_segment (arrivals [frame 20 0 (ten_from 20)]) None ten_received = Ok true c' /\
    tx_log c' = tx_log ten_received
                ++ [frame (_sent_bytes_cnt ten_received) (_received_bytes_cnt c') []].
Proof.
  assert (E : exists c', _receive_segment (arrivals [frame 20 0 (ten_from 20)]) None ten_received
                         = Ok true c')
    by (eexists; vm_compute; reflexivity).
  destruct E as (c' & E). exists c'. split; [exact E | ].
  apply (receive_segment_acknowledges (arrivals [frame 20 0 (ten_from 20)]) None ten_received
           (frame 20 0 (ten_from 20)) true c'); [reflexivity | cbn; lia | exact E].
Defined.

(** X11. [_receive_segment] returns [False] exactly when [recvfrom] raised
    (a timeout, a closed socket), and then the connection is as it was: only
    the call to [recvfrom] was made. *)
Theorem receive_segment_timeout (w : World) (timeout : option Z) (c : MyTCPProtocol) :
  (recvfrom_result w (rx_calls c) = None ->
   _receive_segment w timeout c = Ok false (set_rx_calls (S (rx_calls c)) c)) /\
  (forall c', _receive_segment w timeout c = Ok false c' ->
   recvfrom_result w (rx_calls c) = None).
Proof.
  split.
  - intros E. rewrite _receive_segment_unfold, E. reflexivity.
  - intros c' H. exact (proj1 (_receive_segment_false w timeout c c' H)).
Qed.

(** ** What [send] reports *)

(** One turn of the loop of [send] moves [k] bytes, possibly none, from
    [data] to the count of bytes sent and to the sent cursor. *)
Lemma send_body_account w l c :
  header_accepted w -> send_window_ok c ->
  wp False (send_body w l)
    (fun l' c' =>
       send_window_ok c' /\
       exists k, 0 <= k <= len (l_data l) /\
         l_data l' = drop (Z.to_nat k) (l_data l) /\
         l_sent_data_len l' = l_sent_data_len l + k /\
         _sent_bytes_cnt c' = _sent_bytes_cnt c + k)
    (fun _ _ => True) c.
Proof.
  intros HA Hok. unfold send_body. do 2 wp_prim. apply wp_bind.
  destruct ((_ <=? _) && _) eqn:Ec.
  - apply carves_test in Ec. do 2 wp_prim. apply wp_bind.
    match goal with |- wp _ (_send_segment w ?s) _ _ ?c1 =>
      assert (Hok1 : send_window_ok c1) by exact Hok;
      pose proof (_send_segment_sent w s c1 HA Hok1 (or_introl eq_refl)) as H1;
      unfold wp in *;
      destruct (_send_segment w s c1) as [n c2|e c2|]; [ | exact I | contradiction] end.
    fields. rewrite Z.eqb_refl in H1. destruct H1 as (Hn & Hok2 & Hs).
    pose proof (len_nonneg (l_data l)) as Hl.
    rewrite len_slice_to in Hn by (unfold max_data_sz; lia).
    cbn [ret]. apply wp_bind.
    pose proof (_resend_first_segment_ends w c2 HA Hok2) as H3. unfold ends, wp in *.
    destruct (_resend_first_segment w c2) as [[] c3|e c3|]; [ | exact I | contradiction].
    cbn [ret]. relations. destruct H3 as ((T1 & T2 & T3) & _).
    split; [exact T3 | ]. exists n. cbn [l_data l_sent_data_len].
    split; [lia | ]. split.
    + unfold slice_from, slice_index. destruct (n <? 0) eqn:En; [apply Z.ltb_lt in En; lia | ].
      reflexivity.
    + split; [reflexivity | lia].
  - apply wp_bind.
    pose proof (_receive_segment_ends w (Some ACK_TIMEOUT) c) as H1. unfold ends, wp in *.
    destruct (_receive_segment w (Some ACK_TIMEOUT) c) as [arrived c1|e c1|];
      [ | exact I | contradiction].
    destruct H1 as (_ & _ & H1). destruct (H1 HA) as (S1 & S2 & S3).
    assert (Hok1 : send_window_ok c1).
    { apply send_window_ok_all. rewrite S1. apply S3, Hok. }
    cbn [ret]. apply wp_bind.
    pose proof (_resend_first_segment_ends w c1 HA Hok1) as H3. unfold ends, wp in *.
    destruct (_resend_first_segment w c1) as [[] c2|e c2|]; [ | exact I | contradiction].
    cbn [ret]. relations. destruct H3 as ((T1 & T2 & T3) & _).
    split; [exact T3 | ]. exists 0. cbn [l_data l_sent_data_len].
    pose proof (len_nonneg (l_data l)). repeat split; try lia. 
Qed.

Lemma send_loop_account w fuel l c n c' :
  header_accepted w -> send_window_ok c ->
  send_loop w fuel l c = Ok n c' ->
  exists k, 0 <= k <= len (l_data l) /\
    n = l_sent_data_len l + k /\ _sent_bytes_cnt c' = _sent_bytes_cnt c + k.
Proof.
  intros HA. revert l c. induction fuel as [|fuel IH]; intros l c Hok;
    pose proof (len_nonneg (l_data l)) as Hl;
    cbn [send_loop]; destruct (send_guard l c); try discriminate;
    try (intros [= <- <-]; exists 0; repeat split; lia).
  unfold bind. pose proof (send_body_account w l c HA Hok) as H. unfold wp in H.
  destruct (send_body w l c) as [l1 c1|e c1|]; try discriminate.
  destruct H as (Hok1 & k1 & Hk1 & Hd & Hs & Hc). intros E.
  destruct (IH l1 c1 Hok1 E) as (k2 & Hk2 & Hn & Hc2).
  assert (Hlen : len (l_data l1) = len (l_data l) - k1).
  { rewrite Hd. unfold len. rewrite length_drop. unfold len in Hk1. lia. }
  exists (k1 + k2). repeat split; lia.
Qed.

(** X12. With a transport that takes the header of every datagram and a
    send window below the sent cursor: when [send(data)] returns [n], then
    [0 <= n <= len(data)] and the sent cursor has advanced by exactly [n];
    retransmissions and acknowledgments sent during the call do not count
    and do not move it. *)
Theorem send_reports_cursor_advance (w : World) (fuel : nat) (d : bytes)
    (c : MyTCPProtocol) (n : Z) (c' : MyTCPProtocol) :
  header_accepted w ->
  send_window_ok c ->
  send w fuel d c = Ok n c' ->
  0 <= n <= len d /\ _sent_bytes_cnt c' = _sent_bytes_cnt c + n.
Proof.
  intros HA Hok H.
  destruct (send_loop_account w fuel _ c n c' HA Hok H) as (k & Hk & Hn & Hc).
  cbn [l_data l_sent_data_len] in *. split; lia.
Qed.

Lemma send_reports_cursor_advance_witness :
  exists n c',
    send (arrivals [frame 0 5 []]) 10 hello init = Ok n c' /\
    0 <= n <= len hello /\ _sent_bytes_cnt c' = _sent_bytes_cnt init + n.
Proof.
  assert (E : exists n c', send (arrivals [frame 0 5 []]) 10 hello init = Ok n c')
    by (vm_compute; eexists _, _; reflexivity).
  destruct E as (n & c' & E). exists n, c'. split; [exact E | ].
  apply (send_reports_cursor_advance (arrivals [frame 0 5 []]) 10 hello init n c').
  - intros i. unfold arrivals, whole_datagrams. simpl. lia.
  - constructor.
  - exact E.
Defined.

(** ** What [recv] returns *)

Lemma recv_loop_bound w fuel data_sz d0 c r c' :
  recv_loop w fuel data_sz d0 c = Ok r c' ->
  len r <= Z.max (len d0) (2 * data_sz - 1).
Proof.
  revert d0 c. induction fuel as [|fuel IH]; intros d0 c; cbn [recv_loop];
    destruct (len d0 <? data_sz) eqn:E; try discriminate;
    try (intros [= <- <-]; lia).
  apply Z.ltb_lt in E.
  set (d1 := d0 ++ slice_to (_buffer c) (Z.min data_sz (len (_buffer c)))).
  assert (Hd1 : len d1 <= 2 * data_sz - 1).
  { subst d1. rewrite len_app. pose proof (len_nonneg d0). pose proof (len_nonneg (_buffer c)).
    rewrite len_slice_to by lia. lia. }
  destruct (len d1 <? data_sz).
  - unfold bind. destruct (_receive_segment w None _) as [b c1|e c1|]; try discriminate.
    intros H. apply IH in H. lia.
  - intros H. apply IH in H. lia.
Qed.

(** X13. When [recv(n)] returns, it returns at least [n] bytes and fewer
    than [2 n]; for [n <= 0] it returns the empty string at once and the
    connection is as it was. *)
Theorem recv_length_bounds (w : World) (fuel : nat) (data_sz : Z) (c : MyTCPProtocol) :
  (forall r c', recv w fuel data_sz c = Ok r c' ->
     data_sz <= len r /\ (0 < data_sz -> len r < 2 * data_sz)) /\
  (data_sz <= 0 -> recv w fuel data_sz c = Ok [] c).
Proof.
  split.
  - intros r c' H. split; [exact (recv_loop_at_least w fuel data_sz [] c r c' H) | ].
    intros Hpos. apply recv_loop_bound in H. change (len (@nil byte)) with 0 in H. lia.
  - intros H. unfold recv.
    assert (E : (len (@nil byte) <? data_sz) = false) by (apply Z.ltb_ge; exact H).
    destruct fuel; cbn [recv_loop]; now rewrite E.
Qed.

(** A call of [recv] that the buffer can serve. *)
Lemma recv_buffered w fuel data_sz c :
  0 < data_sz <= len (_buffer c) ->
  (0 < fuel)%nat ->
  recv w fuel data_sz c
  = Ok (take (Z.to_nat data_sz) (_buffer c))
       (set_buffer (drop (Z.to_nat data_sz) (_buffer c)) c).
Proof.
  intros [H0 H1] Hf. destruct fuel as [|fuel]; [lia | ]. unfold recv. cbn [recv_loop].
  change (len (@nil byte)) with 0.
  destruct (0 <? data_sz) eqn:E; [ | apply Z.ltb_ge in E; lia].
  rewrite Z.min_l by lia. cbn [app].
  unfold slice_to, slice_from, slice_index.
  destruct (data_sz <? 0) eqn:E'; [apply Z.ltb_lt in E'; lia | ].
  assert (Hlen : len (take (Z.to_nat data_sz) (_buffer c)) = data_sz).
  { unfold len in *. rewrite length_take. lia. }
  rewrite Hlen, Z.ltb_irrefl.
  destruct fuel; cbn [recv_loop]; now rewrite Hlen, Z.ltb_irrefl.
Qed.

(** X14. When the buffer already holds the [n > 0] bytes asked for,
    [recv(n)] returns exactly the first [n] bytes of the buffer, leaves the
    rest in it, and asks the socket for nothing. *)
Theorem recv_from_buffer (w : World) (fuel : nat) (data_sz : Z) (c : MyTCPProtocol) :
  0 < data_sz <= len (_buffer c) ->
  (0 < fuel)%nat ->
  recv w fuel data_sz c
  = Ok (take (Z.to_nat data_sz) (_buffer c))
       (set_buffer (drop (Z.to_nat data_sz) (_buffer c)) c).
Proof. exact (recv_buffered w fuel data_sz c). Qed.

Lemma recv_from_buffer_witness :
  recv silent_world 1 3 (set_buffer hello init)
  = Ok (take 3 hello) (set_buffer (drop 3 hello) (set_buffer hello init)).
Proof.
  apply (recv_from_buffer silent_world 1 3 (set_buffer hello init)); [ | lia].
  unfold len. simpl. lia.
Defined.

(** ** Retransmission, continued *)

(** X15. [_resend_first_segment] sends nothing before the deadline: when the
    send window is empty, or the segment that [get] hands out is acknowledged
    or was stamped less than [ACK_TIMEOUT] ago, the call returns without a
    datagram sent, the cursors, the receive side and the size of the send
    window are what they were, and the send window holds only segments it
    had. (A segment stamped exactly [ACK_TIMEOUT] ago is left out: there the
    code decides on the rounding of its floating-point readings.) *)
Theorem resend_not_due (w : World) (c : MyTCPProtocol) :
  (forall k first rest,
     pq_get (_send_window c) = Some ((k, first), rest) ->
     acknowledged first = true
     \/ clock w (clock_reads c) - _sending_time first < ACK_TIMEOUT) ->
  exists c',
    _resend_first_segment w c = Ok tt c' /\
    tx_log c' = tx_log c /\
    _sent_bytes_cnt c' = _sent_bytes_cnt c /\
    _delivered_bytes_cnt c' = _delivered_bytes_cnt c /\
    same_recv_side c c' /\
    length (_send_window c') = length (_send_window c) /\
    forall e, e ∈ _send_window c' -> e.2 ∈ map snd (_send_window c).
Proof.
  intros Hdue. unfold _resend_first_segment. erewrite bind_ok by reflexivity.
  destruct (pq_get (_send_window c)) as [[[k first] rest]|] eqn:E.
  - pose proof (pq_get_length _ _ _ E) as Hl.
    assert (Hin : forall q, q = pq_put rest (seq_number first, first) ->
              length q = length (_send_window c) /\
              forall e, e ∈ q -> e.2 ∈ map snd (_send_window c)).
    { intros q ->. split; [unfold pq_put; rewrite heappush_length; lia | ].
      assert (H0 : window_all (fun s => s ∈ map snd (_send_window c)) (_send_window c)).
      { apply Forall_forall. intros x Hx. apply list_elem_of_fmap. now exists x. }
      destruct (pq_get_all _ _ _ _ E H0) as [H1 H2]. cbn [snd] in H1.
      intros e He.
      exact (proj1 (Forall_forall _ _) (pq_put_all _ rest (seq_number first) first H2 H1) e He). }
    erewrite bind_ok by reflexivity. unfold expired.
    destruct (Hdue k first rest eq_refl) as [Ha | Ht].
    + rewrite Ha. cbn [negb]. erewrite bind_ok by reflexivity. cbv iota.
      eexists. split; [reflexivity | ]. unfold same_recv_side. fields.
      destruct (Hin _ eq_refl) as [H1 H2]. now repeat split.
    + destruct (negb (acknowledged first)).
      * erewrite bind_ok; cycle 1. { erewrite bind_ok by reflexivity. reflexivity. }
        fields. replace (ACK_TIMEOUT <? _) with false by (symmetry; apply Z.ltb_ge; lia).
        eexists. split; [reflexivity | ]. unfold same_recv_side. fields.
        destruct (Hin _ eq_refl) as [H1 H2]. now repeat split.
      * erewrite bind_ok by reflexivity. cbv iota.
        eexists. split; [reflexivity | ]. unfold same_recv_side. fields.
        destruct (Hin _ eq_refl) as [H1 H2]. now repeat split.
  - exists c. unfold same_recv_side. repeat split. intros e He.
    apply list_elem_of_fmap. now exists e.
Qed.

Lemma resend_not_due_witness :
  let first := mkSegment 0 0 hello false 0 in
  let c := set_clock_reads 5 (set_send_window [(0, first)] (set_sent 5 init)) in
  pq_get (_send_window c) = Some ((0, first), []) /\
  acknowledged first = false /\
  clock silent_world (clock_reads c) - _sending_time first = 5000 /\
  exists c',
    _resend_first_segment silent_world c = Ok tt c' /\
    tx_log c' = tx_log c /\
    _sent_bytes_cnt c' = _sent_bytes_cnt c /\
    _delivered_bytes_cnt c' = _delivered_bytes_cnt c /\
    same_recv_side c c' /\
    length (_send_window c') = length (_send_window c) /\
    forall e, e ∈ _send_window c' -> e.2 ∈ map snd (_send_window c).
Proof.
  cbv zeta. split; [reflexivity | ]. split; [reflexivity | ]. split; [reflexivity | ].
  apply (resend_not_due silent_world
           (set_clock_reads 5 (set_send_window [(0, mkSegment 0 0 hello false 0)]
                                 (set_sent 5 init)))).
  intros k first rest H. injection H as <- <- <-. right. vm_compute. reflexivity.
Defined.

(** X16. Retransmission after the deadline: when the segment that [get]
    hands out is not acknowledged, was stamped more than [ACK_TIMEOUT] ago,
    lies below the sent cursor and is taken whole by the transport, exactly
    one datagram goes out, the encoding of that segment with its sequence
    number and payload unchanged; the segment goes back into the send window
    with a new time stamp, and the cursors stay. *)
Theorem resend_due (w : World) (c : MyTCPProtocol) (k : Z) (first : TCPSegment)
    (rest : PriorityQueue) (d : bytes) :
  pq_get (_send_window c) = Some ((k, first), rest) ->
  acknowledged first = false ->
  ACK_TIMEOUT < clock w (clock_reads c) - _sending_time first ->
  dump first = inr d ->
  data first <> [] ->
  seq_number first < _sent_bytes_cnt c ->
  (N.of_nat (length d) <= sendto_accepts w (length (tx_log c)))%N ->
  exists c',
    _resend_first_segment w c = Ok tt c' /\
    tx_log c' = tx_log c ++ [d] /\
    _send_window c'
    = pq_put rest (seq_number first,
                   set_sending_time (clock w (S (clock_reads c))) first) /\
    _sent_bytes_cnt c' = _sent_bytes_cnt c /\
    _delivered_bytes_cnt c' = _delivered_bytes_cnt c /\
    same_recv_side c c'.
Proof.
  intros E Ha Ht Hd Hne Hs Hcap.
  unfold _resend_first_segment. erewrite bind_ok by reflexivity. rewrite E.
  erewrite bind_ok by reflexivity. unfold expired. rewrite Ha. cbn [negb].
  erewrite bind_ok; cycle 1. { erewrite bind_ok by reflexivity. reflexivity. }
  fields. replace (ACK_TIMEOUT <? _) with true by (symmetry; apply Z.ltb_lt; lia).
  assert (Hlen : Z.of_N (N.min (sendto_accepts w (length (tx_log c))) (N.of_nat (length d))) - 16
                 = len (data first)).
  { apply dump_length in Hd. unfold len. lia. }
  assert (Hz : (len (data first) =? 0) = false) by (apply Z.eqb_neq; now rewrite len_zero).
  erewrite bind_ok; cycle 1.
  { rewrite _send_segment_unfold, Hd. cbv zeta. fields. rewrite Hlen.
    destruct (seq_number first =? _sent_bytes_cnt c) eqn:E1; [apply Z.eqb_eq in E1; lia | ].
    destruct (_sent_bytes_cnt c <? seq_number first) eqn:E2; [apply Z.ltb_lt in E2; lia | ].
    unfold keep_in_flight. rewrite Hz. cbn [negb]. reflexivity. }
  eexists. split; [reflexivity | ]. unfold same_recv_side. fields.
  repeat split. f_equal. f_equal.
  unfold slice_to, slice_index. destruct (len (data first) <? 0) eqn:E3.
  - apply Z.ltb_lt in E3. pose proof (len_nonneg (data first)). lia.
  - unfold len. rewrite Nat2Z.id, firstn_all. now destruct first.
Qed.

Lemma resend_due_witness :
  let first := mkSegment 0 0 hello false 0 in
  let c := set_clock_reads 20 (set_send_window [(0, first)] (set_sent 5 init)) in
  exists c',
    _resend_first_segment silent_world c = Ok tt c' /\
    tx_log c' = tx_log c ++ [frame 0 0 hello] /\
    _send_window c'
    = pq_put [] (seq_number first,
                 set_sending_time (clock silent_world (S (clock_reads c))) first) /\
    _sent_bytes_cnt c' = _sent_bytes_cnt c /\
    _delivered_bytes_cnt c' = _delivered_bytes_cnt c /\
    same_recv_side c c'.
Proof.
  cbv zeta.
  apply (resend_due silent_world
           (set_clock_reads 20 (set_send_window [(0, mkSegment 0 0 hello false 0)]
                                  (set_sent 5 init)))
           0 (mkSegment 0 0 hello false 0) [] (frame 0 0 hello)).
  - reflexivity.
  - reflexivity.
  - reflexivity.
  - reflexivity.
  - discriminate.
  - reflexivity.
  - vm_compute. discriminate.
Defined.

(** ** The invariants, in every state *)

(** X17. With a transport that takes the header of every datagram, in every
    state that a connection reaches from a fresh one through calls of [send]
    and [recv] that return: at most [window_sz + max_data_sz] bytes are in
    flight, and every segment of the send window ends at or below the sent
    cursor. *)
Theorem window_invariant_reachable (w : World) (c : MyTCPProtocol) :
  header_accepted w ->
  reachable w c ->
  _sent_bytes_cnt c - _delivered_bytes_cnt c <= window_sz + max_data_sz /\
  forall e, e ∈ _send_window c ->
    seq_number e.2 + len (data e.2) <= _sent_bytes_cnt c.
Proof.
  intros HA Hr. destruct (reachable_window w c HA Hr) as [Hok Hb]. split; [exact Hb | ].
  intros e He. exact (proj1 (Forall_forall _ _) Hok e He).
Qed.

Lemma window_invariant_reachable_witness :
  exists n c',
    send (arrivals [frame 0 5 []]) 10 hello init = Ok n c' /\
    _sent_bytes_cnt c' - _delivered_bytes_cnt c' <= window_sz + max_data_sz /\
    forall e, e ∈ _send_window c' ->
      seq_number e.2 + len (data e.2) <= _sent_bytes_cnt c'.
Proof.
  assert (E : exists n c', send (arrivals [frame 0 5 []]) 10 hello init = Ok n c')
    by (vm_compute; eexists _, _; reflexivity).
  destruct E as (n & c' & E). exists n, c'. split; [exact E | ].
  apply (window_invariant_reachable (arrivals [frame 0 5 []]) c').
  - intros i. unfold arrivals, whole_datagrams. simpl. lia.
  - exact (reachable_send _ 10 hello init n c' (reachable_init _) E).
Defined.

(** ** The received cursor *)

Lemma contiguous_len k segs k' :
  contiguous k segs k' -> k' = k + len (concat (map data segs)).
Proof.
  revert k. induction segs as [|s segs IH]; intros k; cbn [contiguous map concat].
  - intros ->. change (len (@nil byte)) with 0. lia.
  - intros [_ H]. apply IH in H. rewrite len_app. lia.
Qed.

Lemma delivers_count c c' :
  delivers c c' ->
  _received_bytes_cnt c' - _received_bytes_cnt c = len (_buffer c') - len (_buffer c).
Proof.
  intros (segs & Hc & Hb). apply contiguous_len in Hc. rewrite Hb, len_app. lia.
Qed.

(** Over a run, the received cursor advances by the count of the bytes that
    entered the buffer. *)
Lemma stream_run_count w c out c' :
  stream_run w c out c' ->
  _received_bytes_cnt c' - _received_bytes_cnt c
  = len out + len (_buffer c') - len (_buffer c).
Proof.
  intros Hr.
  induction Hr as [ | out c1 timeout c2 Hr IH E
                    | out c1 fuel d n c2 Hr IH E
                    | out c1 fuel data_sz d c2 Hr IH E ].
  - change (len (@nil byte)) with 0. lia.
  - destruct (_receive_segment_in_order w timeout c1) as (c2' & E' & Hd).
    assert (c2' = c2) as -> by congruence. apply delivers_count in Hd. lia.
  - pose proof (delivers_count _ _ (send_loop_delivers w fuel _ c1 n c2 E)). lia.
  - destruct (recv_loop_stream_order w fuel data_sz [] c1 d c2 E) as (segs & Hc & Hb).
    apply contiguous_len in Hc. cbn [app] in Hb.
    apply (f_equal len) in Hb. rewrite !len_app in Hb. rewrite len_app. lia.
Qed.

(** X18. On a connection that started fresh, after any run of arrivals and
    of calls of [send] and [recv], the received cursor is the count of the
    bytes delivered so far: those the application has read plus those
    waiting in the buffer. *)
Theorem received_cursor_counts_delivered (w : World) (out : bytes) (c' : MyTCPProtocol) :
  stream_run w init out c' ->
  _received_bytes_cnt c' = len out + len (_buffer c').
Proof.
  intros Hr. apply stream_run_count in Hr.
  change (_received_bytes_cnt init) with 0 in Hr. change (len (_buffer init)) with 0 in Hr. lia.
Qed.

(** X19. The received cursor never goes back, whatever arrives in whatever
    order and whatever calls are made. *)
Theorem received_cursor_monotone (w : World) (c : MyTCPProtocol) (out : bytes)
    (c' : MyTCPProtocol) :
  stream_run w c out c' ->
  _received_bytes_cnt c <= _received_bytes_cnt c'.
Proof.
  intros Hr.
  induction Hr as [ | out c1 timeout c2 Hr IH E
                    | out c1 fuel d n c2 Hr IH E
                    | out c1 fuel data_sz d c2 Hr IH E ].
  - lia.
  - destruct (_receive_segment_in_order w timeout c1) as (c2' & E' & segs & Hc & _).
    assert (c2' = c2) as -> by congruence. apply contiguous_len in Hc.
    pose proof (len_nonneg (concat (map data segs))). lia.
  - destruct (send_loop_delivers w fuel _ c1 n c2 E) as (segs & Hc & _).
    apply contiguous_len in Hc. pose proof (len_nonneg (concat (map data segs))). lia.
  - destruct (recv_loop_stream_order w fuel data_sz [] c1 d c2 E) as (segs & Hc & _).
    apply contiguous_len in Hc. pose proof (len_nonneg (concat (map data segs))). lia.
Qed.

Lemma gap_run :
  exists c3,
    stream_run (arrivals [frame 20 0 (ten_from 20); frame 10 0 (ten_from 10)])
      ten_received (ten_from 10 ++ ten_from 20) c3.
Proof.
  destruct gap_then_fill as (c1 & c2 & E1 & _ & _ & _ & E2 & Hb & _ & _).
  assert (E3 : exists c3, recv (arrivals [frame 20 0 (ten_from 20); frame 10 0 (ten_from 10)])
                            1 20 c2 = Ok (ten_from 10 ++ ten_from 20) c3).
  { unfold recv. cbn [recv_loop]. rewrite Hb. eexists. vm_compute. reflexivity. }
  destruct E3 as (c3 & E3). exists c3.
  apply (run_recv _ _ [] c2 1 20 _ c3); [ | exact E3].
  apply (run_arrival _ _ [] c1 None c2); [ | now rewrite E2].
  apply (run_arrival _ _ [] ten_received None c1); [apply run_start | now rewrite E1].
Defined.

Lemma received_cursor_monotone_witness :
  exists c3,
    stream_run (arrivals [frame 20 0 (ten_from 20); frame 10 0 (ten_from 10)])
      ten_received (ten_from 10 ++ ten_from 20) c3 /\
    _received_bytes_cnt ten_received <= _received_bytes_cnt c3.
Proof.
  destruct gap_run as (c3 & Hr). exists c3. split; [exact Hr | ].
  exact (received_cursor_monotone _ _ _ _ Hr).
Defined.

Lemma fresh_run :
  exists c2,
    stream_run (arrivals [frame 0 0 hello]) init (take 3 hello) c2.
Proof.
  assert (E1 : exists c1, _receive_segment (arrivals [frame 0 0 hello]) None init = Ok true c1 /\
                          _buffer c1 = hello)
    by (eexists; split; vm_compute; reflexivity).
  destruct E1 as (c1 & E1 & Hb).
  assert (E2 : recv (arrivals [frame 0 0 hello]) 1 3 c1
               = Ok (take 3 hello) (set_buffer (drop 3 hello) c1)).
  { rewrite <- Hb. apply recv_buffered; [rewrite Hb; unfold len; simpl; lia | lia]. }
  eexists. apply (run_recv _ _ [] c1 1 3 _ _); [ | exact E2].
  apply (run_arrival _ _ [] init None c1); [apply run_start | now rewrite E1].
Defined.

Lemma received_cursor_counts_delivered_witness :
  exists c2,
    stream_run (arrivals [frame 0 0 hello]) init (take 3 hello) c2 /\
    _received_bytes_cnt c2 = len (take 3 hello) + len (_buffer c2).
Proof.
  destruct fresh_run as (c2 & Hr). exists c2. split; [exact Hr | ].
  exact (received_cursor_counts_delivered _ _ _ Hr).
Defined.

(** ** The order of the heap *)

Lemma parent_lt j : (0 < j)%nat -> (parent j < j)%nat.
Proof.
  intros H. unfold parent.
  assert ((j - 1) / 2 <= j - 1)%nat by (apply Nat.Div0.div_le_upper_bound; lia). lia.
Qed.

Lemma parent_children j p :
  (0 < j)%nat -> parent j = p <-> j = (2 * p + 1)%nat \/ j = (2 * p + 2)%nat.
Proof.
  intros H. unfold parent.
  pose proof (Nat.div_mod_eq (j - 1) 2) as E.
  pose proof (Nat.mod_upper_bound (j - 1) 2 ltac:(lia)) as B.
  split.
  - intros <-. lia.
  - intros [-> | ->].
    + replace (2 * p + 1 - 1)%nat with (p * 2)%nat by lia. now rewrite Nat.div_mul.
    + replace (2 * p + 2 - 1)%nat with (1 + p * 2)%nat by lia.
      rewrite Nat.div_add by lia. reflexivity.
Qed.

Section HeapOrder.
Context {T : Type}.
Variable lt : T -> T -> bool.
Hypothesis lt_asym : forall x y, lt x y = true -> lt y x = false.
Hypothesis hle_trans : forall x y z, hle lt x y -> hle lt y z -> hle lt x z.

Lemma hle_refl x : hle lt x x.
Proof. unfold hle. destruct (lt x x) eqn:E; [ | reflexivity]. now rewrite (lt_asym x x E) in E. Qed.

Ltac lookups :=
  repeat first
    [ rewrite list_lookup_insert_eq in * by (rewrite ?length_insert; lia)
    | rewrite list_lookup_insert_ne in * by lia ].

(** The root of a heap is not after any entry. *)
Lemma heap_ok_root (h : list T) r i x :
  heap_ok lt h -> h !! 0%nat = Some r -> h !! i = Some x -> hle lt r x.
Proof.
  intros Hok Hr. revert x. induction i as [i IH] using lt_wf_ind. intros x Hx.
  destruct i as [|i].
  - assert (x = r) as -> by congruence. apply hle_refl.
  - pose proof (parent_lt (S i) ltac:(lia)) as Hp.
    destruct (h !! parent (S i)) as [p|] eqn:Ep.
    + apply (hle_trans r p x); [exact (IH _ Hp p Ep) | ].
      apply (Hok (S i) p x); [lia | exact Hx | exact Ep].
    + apply lookup_ge_None in Ep. apply lookup_lt_Some in Hx. lia.
Qed.

(** One turn of the loop of [_siftdown]: the entry at [pos] is before its
    parent and changes places with it. *)
Lemma heap_ok_but_up (L : list T) pos a b :
  (0 < pos)%nat -> L !! pos = Some a -> L !! parent pos = Some b ->
  lt a b = true ->
  heap_ok_but lt L pos ->
  heap_ok_but lt (<[parent pos := a]> (<[pos := b]> L)) (parent pos).
Proof.
  intros Hpos Ha Hb Hlt [HA HB].
  pose proof (parent_lt pos Hpos) as Hp.
  pose proof (lookup_lt_Some _ _ _ Ha) as Hlen.
  pose proof (lt_asym _ _ Hlt : hle lt a b) as Hab.
  split.
  - intros j x y Hj Hne Hy Hx. pose proof (parent_lt j Hj) as Hpj.
    destruct (decide (j = pos)) as [-> | Hjp].
    + lookups. congruence.
    + lookups. destruct (decide (parent j = pos)) as [Epj | Npj].
      * rewrite Epj in Hx. lookups. assert (x = b) as -> by congruence.
        apply (HB j b y); auto.
      * destruct (decide (parent j = parent pos)) as [Epp | Npp].
        -- rewrite Epp in Hx. lookups. assert (x = a) as -> by congruence.
           apply (hle_trans a b y); [exact Hab | ].
           apply (HA j b y); auto. now rewrite Epp.
        -- lookups. apply (HA j x y); auto.
  - intros j x y Hj Hpp Epj Hy Hx. pose proof (parent_lt j Hj) as Hpj.
    pose proof (parent_lt (parent pos) Hpp) as Hppp. lookups.
    assert (Hxb : hle lt x b) by (apply (HA (parent pos) x b); auto; lia).
    destruct (decide (j = pos)) as [-> | Hjp].
    + lookups. congruence.
    + lookups. apply (hle_trans x b y); [exact Hxb | ].
      apply (HA j b y); auto. now rewrite Epj.
Qed.

(** The loop of [_siftdown] stops: the entry at [pos] is at the root or is
    not before its parent. *)
Lemma heap_ok_but_stop (L : list T) pos a :
  L !! pos = Some a ->
  (pos = 0%nat \/ exists b, L !! parent pos = Some b /\ lt a b = false) ->
  heap_ok_but lt L pos -> heap_ok lt L.
Proof.
  intros Ha Hstop [HA HB] j x y Hj Hy Hx.
  destruct (decide (j = pos)) as [-> | Hne]; [ | apply (HA j x y); auto].
  destruct Hstop as [-> | (b & Hb & Hlt)]; [lia | ].
  assert (y = a) as -> by congruence. assert (x = b) as -> by congruence. exact Hlt.
Qed.

(** The loop of [_siftdown] from [pos] to the root: once [newitem] is
    written where the loop stops, the list is a heap. *)
Lemma siftdown_loop_ok fuel (heap : list T) newitem pos :
  (pos <= fuel)%nat -> (pos < length heap)%nat ->
  heap_ok_but lt (<[pos := newitem]> heap) pos ->
  heap_ok lt (<[(siftdown_loop lt fuel heap newitem 0 pos).2 := newitem]>
                (siftdown_loop lt fuel heap newitem 0 pos).1).
Proof.
  revert heap pos. induction fuel as [|fuel IH]; intros heap pos Hf Hlen Hbut.
  - cbn. apply (heap_ok_but_stop _ pos newitem); [ | left; lia | exact Hbut].
    apply list_lookup_insert_eq. lia.
  - assert (HLpos : <[pos := newitem]> heap !! pos = Some newitem)
      by (apply list_lookup_insert_eq; lia).
    cbn [siftdown_loop]. destruct (0 <? pos)%nat eqn:Ep.
    2:{ apply Nat.ltb_ge in Ep. cbn.
        apply (heap_ok_but_stop _ pos newitem); [exact HLpos | left; lia | exact Hbut]. }
    apply Nat.ltb_lt in Ep. fold (parent pos). pose proof (parent_lt pos Ep) as Hp.
    destruct (heap !! parent pos) as [par|] eqn:Epar.
    2:{ apply lookup_ge_None in Epar. lia. }
    assert (HLpar : <[pos := newitem]> heap !! parent pos = Some par)
      by (rewrite list_lookup_insert_ne by lia; exact Epar).
    destruct (lt newitem par) eqn:El.
    + apply IH; [lia | rewrite length_insert; lia | ].
      pose proof (heap_ok_but_up _ pos newitem par Ep HLpos HLpar El Hbut) as H.
      now rewrite list_insert_insert_eq in H.
    + cbn. apply (heap_ok_but_stop _ pos newitem); [exact HLpos | | exact Hbut].
      right. exists par. now split.
Qed.

Lemma siftdown_ok (heap : list T) pos :
  heap_ok_but lt heap pos -> heap_ok lt (siftdown lt heap 0 pos).
Proof.
  intros Hbut. unfold siftdown. destruct (heap !! pos) as [newitem|] eqn:E.
  - pose proof (lookup_lt_Some _ _ _ E) as Hlen.
    pose proof (siftdown_loop_ok pos heap newitem pos (le_n _) Hlen) as H.
    rewrite (list_insert_id heap pos newitem E) in H. specialize (H Hbut).
    now destruct (siftdown_loop lt pos heap newitem 0 pos).
  - apply lookup_ge_None in E. destruct Hbut as [HA _].
    intros j x y Hj Hy Hx. apply (HA j x y); auto.
    apply lookup_lt_Some in Hy. lia.
Qed.

(** [heappush] keeps the heap a heap. *)
Lemma heappush_ok (heap : list T) item :
  heap_ok lt heap -> heap_ok lt (heappush lt heap item).
Proof.
  intros Hok. apply siftdown_ok. split.
  - intros j x y Hj Hne Hy Hx. pose proof (parent_lt j Hj).
    pose proof (lookup_lt_Some _ _ _ Hy) as Hl. rewrite length_app in Hl. cbn in Hl.
    rewrite lookup_app_l in Hy, Hx by lia. apply (Hok j x y); auto.
  - intros j x y Hj Hpos Epj Hy Hx. pose proof (parent_lt j Hj).
    apply lookup_lt_Some in Hy. rewrite length_app in Hy. cbn in Hy. lia.
Qed.

(** One turn of the loop of [_siftup]: the smaller child [c], at [cp],
    moves up to the hole at [pos]. *)
Lemma heap_hole_down (h : list T) pos cp c :
  (cp = 2 * pos + 1 \/ cp = 2 * pos + 2)%nat ->
  h !! cp = Some c ->
  (forall j y, (j = 2 * pos + 1 \/ j = 2 * pos + 2)%nat -> h !! j = Some y -> hle lt c y) ->
  heap_hole lt h pos ->
  heap_hole lt (<[pos := c]> h) cp.
Proof.
  intros Hcp Hc Hmin [HA HB].
  pose proof (lookup_lt_Some _ _ _ Hc) as Hlen.
  assert (Ecp : parent cp = pos) by (apply parent_children; lia).
  split.
  - intros j x y Hj Hne Hnp Hy Hx. pose proof (parent_lt j Hj) as Hpj.
    destruct (decide (j = pos)) as [-> | Hjp].
    + lookups. assert (y = c) as -> by congruence.
      apply (HB cp x c); auto; lia.
    + lookups. destruct (decide (parent j = pos)) as [Epj | Npj].
      * rewrite Epj in Hx. lookups. assert (x = c) as -> by congruence.
        apply (Hmin j y); [ | exact Hy]. apply parent_children; auto.
      * lookups. apply (HA j x y); auto.
  - intros j x y Hj Hpos Epj Hy Hx. pose proof (parent_lt j Hj) as Hpj.
    rewrite Ecp in Hx. lookups. assert (x = c) as -> by congruence.
    apply (HA j c y); auto; try lia. now rewrite Epj.
Qed.

(** The hole has reached a leaf: any entry may fill it, the list is
    then a heap but for that entry. *)
Lemma heap_hole_leaf (h : list T) pos newitem :
  (length h <= 2 * pos + 1)%nat ->
  heap_hole lt h pos -> heap_ok_but lt (<[pos := newitem]> h) pos.
Proof.
  intros Hleaf [HA HB]. split.
  - intros j x y Hj Hne Hy Hx. pose proof (parent_lt j Hj) as Hpj.
    pose proof (lookup_lt_Some _ _ _ Hy) as Hl. rewrite length_insert in Hl.
    assert (parent j <> pos).
    { intros E. apply parent_children in E; lia. }
    lookups. apply (HA j x y); auto.
  - intros j x y Hj Hpos Epj Hy Hx.
    pose proof (lookup_lt_Some _ _ _ Hy) as Hl. rewrite length_insert in Hl.
    apply parent_children in Epj; lia.
Qed.

(** The loop of [_siftup] takes the hole down to a leaf. *)
Lemma siftup_loop_ok fuel (heap : list T) pos :
  (length heap - pos <= fuel)%nat ->
  heap_hole lt heap pos ->
  heap_hole lt (siftup_loop lt fuel heap pos).1 (siftup_loop lt fuel heap pos).2 /\
  (length heap <= 2 * (siftup_loop lt fuel heap pos).2 + 1)%nat.
Proof.
  revert heap pos. induction fuel as [|fuel IH]; intros heap pos Hf Hh.
  - cbn. split; [exact Hh | lia].
  - cbn [siftup_loop]. destruct (2 * pos + 1 <? length heap)%nat eqn:El.
    2:{ apply Nat.ltb_ge in El. cbn. split; [exact Hh | lia]. }
    apply Nat.ltb_lt in El.
    destruct (heap !! (2 * pos + 1)%nat) as [child|] eqn:Ec.
    2:{ apply lookup_ge_None in Ec. lia. }
    set (cp := match heap !! (2 * pos + 1 + 1)%nat with
               | Some rchild => if negb (lt child rchild) then (2 * pos + 1 + 1)%nat
                                else (2 * pos + 1)%nat
               | None => (2 * pos + 1)%nat
               end).
    assert (Hcp : exists c, heap !! cp = Some c /\
              (cp = 2 * pos + 1 \/ cp = 2 * pos + 2)%nat /\
              forall j y, (j = 2 * pos + 1 \/ j = 2 * pos + 2)%nat ->
                          heap !! j = Some y -> hle lt c y).
    { subst cp. destruct (heap !! (2 * pos + 1 + 1)%nat) as [r|] eqn:Er.
      - destruct (lt child r) eqn:Elt; cbn [negb].
        + exists child. split; [exact Ec | ]. split; [lia | ].
          intros j y [-> | ->] Hy.
          * assert (y = child) as -> by congruence. unfold hle.
            destruct (lt child child) eqn:E; [ | reflexivity].
            now rewrite (lt_asym _ _ E) in E.
          * replace (2 * pos + 2)%nat with (2 * pos + 1 + 1)%nat in Hy by lia.
            assert (y = r) as -> by congruence. exact (lt_asym _ _ Elt).
        + exists r. split; [exact Er | ]. split; [lia | ].
          intros j y [-> | ->] Hy.
          * assert (y = child) as -> by congruence. exact Elt.
          * replace (2 * pos + 2)%nat with (2 * pos + 1 + 1)%nat in Hy by lia.
            assert (y = r) as -> by congruence. unfold hle.
            destruct (lt r r) eqn:E; [ | reflexivity].
            now rewrite (lt_asym _ _ E) in E.
      - exists child. split; [exact Ec | ]. split; [lia | ].
        intros j y [-> | ->] Hy.
        + assert (y = child) as -> by congruence. unfold hle.
          destruct (lt child child) eqn:E; [ | reflexivity].
          now rewrite (lt_asym _ _ E) in E.
        + replace (2 * pos + 2)%nat with (2 * pos + 1 + 1)%nat in Hy by lia. congruence. }
    destruct Hcp as (c & Hc & Hwhich & Hmin). rewrite Hc.
    destruct (IH (<[pos := c]> heap) cp) as [H1 H2].
    + rewrite length_insert. lia.
    + exact (heap_hole_down heap pos cp c Hwhich Hc Hmin Hh).
    + split; [exact H1 | ]. now rewrite length_insert in H2.
Qed.

Lemma siftup_ok (heap : list T) :
  heap_hole lt heap 0 -> heap_ok lt (siftup lt heap 0).
Proof.
  intros Hh. unfold siftup. destruct (heap !! 0%nat) as [newitem|] eqn:E.
  - destruct (siftup_loop_ok (length heap) heap 0 ltac:(lia) Hh) as [H1 H2].
    pose proof (siftup_loop_length lt (length heap) heap 0) as Hl.
    destruct (siftup_loop lt (length heap) heap 0) as [heap' pos']. cbn [fst snd] in *.
    apply siftdown_ok.
    apply heap_hole_leaf; [lia | exact H1].
  - destruct heap; [ | discriminate]. intros j x y _ Hy. discriminate.
Qed.

(** [heappop] keeps the heap a heap. *)
Lemma heappop_ok (heap : list T) x heap' :
  heappop lt heap = Some (x, heap') -> heap_ok lt heap -> heap_ok lt heap'.
Proof.
  unfold heappop. intros E Hok. destruct (last heap) as [lastelt|] eqn:El; [|discriminate].
  apply last_Some in El as [l' ->]. rewrite removelast_last in E.
  destruct l' as [|returnitem rest]; injection E as <- <-.
  - intros j x y _ Hy. discriminate.
  - apply siftup_ok. split.
    + intros j x y Hj Hne Hnp Hy Hx. pose proof (parent_lt j Hj) as Hpj.
      pose proof (lookup_lt_Some _ _ _ Hy) as Hl. cbn [length] in Hl.
      apply (Hok j x y Hj).
      * destruct j as [|j]; [lia | ].
        change ((rest ++ [lastelt]) !! j = Some y). change (rest !! j = Some y) in Hy.
        rewrite lookup_app_l by lia. exact Hy.
      * destruct (parent j) as [|p]; [lia | ].
        change ((rest ++ [lastelt]) !! p = Some x). change (rest !! p = Some x) in Hx.
        rewrite lookup_app_l by lia. exact Hx.
    + intros; lia.
Qed.

(** [heappop] hands out the root. *)
Lemma heappop_root (heap : list T) x heap' :
  heappop lt heap = Some (x, heap') -> heap !! 0%nat = Some x.
Proof.
  unfold heappop. intros E. destruct (last heap) as [lastelt|] eqn:El; [|discriminate].
  apply last_Some in El as [l' ->]. rewrite removelast_last in E.
  destruct l' as [|returnitem rest]; injection E as <- <-; reflexivity.
Qed.
End HeapOrder.

Section HeapPerm.
Context {T : Type}.
Variable lt : T -> T -> bool.

(** The loops move entries about and lose none. *)
Lemma siftdown_loop_perm fuel (heap : list T) newitem startpos pos :
  (pos < length heap)%nat ->
  <[(siftdown_loop lt fuel heap newitem startpos pos).2 := newitem]>
    (siftdown_loop lt fuel heap newitem startpos pos).1
  ≡ₚ <[pos := newitem]> heap.
Proof.
  revert heap pos. induction fuel as [|fuel IH]; intros heap pos Hlen; [reflexivity | ].
  cbn [siftdown_loop]. destruct (startpos <? pos)%nat eqn:Ep; [ | reflexivity].
  apply Nat.ltb_lt in Ep. fold (parent pos).
  pose proof (parent_lt pos ltac:(lia)) as Hp.
  destruct (heap !! parent pos) as [par|] eqn:Epar; [ | reflexivity].
  destruct (lt newitem par); [ | reflexivity].
  rewrite IH by (rewrite length_insert; lia).
  rewrite <- (list_insert_insert_eq heap pos par newitem).
  apply Permutation_insert_swap.
  - apply list_lookup_insert_eq. lia.
  - rewrite list_lookup_insert_ne by lia. exact Epar.
Qed.

Lemma siftdown_perm (heap : list T) startpos pos :
  siftdown lt heap startpos pos ≡ₚ heap.
Proof.
  unfold siftdown. destruct (heap !! pos) as [newitem|] eqn:E; [ | reflexivity].
  pose proof (siftdown_loop_perm pos heap newitem startpos pos (lookup_lt_Some _ _ _ E)) as H.
  rewrite (list_insert_id heap pos newitem E) in H.
  now destruct (siftdown_loop lt pos heap newitem startpos pos).
Qed.

Lemma siftup_loop_perm fuel (heap : list T) pos item :
  (pos < length heap)%nat ->
  <[(siftup_loop lt fuel heap pos).2 := item]> (siftup_loop lt fuel heap pos).1
  ≡ₚ <[pos := item]> heap.
Proof.
  revert heap pos. induction fuel as [|fuel IH]; intros heap pos Hlen; [reflexivity | ].
  cbn [siftup_loop]. destruct (2 * pos + 1 <? length heap)%nat; [ | reflexivity].
  destruct (heap !! (2 * pos + 1)%nat) as [child|]; [ | reflexivity].
  set (cp := match heap !! (2 * pos + 1 + 1)%nat with
             | Some rchild => if negb (lt child rchild) then (2 * pos + 1 + 1)%nat
                              else (2 * pos + 1)%nat
             | None => (2 * pos + 1)%nat
             end).
  assert (Hcp : (pos < cp)%nat).
  { subst cp. destruct (heap !! (2 * pos + 1 + 1)%nat) as [r|]; [|lia].
    destruct (negb (lt child r)); lia. }
  destruct (heap !! cp) as [c|] eqn:Ec; [ | reflexivity].
  pose proof (lookup_lt_Some _ _ _ Ec) as Hl.
  rewrite IH by (rewrite length_insert; lia).
  rewrite <- (list_insert_insert_eq heap pos c item).
  apply Permutation_insert_swap.
  - apply list_lookup_insert_eq. lia.
  - rewrite list_lookup_insert_ne by lia. exact Ec.
Qed.

Lemma siftup_perm (heap : list T) pos : siftup lt heap pos ≡ₚ heap.
Proof.
  unfold siftup. destruct (heap !! pos) as [newitem|] eqn:E; [ | reflexivity].
  pose proof (siftup_loop_perm (length heap) heap pos newitem (lookup_lt_Some _ _ _ E)) as H.
  rewrite (list_insert_id heap pos newitem E) in H.
  destruct (siftup_loop lt (length heap) heap pos) as [heap' pos'].
  now rewrite siftdown_perm.
Qed.

(** [heappush] adds the item and nothing else. *)
Lemma heappush_perm (heap : list T) item : heappush lt heap item ≡ₚ item :: heap.
Proof.
  unfold heappush. rewrite siftdown_perm. symmetry. apply Permutation_cons_append.
Qed.

(** [heappop] takes out what it returns and nothing else. *)
Lemma heappop_perm (heap : list T) x heap' :
  heappop lt heap = Some (x, heap') -> heap ≡ₚ x :: heap'.
Proof.
  unfold heappop. intros E. destruct (last heap) as [lastelt|] eqn:El; [|discriminate].
  apply last_Some in El as [l' ->]. rewrite removelast_last in E.
  destruct l' as [|returnitem rest]; injection E as <- <-; [reflexivity | ].
  rewrite siftup_perm. cbn [app].
  constructor. symmetry. apply Permutation_cons_append.
Qed.
End HeapPerm.

(** ** The order of the queues *)

Lemma entry_lt_asym a b : entry_lt a b = true -> entry_lt b a = false.
Proof.
  unfold entry_lt, segment_eq, segment_lt.
  destruct (Z.eqb_spec a.1 b.1) as [E1|E1], (Z.eqb_spec b.1 a.1) as [E2|E2]; try congruence.
  - destruct (Z.eqb_spec (seq_number a.2) (seq_number b.2)),
             (Z.eqb_spec (seq_number b.2) (seq_number a.2)); try congruence; lia.
  - lia.
Qed.

Lemma entry_hle_trans a b c :
  hle entry_lt a b -> hle entry_lt b c -> hle entry_lt a c.
Proof.
  unfold hle, entry_lt, segment_eq, segment_lt.
  destruct (Z.eqb_spec b.1 a.1), (Z.eqb_spec c.1 b.1), (Z.eqb_spec c.1 a.1);
    try lia;
    destruct (Z.eqb_spec (seq_number b.2) (seq_number a.2)),
             (Z.eqb_spec (seq_number c.2) (seq_number b.2)),
             (Z.eqb_spec (seq_number c.2) (seq_number a.2)); lia.
Qed.

Lemma entry_hle_key a b : hle entry_lt a b -> a.1 <= b.1.
Proof.
  unfold hle, entry_lt. destruct (Z.eqb_spec b.1 a.1); [lia | ]. lia.
Qed.

Lemma pq_put_perm q e : pq_put q e ≡ₚ e :: q.
Proof. apply heappush_perm. Qed.

Lemma pq_get_perm q e q' : pq_get q = Some (e, q') -> q ≡ₚ e :: q'.
Proof. apply heappop_perm. Qed.

Lemma pq_put_heap q e : heap_ok entry_lt q -> heap_ok entry_lt (pq_put q e).
Proof. apply heappush_ok; [exact entry_lt_asym | exact entry_hle_trans]. Qed.

Lemma pq_get_heap q e q' :
  pq_get q = Some (e, q') -> heap_ok entry_lt q -> heap_ok entry_lt q'.
Proof. apply heappop_ok; [exact entry_lt_asym | exact entry_hle_trans]. Qed.

(** [get] hands out an entry with the least key of the queue. *)
Lemma pq_get_min q e q' :
  pq_get q = Some (e, q') -> heap_ok entry_lt q -> Forall (fun e' => e.1 <= e'.1) q.
Proof.
  intros E Hok. apply Forall_lookup. intros i e' Hi. apply entry_hle_key.
  apply (heap_ok_root entry_lt entry_lt_asym entry_hle_trans q e i e' Hok); [ | exact Hi].
  exact (heappop_root entry_lt q e q' E).
Qed.

Lemma pq_put_ok q e : queue_ok q -> keyed e -> queue_ok (pq_put q e).
Proof.
  intros [H1 H2] He. split; [now apply pq_put_heap | ].
  apply heappush_Forall; [exact H2 | exact He].
Qed.

(** [get] on a queue of the protocol: the entry handed out is filed under
    its sequence number, no segment of the queue starts below it, and the
    rest is a queue of the protocol. *)
Lemma pq_get_ok q k first q' :
  pq_get q = Some ((k, first), q') -> queue_ok q ->
  k = seq_number first /\ queue_ok q' /\ q ≡ₚ (k, first) :: q' /\
  Forall (fun e => seq_number first <= seq_number e.2) q'.
Proof.
  intros E [H1 H2].
  destruct (heappop_Forall entry_lt keyed q _ _ E H2) as [Hk Hq'].
  pose proof (pq_get_min _ _ _ E H1) as Hmin. pose proof (pq_get_perm _ _ _ E) as Hp.
  split; [exact Hk | ]. split; [split; [exact (pq_get_heap _ _ _ E H1) | exact Hq'] | ].
  split; [exact Hp | ].
  rewrite Hp in Hmin. apply Forall_cons in Hmin as [_ Hmin].
  apply Forall_forall. intros e He.
  pose proof (proj1 (Forall_forall _ _) Hmin e He) as G1.
  pose proof (proj1 (Forall_forall _ _) Hq' e He) as G2.
  unfold keyed in *. cbn [fst snd] in *. lia.
Qed.

(** ** The windows stay queues of the protocol *)

Lemma queue_ok_nil : queue_ok [].
Proof. split; [intros j x y _ Hy; discriminate | constructor]. Qed.

Lemma _send_segment_windows w segment c :
  windows_ok c -> ends (fun _ c' => windows_ok c') (_send_segment w segment) c.
Proof.
  intros (Hs & Hr & Hb). unfold ends, wp. rewrite _send_segment_unfold.
  unfold keep_in_flight, windows_ok.
  assert (Hput : forall t d, queue_ok (pq_put (_send_window c)
                   (seq_number segment, set_sending_time t (set_data d segment))))
    by (intros t d; apply pq_put_ok; [exact Hs | reflexivity]).
  destruct (dump segment) as [e|d]; [exact (conj Hs (conj Hr Hb)) | ]. cbv zeta.
  destruct (seq_number segment =? _sent_bytes_cnt c).
  - destruct (negb (len (data segment) =? 0)); fields;
      (split; [first [apply Hput | exact Hs] | split; [exact Hr | exact Hb]]).
  - destruct (_sent_bytes_cnt c <? seq_number segment); [exact (conj Hs (conj Hr Hb)) | ].
    destruct (negb (len (data segment) =? 0)); fields;
      (split; [first [apply Hput | exact Hs] | split; [exact Hr | exact Hb]]).
Qed.

(** The loop of [_shift_recv_window] leaves in the receive window only
    segments that start beyond the received cursor. *)
Lemma shift_recv_loop_windows fuel first_segment c :
  queue_ok (_send_window c) -> queue_ok (_recv_window c) ->
  (length (_recv_window c) <= fuel)%nat ->
  ends (fun _ c' => windows_ok c') (shift_recv_loop fuel first_segment) c.
Proof.
  revert first_segment c.
  induction fuel as [|fuel IH]; intros first_segment c Hs Hr Hf; unfold ends, wp;
    cbn [shift_recv_loop];
    destruct (pq_get (_recv_window c)) as [[[k first] rest]|] eqn:E.
  - apply pq_get_length in E. lia.
  - apply heappop_None in E. split; [exact Hs | ]. split; [exact Hr | ].
    unfold beyond. rewrite E. constructor.
  - destruct (pq_get_ok _ _ _ _ E Hr) as (Hk & Hrest & Hp & Hmin).
    apply pq_get_length in E. fields.
    destruct (seq_number first <? _received_bytes_cnt c) eqn:E1.
    + apply (IH (Some (set_acknowledged true first)) (set_recv_window rest c));
        fields; [exact Hs | exact Hrest | lia].
    + destruct (seq_number first =? _received_bytes_cnt c) eqn:E2.
      * match goal with |- context [shift_recv_loop fuel ?fs ?c1] =>
          apply (IH fs c1) end; fields; [exact Hs | exact Hrest | lia].
      * unfold windows_ok, beyond. fields. split; [exact Hs | ].
        split; [apply pq_put_ok; [exact Hrest | reflexivity] | ].
        rewrite pq_put_perm. apply Z.ltb_ge in E1. apply Z.eqb_neq in E2.
        constructor; [cbn [snd]; lia | ].
        eapply Forall_impl; [exact Hmin | ]. cbv beta. intros e He. lia.
  - apply heappop_None in E. split; [exact Hs | ]. split; [exact Hr | ].
    unfold beyond. rewrite E. constructor.
Qed.

Lemma _shift_recv_window_windows w c :
  queue_ok (_send_window c) -> queue_ok (_recv_window c) ->
  ends (fun _ c' => windows_ok c') (_shift_recv_window w) c.
Proof.
  intros Hs Hr. unfold ends, _shift_recv_window. wp_prim. apply wp_bind.
  eapply wp_mono;
    [ | | apply (shift_recv_loop_windows (length (_recv_window c)) None c Hs Hr); lia].
  - intros fs c1 H1. cbv beta in H1. destruct fs as [first|].
    + do 2 wp_prim. wp_prim. apply wp_bind.
      match goal with |- wp _ (_send_segment w ?s) _ _ ?c2 =>
        pose proof (_send_segment_windows w s c2 H1) as H2 end.
      unfold ends, wp in *.
      destruct (_send_segment w _ _) as [n c3|e c3|]; [ | | contradiction]; exact H2.
    + exact H1.
  - intros e c1 H1. exact H1.
Qed.

(** The loop of [_shift_send_window] keeps exactly the entries that start
    at or beyond the delivered cursor. *)
Lemma shift_send_loop_filter fuel c :
  queue_ok (_send_window c) ->
  (length (_send_window c) <= fuel)%nat ->
  exists q,
    shift_send_loop fuel c = Ok tt (set_send_window q c) /\
    queue_ok q /\
    q ≡ₚ filter (fun e => _delivered_bytes_cnt c <= seq_number e.2) (_send_window c).
Proof.
  revert c. induction fuel as [|fuel IH]; intros c Hs Hf; cbn [shift_send_loop];
    destruct (pq_get (_send_window c)) as [[[k first] rest]|] eqn:E.
  - apply pq_get_length in E. lia.
  - apply heappop_None in E. exists []. rewrite <- E at 1. rewrite set_send_window_same.
    split; [reflexivity | ]. split; [exact queue_ok_nil | ]. now rewrite E.
  - destruct (pq_get_ok _ _ _ _ E Hs) as (Hk & Hrest & Hp & Hmin).
    apply pq_get_length in E.
    destruct (_delivered_bytes_cnt c <=? seq_number first) eqn:E1.
    + apply Z.leb_le in E1. exists (pq_put rest (seq_number first, first)).
      split; [reflexivity | ]. split; [apply pq_put_ok; [exact Hrest | reflexivity] | ].
      rewrite pq_put_perm, Hp, <- Hk.
      rewrite filter_cons_True by (cbn [snd]; exact E1).
      assert (Hfil : filter (fun e => _delivered_bytes_cnt c <= seq_number e.2) rest = rest).
      { clear - Hmin E1. induction Hmin as [|e l He Hl IHl]; [reflexivity | ].
        rewrite filter_cons_True by lia. now f_equal. }
      now rewrite Hfil.
    + apply Z.leb_gt in E1.
      destruct (IH (set_send_window rest c)) as (q & Eq & Hq & Hf'); fields;
        [exact Hrest | lia | ].
      exists q. split; [rewrite Eq; now destruct c | ]. split; [exact Hq | ].
      rewrite Hf', Hp. rewrite filter_cons_False by (cbn [snd]; lia). reflexivity.
  - apply heappop_None in E. exists []. rewrite <- E at 1. rewrite set_send_window_same.
    split; [reflexivity | ]. split; [exact queue_ok_nil | ]. now rewrite E.
Qed.

Lemma _shift_send_window_windows c :
  windows_ok c -> ends (fun _ c' => windows_ok c') _shift_send_window c.
Proof.
  intros (Hs & Hr & Hb). unfold ends, _shift_send_window. wp_prim.
  destruct (shift_send_loop_filter (length (_send_window c)) c Hs (le_n _)) as (q & E & Hq & _).
  unfold wp. rewrite E. split; [exact Hq | ]. split; [exact Hr | exact Hb].
Qed.

Lemma process_segment_windows w segment c :
  windows_ok c -> ends (fun _ c' => windows_ok c') (process_segment w segment) c.
Proof.
  intros Hw.
  assert (Hrest : forall c1, windows_ok c1 ->
            wp False
              (delivered <- gets _delivered_bytes_cnt ;;
               (if delivered <? ack_number segment then
                  modify (set_delivered (ack_number segment)) ;;; _shift_send_window
                else ret tt) ;;; ret true)
              (fun _ c' => windows_ok c') (fun _ c' => windows_ok c') c1).
  { intros c1 H1. wp_prim. apply wp_bind.
    destruct (_delivered_bytes_cnt c1 <? ack_number segment).
    - wp_prim.
      eapply wp_mono; [ | | apply _shift_send_window_windows; exact H1]; cbv beta.
      + intros _ c2 H2. exact H2.
      + intros _ c2 H2. exact H2.
    - exact H1. }
  unfold ends, process_segment. apply wp_bind.
  destruct (negb (len (data segment) =? 0)).
  - wp_prim. destruct Hw as (Hs & Hr & Hb).
    match goal with |- wp _ _ _ _ ?c1 =>
      eapply wp_mono; [ | | apply (_shift_recv_window_windows w c1)]; cbv beta end.
    + intros _ c2 H2. now apply Hrest.
    + intros _ c2 H2. exact H2.
    + exact Hs.
    + fields. apply pq_put_ok; [exact Hr | reflexivity].
  - cbn [wp ret]. now apply Hrest.
Qed.

Lemma _receive_segment_windows w timeout c :
  windows_ok c -> ends (fun _ c' => windows_ok c') (_receive_segment w timeout) c.
Proof.
  intros Hw. unfold ends, wp. rewrite _receive_segment_unfold.
  destruct (recvfrom_result w (rx_calls c)) as [d|]; [ | exact Hw].
  cbv zeta. apply process_segment_windows. exact Hw.
Qed.

Lemma _resend_first_segment_windows w c :
  windows_ok c -> ends (fun _ c' => windows_ok c') (_resend_first_segment w) c.
Proof.
  intros (Hs & Hr & Hb). unfold ends, _resend_first_segment. wp_prim.
  destruct (pq_get (_send_window c)) as [[[k first] rest]|] eqn:E;
    [ | cbn [wp ret]; exact (conj Hs (conj Hr Hb))].
  destruct (pq_get_ok _ _ _ _ E Hs) as (Hk & Hrest & _ & _).
  wp_prim. apply wp_bind. unfold expired.
  assert (Hsend : forall c1, windows_ok c1 ->
            wp False (_send_segment w first ;;; ret tt)
              (fun _ c' => windows_ok c') (fun _ c' => windows_ok c') c1).
  { intros c1 H1. apply wp_bind. pose proof (_send_segment_windows w first c1 H1) as G.
    unfold ends, wp in *.
    destruct (_send_segment w first c1) as [n c2|e c2|]; [ | | contradiction]; exact G. }
  assert (Hput : queue_ok (pq_put rest (seq_number first, first)))
    by (apply pq_put_ok; [exact Hrest | reflexivity]).
  destruct (negb (acknowledged first)).
  - wp_prim. unfold wp at 1. cbn [ret]. destruct (ACK_TIMEOUT <? _).
    + apply Hsend. exact (conj Hrest (conj Hr Hb)).
    + cbn [wp modify]. exact (conj Hput (conj Hr Hb)).
  - unfold wp at 1. cbn [ret wp modify]. exact (conj Hput (conj Hr Hb)).
Qed.

Lemma send_body_windows w l c :
  windows_ok c -> ends (fun _ c' => windows_ok c') (send_body w l) c.
Proof.
  intros Hw. unfold ends, send_body. do 2 wp_prim. apply wp_bind.
  assert (Hrest : forall (next : send_locals) c1, windows_ok c1 ->
            wp False (_resend_first_segment w ;;; ret next)
              (fun _ c' => windows_ok c') (fun _ c' => windows_ok c') c1).
  { intros next c1 H1. apply wp_bind.
    pose proof (_resend_first_segment_windows w c1 H1) as G. unfold ends, wp in *.
    destruct (_resend_first_segment w c1) as [[] c2|e c2|]; [ | | contradiction]; exact G. }
  destruct ((_ <=? _) && _).
  - do 2 wp_prim. apply wp_bind.
    match goal with |- wp _ (_send_segment w ?s) _ _ ?c1 =>
      pose proof (_send_segment_windows w s c1 Hw) as G; unfold ends, wp in *;
      destruct (_send_segment w s c1) as [n c2|e c2|]; [ | | contradiction] end.
    + cbn [ret]. now apply Hrest.
    + exact G.
  - apply wp_bind.
    pose proof (_receive_segment_windows w (Some ACK_TIMEOUT) c Hw) as G. unfold ends, wp in *.
    destruct (_receive_segment w (Some ACK_TIMEOUT) c) as [b c1|e c1|]; [ | | contradiction].
    + cbn [ret]. now apply Hrest.
    + exact G.
Qed.

Lemma send_loop_windows w fuel l c n c' :
  windows_ok c -> send_loop w fuel l c = Ok n c' -> windows_ok c'.
Proof.
  revert l c. induction fuel as [|fuel IH]; intros l c Hw; cbn [send_loop];
    destruct (send_guard l c); try discriminate;
    try (intros [= _ <-]; exact Hw).
  unfold bind. pose proof (send_body_windows w l c Hw) as H. unfold ends, wp in H.
  destruct (send_body w l c) as [l1 c1|e c1|]; try discriminate.
  intros E. exact (IH _ _ H E).
Qed.

Lemma recv_loop_windows w fuel data_sz d0 c d c' :
  windows_ok c -> recv_loop w fuel data_sz d0 c = Ok d c' -> windows_ok c'.
Proof.
  revert d0 c. induction fuel as [|fuel IH]; intros d0 c Hw; cbn [recv_loop];
    destruct (len d0 <? data_sz); try discriminate;
    try (intros [= _ <-]; exact Hw).
  set (c1 := set_buffer _ c).
  assert (Hw1 : windows_ok c1) by exact Hw.
  destruct (len (d0 ++ _) <? data_sz); [ | now apply IH].
  unfold bind.
  pose proof (_receive_segment_windows w None c1 Hw1) as H. unfold ends, wp in H.
  destruct (_receive_segment w None c1) as [b c2|e c2|]; try discriminate.
  now apply IH.
Qed.

Lemma stream_run_windows w c out c' :
  stream_run w c out c' -> windows_ok c -> windows_ok c'.
Proof.
  intros Hr Hw.
  induction Hr as [ | out c1 timeout c2 Hr IH E
                    | out c1 fuel d n c2 Hr IH E
                    | out c1 fuel data_sz d c2 Hr IH E ].
  - exact Hw.
  - destruct (ends_final _ _ _ (_receive_segment_windows w timeout c1 IH)) as (c2' & E' & H).
    assert (c2' = c2) as -> by congruence. exact H.
  - exact (send_loop_windows w fuel _ c1 n c2 IH E).
  - exact (recv_loop_windows w fuel data_sz [] c1 d c2 IH E).
Qed.

Lemma windows_ok_init : windows_ok init.
Proof. split; [exact queue_ok_nil | ]. split; [exact queue_ok_nil | constructor]. Qed.

(** ** What an arrival does to the receive side *)

(** Whatever the loop of [_shift_recv_window] has made of the receive side
    is still there when [process_segment] ends: the acknowledgment it sends
    and the pruning of the send window do not touch it. *)
Lemma process_segment_recv w segment c (Q : MyTCPProtocol -> Prop) :
  len (data segment) <> 0 ->
  (forall c1 c2, same_recv_side c1 c2 -> Q c1 -> Q c2) ->
  (let c1 := set_recv_window (pq_put (_recv_window c) (seq_number segment, segment)) c in
   wp False (shift_recv_loop (length (_recv_window c1)) None)
     (fun _ c' => Q c') (fun _ _ => False) c1) ->
  ends (fun _ c' => Q c') (process_segment w segment) c.
Proof.
  intros Hl HQ Hloop. cbv zeta in Hloop.
  assert (Hrest : forall c1, Q c1 ->
            wp False
              (delivered <- gets _delivered_bytes_cnt ;;
               (if delivered <? ack_number segment then
                  modify (set_delivered (ack_number segment)) ;;; _shift_send_window
                else ret tt) ;;; ret true)
              (fun _ c' => Q c') (fun _ c' => Q c') c1).
  { intros c1 H1. wp_prim. apply wp_bind.
    destruct (_delivered_bytes_cnt c1 <? ack_number segment).
    - wp_prim.
      eapply wp_mono; [ | | apply _shift_send_window_ends ]; cbv beta.
      + intros _ c2 (S1 & _). cbn [wp ret]. apply (HQ c1); [ | exact H1].
        relations. tauto.
      + intros _ c2 (S1 & _). apply (HQ c1); [ | exact H1]. relations. tauto.
    - exact H1. }
  unfold ends, process_segment. apply wp_bind.
  apply Z.eqb_neq in Hl. rewrite Hl. cbn [negb]. wp_prim.
  unfold _shift_recv_window. wp_prim. apply wp_bind.
  eapply wp_mono; [ | | exact Hloop]; cbv beta.
  - intros fs c1 H1. destruct fs as [first|].
    + do 2 wp_prim. wp_prim. apply wp_bind.
      match goal with |- wp _ (_send_segment w ?s) _ _ ?c2 =>
        pose proof (_send_segment_recv_side w s c2) as H2;
        assert (H3 : Q c2) by (apply (HQ c1); [relations; tauto | exact H1]) end.
      unfold ends, wp in *.
      destruct (_send_segment w _ _) as [n c3|e c3|]; [ | | contradiction].
      * cbn [ret]. apply Hrest. eapply HQ; [apply H2 | exact H3].
      * eapply HQ; [apply H2 | exact H3].
    + cbn [wp ret]. now apply Hrest.
  - intros e c1 [].
Qed.

Lemma set_recv_window_same c : set_recv_window (_recv_window c) c = c.
Proof. now destruct c. Qed.

Lemma pq_get_put_some q e : exists e' rest, pq_get (pq_put q e) = Some (e', rest).
Proof.
  destruct (pq_get (pq_put q e)) as [[e' rest]|] eqn:E; [eauto | ].
  apply heappop_None in E. apply (f_equal length) in E.
  unfold pq_put in E. rewrite heappush_length in E. discriminate.
Qed.

(** An entry put at or below the cursor [r], into a queue whose entries
    all start beyond [r], is the one that the next [get] hands out. *)
Lemma pq_get_put_least q s r e rest :
  queue_ok q -> beyond r q -> seq_number s <= r ->
  pq_get (pq_put q (seq_number s, s)) = Some (e, rest) ->
  e = (seq_number s, s) /\ rest ≡ₚ q /\ queue_ok rest.
Proof.
  intros Hq Hb Hs E. destruct e as [k first].
  assert (Hq1 : queue_ok (pq_put q (seq_number s, s)))
    by (apply pq_put_ok; [exact Hq | reflexivity]).
  destruct (pq_get_ok _ _ _ _ E Hq1) as (Hk & Hrest & Hp & Hmin).
  rewrite pq_put_perm in Hp.
  assert (Hin : (k, first) ∈ (seq_number s, s) :: q) by (rewrite Hp; left).
  assert (Hnew : (seq_number s, s) ∈ (k, first) :: rest) by (rewrite <- Hp; left).
  assert (He : (k, first) = (seq_number s, s)).
  { apply elem_of_cons in Hin as [Hin | Hin]; [exact Hin | ].
    pose proof (proj1 (Forall_forall _ _) Hb _ Hin) as G1. cbn [snd] in G1.
    apply elem_of_cons in Hnew as [Hnew | Hnew]; [now symmetry | ].
    pose proof (proj1 (Forall_forall _ _) Hmin _ Hnew) as G2. cbn [snd] in G2. lia. }
  split; [exact He | ]. split; [ | exact Hrest].
  rewrite He in Hp. symmetry. exact (Permutation_cons_inv Hp).
Qed.

(** On a receive window whose segments all start beyond the received
    cursor, the loop of [_shift_recv_window] moves nothing out. *)
Lemma shift_recv_loop_settled fuel first_segment c :
  queue_ok (_recv_window c) -> beyond (_received_bytes_cnt c) (_recv_window c) ->
  (length (_recv_window c) <= fuel)%nat ->
  exists fs q,
    shift_recv_loop fuel first_segment c = Ok fs (set_recv_window q c) /\
    q ≡ₚ _recv_window c.
Proof.
  intros Hq Hb Hf.
  destruct (pq_get (_recv_window c)) as [[[k first] rest]|] eqn:E.
  - destruct (pq_get_ok _ _ _ _ E Hq) as (Hk & Hrest & Hp & Hmin).
    pose proof (pq_get_length _ _ _ E) as Hl.
    destruct fuel as [|fuel]; [lia | ]. cbn [shift_recv_loop]. rewrite E. fields.
    assert (Hfirst : _received_bytes_cnt c < seq_number first).
    { unfold beyond in Hb. rewrite Hp in Hb. apply Forall_cons in Hb as [Hb _]. exact Hb. }
    destruct (Z.ltb_spec (seq_number first) (_received_bytes_cnt c)); [lia | ].
    destruct (Z.eqb_spec (seq_number first) (_received_bytes_cnt c)); [lia | ].
    exists (Some first), (pq_put rest (seq_number first, first)).
    split; [now destruct c | ]. now rewrite pq_put_perm, Hp, Hk.
  - exists first_segment, (_recv_window c). rewrite set_recv_window_same.
    split; [ | reflexivity]. destruct fuel; cbn [shift_recv_loop]; now rewrite E.
Qed.

Lemma set_recv_window_twice q q' c :
  set_recv_window q (set_recv_window q' c) = set_recv_window q c.
Proof. now destruct c. Qed.

Lemma pq_put_length q e : length (pq_put q e) = S (length q).
Proof. apply heappush_length. Qed.

(** The loop of [_shift_recv_window] after a segment that starts beyond the
    received cursor was put into the window: the segment stays there. *)
Lemma shift_recv_loop_ahead s c :
  queue_ok (_recv_window c) -> beyond (_received_bytes_cnt c) (_recv_window c) ->
  _received_bytes_cnt c < seq_number s ->
  exists fs q,
    shift_recv_loop (S (length (_recv_window c))) None
      (set_recv_window (pq_put (_recv_window c) (seq_number s, s)) c)
    = Ok fs (set_recv_window q c) /\
    q ≡ₚ (seq_number s, s) :: _recv_window c.
Proof.
  intros Hq Hb Hs.
  set (c1 := set_recv_window (pq_put (_recv_window c) (seq_number s, s)) c).
  destruct (shift_recv_loop_settled (S (length (_recv_window c))) None c1)
    as (fs & q & E & Hp).
  - subst c1. fields. apply pq_put_ok; [exact Hq | reflexivity].
  - subst c1. unfold beyond. fields. rewrite pq_put_perm. now constructor.
  - subst c1. fields. rewrite pq_put_length. lia.
  - exists fs, q. rewrite E. subst c1. rewrite set_recv_window_twice.
    split; [reflexivity | ]. fields. now rewrite Hp, pq_put_perm.
Qed.

(** The same loop after a segment that starts below the received cursor was
    put into the window: the segment is taken out again, nothing else
    moves. *)
Lemma shift_recv_loop_duplicate s c :
  queue_ok (_recv_window c) -> beyond (_received_bytes_cnt c) (_recv_window c) ->
  seq_number s < _received_bytes_cnt c ->
  exists fs q,
    shift_recv_loop (S (length (_recv_window c))) None
      (set_recv_window (pq_put (_recv_window c) (seq_number s, s)) c)
    = Ok fs (set_recv_window q c) /\
    q ≡ₚ _recv_window c.
Proof.
  intros Hq Hb Hs. cbn [shift_recv_loop]. fields.
  destruct (pq_get_put_some (_recv_window c) (seq_number s, s)) as (e & rest & E).
  destruct (pq_get_put_least (_recv_window c) s (_received_bytes_cnt c) _ _ Hq Hb ltac:(lia) E) as (-> & Hp & Hrest).
  rewrite E. fields.
  destruct (Z.ltb_spec (seq_number s) (_received_bytes_cnt c)); [ | lia].
  rewrite set_recv_window_twice.
  destruct (shift_recv_loop_settled (length (_recv_window c))
              (Some (set_acknowledged true s)) (set_recv_window rest c))
    as (fs & q & E' & Hp'); fields.
  - exact Hrest.
  - unfold beyond. now rewrite Hp.
  - now rewrite Hp.
  - exists fs, q. rewrite E', set_recv_window_twice. split; [reflexivity | ].
    now rewrite Hp'.
Qed.

(** The loop of [_shift_recv_window] on a receive window built by the
    protocol goes as far as it can: the window it leaves holds exactly the
    entries that start beyond the received cursor it leaves, and no segment
    of the window that starts at that cursor has payload left to append. *)
Lemma shift_recv_loop_exact fuel first_segment c :
  queue_ok (_recv_window c) ->
  (length (_recv_window c) <= fuel)%nat ->
  exists fs c' segs,
    shift_recv_loop fuel first_segment c = Ok fs c' /\
    contiguous (_received_bytes_cnt c) segs (_received_bytes_cnt c') /\
    _buffer c' = _buffer c ++ concat (map data segs) /\
    Forall (waiting_in c) segs /\
    _received_bytes_cnt c <= _received_bytes_cnt c' /\
    _recv_window c' ≡ₚ
      filter (fun e => _received_bytes_cnt c' < seq_number e.2) (_recv_window c) /\
    forall e, e ∈ _recv_window c -> seq_number e.2 = _received_bytes_cnt c' ->
      data e.2 = [].
Proof.
  revert first_segment c. induction fuel as [|fuel IH]; intros first_segment c Hq Hf;
    cbn [shift_recv_loop];
    destruct (pq_get (_recv_window c)) as [[[k first] rest]|] eqn:E;
    try (apply heappop_None in E; exists first_segment, c, [];
         cbn [map concat contiguous]; rewrite app_nil_r, E;
         split; [reflexivity | ]; split; [reflexivity | ]; split; [reflexivity | ];
         split; [constructor | ]; split; [lia | ]; split; [reflexivity | ];
         intros e He; apply elem_of_nil in He; contradiction).
  - apply pq_get_length in E. lia.
  - destruct (pq_get_ok _ _ _ _ E Hq) as (Hk & Hrest & Hp & Hmin).
    apply pq_get_length in E. fields.
    assert (Hsub : forall s, (exists k', (k', s) ∈ rest) -> waiting_in c s).
    { intros s (k' & Hk'). exists k'. rewrite Hp. now right. }
    assert (Hfirst : waiting_in c first) by (exists k; rewrite Hp; left).
    destruct (Z.ltb_spec (seq_number first) (_received_bytes_cnt c)) as [Hlt | Hge].
    + destruct (IH (Some (set_acknowledged true first)) (set_recv_window rest c))
        as (fs & c' & segs & Eq & Hc & Hb & Hs & Hle & Hw & Hmax); fields;
        [exact Hrest | lia | ].
      exists fs, c', segs. split; [exact Eq | ]. split; [exact Hc | ]. split; [exact Hb | ].
      split; [eapply Forall_impl; [exact Hs | exact Hsub] | ]. split; [exact Hle | ].
      split.
      * rewrite Hw, Hp. rewrite filter_cons_False by (cbn [snd]; lia). reflexivity.
      * intros e He. rewrite Hp in He. apply elem_of_cons in He as [-> | He];
          [cbn [snd]; lia | now apply Hmax].
    + destruct (Z.eqb_spec (seq_number first) (_received_bytes_cnt c)) as [Heq | Hne].
      * match goal with |- context [shift_recv_loop fuel ?fs0 ?c1] =>
          destruct (IH fs0 c1)
            as (fs & c' & segs & Eq & Hc & Hb & Hs & Hle & Hw & Hmax) end; fields;
          [exact Hrest | lia | ].
        pose proof (len_nonneg (data first)) as Hlen.
        exists fs, c', (first :: segs). split; [exact Eq | ].
        split; [split; [exact Heq | exact Hc] | ].
        split; [rewrite Hb; cbn [map concat]; now rewrite app_assoc | ].
        split; [constructor; [exact Hfirst | eapply Forall_impl; [exact Hs | exact Hsub]] | ].
        split; [lia | ]. split.
        -- rewrite Hw, Hp. rewrite filter_cons_False by (cbn [snd]; lia). reflexivity.
        -- intros e He. rewrite Hp in He. apply elem_of_cons in He as [-> | He];
             [ | now apply Hmax].
           cbn [snd]. intros Hat. apply len_zero. lia.
      * eexists _, _, []. split; [reflexivity | ]. fields. cbn [map concat contiguous].
        rewrite app_nil_r. split; [reflexivity | ]. split; [reflexivity | ].
        split; [constructor | ]. split; [lia | ].
        assert (Hfil : filter (fun e => _received_bytes_cnt c < seq_number e.2) rest = rest).
        { clear - Hmin Hge Hne. induction Hmin as [|e l He Hl IHl]; [reflexivity | ].
          rewrite filter_cons_True by lia. now f_equal. }
        split.
        -- rewrite pq_put_perm, Hp, <- Hk.
           rewrite filter_cons_True by (cbn [snd]; lia). now rewrite Hfil.
        -- intros e He. rewrite Hp in He. apply elem_of_cons in He as [-> | He];
             [cbn [snd]; lia | ].
           pose proof (proj1 (Forall_forall _ _) Hmin e He) as G. cbv beta in G. lia.
Qed.

(** The same loop after the segment that starts at the received cursor was
    put into the window: its payload is appended to the buffer first, then
    those of the segments of the window that follow it in the stream, as
    far as they reach. *)
Lemma shift_recv_loop_in_order s c :
  queue_ok (_recv_window c) -> beyond (_received_bytes_cnt c) (_recv_window c) ->
  seq_number s = _received_bytes_cnt c ->
  exists fs c' segs,
    shift_recv_loop (S (length (_recv_window c))) None
      (set_recv_window (pq_put (_recv_window c) (seq_number s, s)) c)
    = Ok fs c' /\
    contiguous (_received_bytes_cnt c + len (data s)) segs (_received_bytes_cnt c') /\
    _buffer c' = _buffer c ++ data s ++ concat (map data segs) /\
    Forall (waiting_in c) segs /\
    _recv_window c' ≡ₚ
      filter (fun e => _received_bytes_cnt c' < seq_number e.2) (_recv_window c) /\
    forall e, e ∈ _recv_window c -> seq_number e.2 = _received_bytes_cnt c' ->
      data e.2 = [].
Proof.
  intros Hq Hb Hs. cbn [shift_recv_loop]. fields.
  destruct (pq_get_put_some (_recv_window c) (seq_number s, s)) as (e & rest & E).
  destruct (pq_get_put_least (_recv_window c) s (_received_bytes_cnt c) _ _ Hq Hb
              ltac:(lia) E) as (-> & Hp & Hrest).
  rewrite E. fields.
  destruct (Z.ltb_spec (seq_number s) (_received_bytes_cnt c)); [lia | ].
  destruct (Z.eqb_spec (seq_number s) (_received_bytes_cnt c)); [ | lia].
  match goal with |- context [shift_recv_loop _ ?fs0 ?c1] =>
    destruct (shift_recv_loop_exact (length (_recv_window c)) fs0 c1)
      as (fs & c' & segs & E' & Hc & Hbuf & Hsegs & Hle & Hw & Hmax) end; fields.
  - exact Hrest.
  - now rewrite Hp.
  - exists fs, c', segs. split; [exact E' | ]. split; [exact Hc | ].
    split; [now rewrite Hbuf, app_assoc | ].
    split; [eapply Forall_impl; [exact Hsegs | ];
            intros s' (k & Hk); exists k; now rewrite <- Hp | ].
    split; [now rewrite Hw, Hp | ].
    intros e' He'. apply Hmax. now rewrite Hp.
Qed.

(** From the loop to the call: what [_receive_segment] makes of the receive
    side when a datagram with payload arrives. *)
Lemma arrival_recv_side w timeout c d (Q : MyTCPProtocol -> Prop) :
  recvfrom_result w (rx_calls c) = Some d -> (16 < length d)%nat ->
  (forall c1 c2, same_recv_side c1 c2 -> Q c1 -> Q c2) ->
  (forall s c0,
     seq_number s = wire_seq d -> data s = wire_payload d -> same_recv_side c c0 ->
     wp False (shift_recv_loop (S (length (_recv_window c0))) None)
       (fun _ c' => Q c') (fun _ _ => False)
       (set_recv_window (pq_put (_recv_window c0) (seq_number s, s)) c0)) ->
  exists c', final_state (_receive_segment w timeout c) = Some c' /\ Q c'.
Proof.
  intros E Hl HQ Hloop. rewrite (_receive_segment_arrival w timeout c d E).
  set (s := mkSegment _ _ _ _ _). set (c0 := set_clock_reads _ _).
  assert (H : ends (fun _ c' => Q c') (process_segment w s) c0).
  { apply process_segment_recv.
    - subst s. fields. rewrite len_wire_payload. unfold len. lia.
    - exact HQ.
    - cbv zeta. cbn [_recv_window set_recv_window]. rewrite pq_put_length.
      apply (Hloop s c0); [reflexivity | reflexivity | now repeat split]. }
  destruct (ends_final _ _ _ H) as (c' & Hf & HQ'). exists c'. now split.
Qed.

(** ** The queues, as the protocol sees them *)

(** X20. [get] on a queue that is ordered as a heap takes out one entry and
    nothing else, leaves a heap, and the entry it hands out has the least
    key of the queue. *)
Theorem queue_get_least (q : PriorityQueue) (e : Z * TCPSegment) (rest : PriorityQueue) :
  heap_ok entry_lt q ->
  pq_get q = Some (e, rest) ->
  q ≡ₚ e :: rest /\ heap_ok entry_lt rest /\ forall e', e' ∈ q -> e.1 <= e'.1.
Proof.
  intros Hok E. split; [exact (pq_get_perm _ _ _ E) | ].
  split; [exact (pq_get_heap _ _ _ E Hok) | ].
  intros e' He'. exact (proj1 (Forall_forall _ _) (pq_get_min _ _ _ E Hok) e' He').
Qed.

Lemma queue_get_least_witness :
  let s k := mkSegment k 0 hello false 0 in
  let q := pq_put (pq_put (pq_put [] (5, s 5)) (3, s 3)) (7, s 7) in
  exists rest,
    pq_get q = Some ((3, s 3), rest) /\
    q ≡ₚ (3, s 3) :: rest /\ heap_ok entry_lt rest /\
    forall e', e' ∈ q -> 3 <= e'.1.
Proof.
  cbv zeta. eexists. split; [vm_compute; reflexivity | ].
  apply (queue_get_least _ (3, mkSegment 3 0 hello false 0)).
  - do 3 apply pq_put_heap. intros j x y _ Hy. discriminate.
  - vm_compute. reflexivity.
Defined.

(** X21. [put] on a queue that is ordered as a heap adds the entry and
    nothing else, and leaves a heap. *)
Theorem queue_put_keeps (q : PriorityQueue) (e : Z * TCPSegment) :
  heap_ok entry_lt q ->
  pq_put q e ≡ₚ e :: q /\ heap_ok entry_lt (pq_put q e).
Proof.
  intros Hok. split; [apply pq_put_perm | now apply pq_put_heap].
Qed.

Lemma queue_put_keeps_witness :
  let s k := mkSegment k 0 hello false 0 in
  pq_put [(5, s 5)] (3, s 3) ≡ₚ [(3, s 3); (5, s 5)] /\
  heap_ok entry_lt (pq_put [(5, s 5)] (3, s 3)).
Proof.
  cbv zeta.
  apply (queue_put_keeps [(5, mkSegment 5 0 hello false 0)] (3, mkSegment 3 0 hello false 0)).
  intros j x y Hj Hy. destruct j as [|j]; [lia | discriminate].
Defined.

(** X22. [_shift_send_window] on a send window built by the protocol keeps
    exactly the entries whose segment starts at or beyond the delivered
    cursor: every entry that starts below it is dropped, also one whose
    payload reaches beyond the cursor; nothing else of the state changes. *)
Theorem shift_send_window_drops_acked (c : MyTCPProtocol) :
  queue_ok (_send_window c) ->
  exists q,
    _shift_send_window c = Ok tt (set_send_window q c) /\
    queue_ok q /\
    q ≡ₚ filter (fun e => _delivered_bytes_cnt c <= seq_number e.2) (_send_window c).
Proof.
  intros Hq. unfold _shift_send_window. erewrite bind_ok by reflexivity.
  exact (shift_send_loop_filter (length (_send_window c)) c Hq (le_n _)).
Qed.

Lemma queue_ok_put_nil (l : list (Z * TCPSegment)) :
  Forall keyed l -> queue_ok (foldl pq_put [] l).
Proof.
  intros H. assert (G : forall q, queue_ok q -> queue_ok (foldl pq_put q l)).
  { induction H as [|e l He Hl IH]; intros q Hq; [exact Hq | ].
    cbn [foldl]. apply IH. now apply pq_put_ok. }
  apply G, queue_ok_nil.
Qed.

Lemma shift_send_window_drops_acked_witness :
  let s k := mkSegment k 0 hello false 0 in
  let c := set_delivered 7 (set_sent 15 (set_send_window [(0, s 0); (5, s 5); (10, s 10)] init)) in
  exists q,
    _shift_send_window c = Ok tt (set_send_window q c) /\
    queue_ok q /\ q ≡ₚ [(10, s 10)].
Proof.
  cbv zeta.
  apply (shift_send_window_drops_acked
           (set_delivered 7 (set_sent 15
              (set_send_window [(0, mkSegment 0 0 hello false 0);
                                (5, mkSegment 5 0 hello false 0);
                                (10, mkSegment 10 0 hello false 0)] init)))).
  exact (queue_ok_put_nil [(0, mkSegment 0 0 hello false 0);
                           (5, mkSegment 5 0 hello false 0);
                           (10, mkSegment 10 0 hello false 0)]
           ltac:(repeat constructor)).
Defined.

(** X23. Over any run of arrivals and of calls of [send] and [recv], from a
    state in which both windows are heaps of entries filed under their
    sequence numbers and the receive window holds only segments that start
    beyond the received cursor, the state reached is of that kind again: a
    segment at or below the received cursor never waits in the receive
    window. *)
Theorem windows_kept_over_run (w : World) (c : MyTCPProtocol) (out : bytes)
    (c' : MyTCPProtocol) :
  windows_ok c ->
  stream_run w c out c' ->
  windows_ok c' /\
  forall e, e ∈ _recv_window c' ->
    e.1 = seq_number e.2 /\ _received_bytes_cnt c' < seq_number e.2.
Proof.
  intros Hw Hr. pose proof (stream_run_windows w c out c' Hr Hw) as H.
  split; [exact H | ]. destruct H as (_ & (_ & Hk) & Hb). intros e He. split.
  - exact (proj1 (Forall_forall _ _) Hk e He).
  - exact (proj1 (Forall_forall _ _) Hb e He).
Qed.

Lemma ahead_run :
  exists c1,
    stream_run (arrivals [frame 20 0 (ten_from 20)]) init [] c1 /\
    map fst (_recv_window c1) = [20].
Proof.
  eexists. split.
  - apply (run_arrival _ _ [] init None); [apply run_start | ].
    vm_compute. reflexivity.
  - vm_compute. reflexivity.
Defined.

Lemma windows_kept_over_run_witness :
  exists c1,
    stream_run (arrivals [frame 20 0 (ten_from 20)]) init [] c1 /\
    map fst (_recv_window c1) = [20] /\
    windows_ok c1 /\
    forall e, e ∈ _recv_window c1 ->
      e.1 = seq_number e.2 /\ _received_bytes_cnt c1 < seq_number e.2.
Proof.
  destruct ahead_run as (c1 & Hr & Hq). exists c1.
  split; [exact Hr | ]. split; [exact Hq | ].
  exact (windows_kept_over_run _ init [] c1 windows_ok_init Hr).
Defined.

(** X24. In every state that a fresh connection reaches, the entry that
    [get] hands out of the send window, the one [_resend_first_segment]
    looks at, is filed under the sequence number of its segment, and no
    segment in flight starts below it: retransmission goes to the oldest
    segment in flight. *)
Theorem resend_takes_oldest (w : World) (out : bytes) (c : MyTCPProtocol)
    (k : Z) (first : TCPSegment) (rest : PriorityQueue) :
  stream_run w init out c ->
  pq_get (_send_window c) = Some ((k, first), rest) ->
  k = seq_number first /\
  forall e, e ∈ _send_window c -> seq_number first <= seq_number e.2.
Proof.
  intros Hr E. destruct (stream_run_windows w init out c Hr windows_ok_init) as (Hs & _).
  destruct (pq_get_ok _ _ _ _ E Hs) as (Hk & _ & Hp & Hmin). split; [exact Hk | ].
  intros e He. rewrite Hp in He. apply elem_of_cons in He as [-> | He]; [cbn [snd]; lia | ].
  exact (proj1 (Forall_forall _ _) Hmin e He).
Qed.

Lemma resend_takes_oldest_witness :
  exists c first rest,
    stream_run silent_world init [] c /\
    pq_get (_send_window c) = Some ((0, first), rest) /\
    0 = seq_number first /\
    forall e, e ∈ _send_window c -> seq_number first <= seq_number e.2.
Proof.
  assert (E : exists n c, send silent_world 70 hello init = Ok n c /\
                exists first rest, pq_get (_send_window c) = Some ((0, first), rest)).
  { eexists _, _. split; [vm_compute; reflexivity | ].
    eexists _, _. vm_compute. reflexivity. }
  destruct E as (n & c & E & first & rest & Eg).
  assert (Hr : stream_run silent_world init [] c)
    by exact (run_send _ _ [] init 70 hello n c (run_start _ _) E).
  exists c, first, rest. split; [exact Hr | ]. split; [exact Eg | ].
  exact (resend_takes_oldest silent_world [] c 0 first rest Hr Eg).
Defined.

(** ** An arrival, case by case *)

(** X25. The segment that starts at the received cursor is delivered at
    once, and with it every segment it lets through: in a state whose
    windows are as the protocol builds them, when a datagram with payload
    arrives whose sequence number is the received cursor, [_receive_segment]
    ends with the buffer extended by that payload first, then by the
    payloads of segments that waited in the receive window, each appended
    when the cursor stood at its sequence number. The release is complete:
    the receive window is left with exactly the entries it held that start
    beyond the new cursor, and no segment that waited starts at the new
    cursor with payload to append, so a waiting segment that starts where
    the appended bytes end has been appended too. *)
Theorem arrival_in_order_delivered (w : World) (timeout : option Z)
    (c : MyTCPProtocol) (d : bytes) :
  windows_ok c ->
  recvfrom_result w (rx_calls c) = Some d ->
  (16 < length d)%nat ->
  wire_seq d = _received_bytes_cnt c ->
  exists c' segs,
    final_state (_receive_segment w timeout c) = Some c' /\
    _buffer c' = _buffer c ++ wire_payload d ++ concat (map data segs) /\
    contiguous (_received_bytes_cnt c + len (wire_payload d)) segs
      (_received_bytes_cnt c') /\
    Forall (waiting_in c) segs /\
    _recv_window c' ≡ₚ
      filter (fun e => _received_bytes_cnt c' < seq_number e.2) (_recv_window c) /\
    forall e, e ∈ _recv_window c -> seq_number e.2 = _received_bytes_cnt c' ->
      data e.2 = [].
Proof.
  intros (_ & Hq & Hb) E Hl Hs.
  destruct (arrival_recv_side w timeout c d
              (fun c' => exists segs,
                 _buffer c' = _buffer c ++ wire_payload d ++ concat (map data segs) /\
                 contiguous (_received_bytes_cnt c + len (wire_payload d)) segs
                   (_received_bytes_cnt c') /\
                 Forall (waiting_in c) segs /\
                 _recv_window c' ≡ₚ
                   filter (fun e => _received_bytes_cnt c' < seq_number e.2)
                     (_recv_window c) /\
                 forall e, e ∈ _recv_window c ->
                   seq_number e.2 = _received_bytes_cnt c' -> data e.2 = []) E Hl)
    as (c' & Hf & segs & H).
  - intros c1 c2 (H1 & H2 & H3) (segs & G1 & G2 & G3 & G4 & G5). exists segs.
    rewrite H1, H2, H3. now repeat split.
  - intros s c0 Hseq Hdata (H1 & H2 & H3).
    destruct (shift_recv_loop_in_order s c0)
      as (fs & c' & segs & El & Hc & Hbuf & Hsegs & Hw & Hmax).
    + now rewrite H2.
    + now rewrite H1, H2.
    + rewrite H1. congruence.
    + unfold wp. rewrite El. exists segs. rewrite Hbuf, H3, Hdata.
      split; [reflexivity | ]. split; [now rewrite <- H1, <- Hdata | ].
      split; [eapply Forall_impl; [exact Hsegs | ];
              intros s' (k & Hk); exists k; now rewrite <- H2 | ].
      split; [now rewrite Hw, H2 | ].
      intros e He. apply Hmax. now rewrite H2.
  - exists c', segs. exact (conj Hf H).
Qed.

Lemma singleton_window_ok (s : TCPSegment) (c : MyTCPProtocol) :
  _send_window c = [] -> _recv_window c = [(seq_number s, s)] ->
  _received_bytes_cnt c < seq_number s -> windows_ok c.
Proof.
  intros Hs Hr Hlt. unfold windows_ok, beyond. rewrite Hs, Hr.
  split; [exact queue_ok_nil | ].
  split; [exact (pq_put_ok [] (seq_number s, s) queue_ok_nil eq_refl) | ].
  now repeat constructor.
Qed.

Lemma arrival_in_order_delivered_witness :
  let waiting := mkSegment 20 0 (ten_from 20) false 0 in
  let c := set_recv_window [(20, waiting)] ten_received in
  exists c',
    final_state (_receive_segment (arrivals [frame 10 0 (ten_from 10)]) None c) = Some c' /\
    _buffer c' = ten_from 10 ++ ten_from 20 /\
    _received_bytes_cnt c' = 30 /\
    _recv_window c' = [] /\
    exists segs,
      segs = [waiting] /\
      _buffer c' = _buffer c ++ wire_payload (frame 10 0 (ten_from 10))
                   ++ concat (map data segs) /\
      contiguous (_received_bytes_cnt c + len (wire_payload (frame 10 0 (ten_from 10)))) segs
        (_received_bytes_cnt c') /\
      Forall (waiting_in c) segs.
Proof.
  cbv zeta.
  destruct (arrival_in_order_delivered (arrivals [frame 10 0 (ten_from 10)]) None
              (set_recv_window [(20, mkSegment 20 0 (ten_from 20) false 0)] ten_received)
              (frame 10 0 (ten_from 10)))
    as (c' & segs & Hf & Hbuf & Hc & Hs & Hw & Hmax).
  - apply (singleton_window_ok (mkSegment 20 0 (ten_from 20) false 0));
      [reflexivity | reflexivity | simpl; lia].
  - reflexivity.
  - simpl. lia.
  - reflexivity.
  - exists c'. split; [exact Hf | ].
    vm_compute in Hf. injection Hf as <-.
    split; [reflexivity | ]. split; [reflexivity | ]. split; [reflexivity | ].
    exists segs. split; [ | split; [exact Hbuf | split; [exact Hc | exact Hs]]].
    assert (Hall : forall s, s ∈ segs -> s = mkSegment 20 0 (ten_from 20) false 0).
    { intros s Hin. destruct (proj1 (Forall_forall _ _) Hs s Hin) as (k & Hk).
      apply list_elem_of_singleton in Hk. congruence. }
    change (contiguous 20 segs 30) in Hc.
    destruct segs as [|s1 segs]; [cbn in Hc; discriminate | ].
    rewrite (Hall s1 ltac:(left)) in *. destruct Hc as [_ Hc].
    destruct segs as [|s2 segs]; [reflexivity | ].
    rewrite (Hall s2 ltac:(right; left)) in Hc. destruct Hc as [Hc _].
    cbn in Hc. discriminate.
Defined.

(** X26. A segment that starts beyond the received cursor waits: when a
    datagram with payload arrives whose sequence number is above the
    received cursor, [_receive_segment] ends with the buffer and the
    received cursor as they were, and the receive window holds what it held
    and one entry more, the arrived segment filed under its sequence
    number. *)
Theorem arrival_ahead_is_kept (w : World) (timeout : option Z)
    (c : MyTCPProtocol) (d : bytes) :
  windows_ok c ->
  recvfrom_result w (rx_calls c) = Some d ->
  (16 < length d)%nat ->
  _received_bytes_cnt c < wire_seq d ->
  exists c' s,
    final_state (_receive_segment w timeout c) = Some c' /\
    _buffer c' = _buffer c /\
    _received_bytes_cnt c' = _received_bytes_cnt c /\
    seq_number s = wire_seq d /\ data s = wire_payload d /\
    _recv_window c' ≡ₚ (wire_seq d, s) :: _recv_window c.
Proof.
  intros (_ & Hq & Hb) E Hl Hs.
  destruct (arrival_recv_side w timeout c d
              (fun c' => exists s,
                 _buffer c' = _buffer c /\
                 _received_bytes_cnt c' = _received_bytes_cnt c /\
                 seq_number s = wire_seq d /\ data s = wire_payload d /\
                 _recv_window c' ≡ₚ (wire_seq d, s) :: _recv_window c) E Hl)
    as (c' & Hf & s & H).
  - intros c1 c2 (H1 & H2 & H3) (s & G1 & G2 & G3 & G4 & G5). exists s.
    rewrite H1, H2, H3. now repeat split.
  - intros s c0 Hseq Hdata (H1 & H2 & H3).
    destruct (shift_recv_loop_ahead s c0) as (fs & q & El & Hp).
    + now rewrite H2.
    + now rewrite H1, H2.
    + rewrite H1. lia.
    + unfold wp. rewrite El. exists s. fields.
      split; [exact H3 | ]. split; [exact H1 | ]. split; [exact Hseq | ].
      split; [exact Hdata | ]. now rewrite Hp, Hseq, H2.
  - exists c', s. now split.
Qed.

Lemma empty_windows_ok (c : MyTCPProtocol) :
  _send_window c = [] -> _recv_window c = [] -> windows_ok c.
Proof.
  intros Hs Hr. unfold windows_ok, beyond. rewrite Hs, Hr.
  split; [exact queue_ok_nil | ]. split; [exact queue_ok_nil | constructor].
Qed.

Lemma arrival_ahead_is_kept_witness :
  exists c' s,
    final_state (_receive_segment (arrivals [frame 20 0 (ten_from 20)]) None ten_received)
    = Some c' /\
    _buffer c' = [] /\ _received_bytes_cnt c' = 10 /\
    seq_number s = 20 /\ data s = ten_from 20 /\
    _recv_window c' ≡ₚ [(20, s)].
Proof.
  apply (arrival_ahead_is_kept (arrivals [frame 20 0 (ten_from 20)]) None ten_received
           (frame 20 0 (ten_from 20))).
  - now apply empty_windows_ok.
  - reflexivity.
  - simpl. lia.
  - vm_compute. reflexivity.
Defined.

(** X27. A segment that starts below the received cursor is dropped: when
    a datagram with payload arrives whose sequence number is below the
    received cursor, [_receive_segment] ends with the buffer and the
    received cursor as they were and the receive window holding what it
    held; none of its bytes is delivered, not even those beyond the
    cursor. *)
Theorem arrival_behind_is_dropped (w : World) (timeout : option Z)
    (c : MyTCPProtocol) (d : bytes) :
  windows_ok c ->
  recvfrom_result w (rx_calls c) = Some d ->
  (16 < length d)%nat ->
  wire_seq d < _received_bytes_cnt c ->
  exists c',
    final_state (_receive_segment w timeout c) = Some c' /\
    _buffer c' = _buffer c /\
    _received_bytes_cnt c' = _received_bytes_cnt c /\
    _recv_window c' ≡ₚ _recv_window c.
Proof.
  intros (_ & Hq & Hb) E Hl Hs.
  destruct (arrival_recv_side w timeout c d
              (fun c' => _buffer c' = _buffer c /\
                         _received_bytes_cnt c' = _received_bytes_cnt c /\
                         _recv_window c' ≡ₚ _recv_window c) E Hl)
    as (c' & Hf & H).
  - intros c1 c2 (H1 & H2 & H3) (G1 & G2 & G3). rewrite H1, H2, H3. now repeat split.
  - intros s c0 Hseq Hdata (H1 & H2 & H3).
    destruct (shift_recv_loop_duplicate s c0) as (fs & q & El & Hp).
    + now rewrite H2.
    + now rewrite H1, H2.
    + rewrite H1. lia.
    + unfold wp. rewrite El. fields.
      split; [exact H3 | ]. split; [exact H1 | ]. now rewrite Hp, H2.
  - exists c'. now split.
Qed.

Lemma arrival_behind_is_dropped_witness :
  exists c',
    final_state (_receive_segment (arrivals [frame 5 0 (ten_from 5)]) None ten_received)
    = Some c' /\
    _buffer c' = [] /\ _received_bytes_cnt c' = 10 /\ _recv_window c' ≡ₚ [].
Proof.
  apply (arrival_behind_is_dropped (arrivals [frame 5 0 (ten_from 5)]) None ten_received
           (frame 5 0 (ten_from 5))).
  - now apply empty_windows_ok.
  - reflexivity.
  - simpl. lia.
  - vm_compute. reflexivity.
Defined.

(** ** An acknowledgment and the send window *)

(** X28. An acknowledgment beyond the delivered cursor empties the send
    window of what it covers: when a datagram without payload arrives whose
    acknowledgment number is above the delivered cursor, [_receive_segment]
    returns [True], the delivered cursor is that number, and the send window
    holds exactly the entries it held whose segment starts at or beyond
    it. *)
Theorem ack_prunes_send_window (w : World) (timeout : option Z)
    (c : MyTCPProtocol) (d : bytes) :
  queue_ok (_send_window c) ->
  recvfrom_result w (rx_calls c) = Some d ->
  (length d <= 16)%nat ->
  _delivered_bytes_cnt c < wire_ack d ->
  exists c',
    _receive_segment w timeout c = Ok true c' /\
    _delivered_bytes_cnt c' = wire_ack d /\
    queue_ok (_send_window c') /\
    _send_window c' ≡ₚ filter (fun e => wire_ack d <= seq_number e.2) (_send_window c).
Proof.
  intros Hq E Hl Ha. rewrite (_receive_segment_arrival w timeout c d E).
  set (c0 := set_clock_reads _ _).
  assert (Hz : (len (wire_payload d) =? 0) = true)
    by (apply Z.eqb_eq; rewrite len_wire_payload; unfold len; lia).
  destruct (shift_send_loop_filter (length (_send_window c))
              (set_delivered (wire_ack d) c0) Hq (le_n _)) as (q & Eq & Hq' & Hp).
  exists (set_send_window q (set_delivered (wire_ack d) c0)).
  split; [ | subst c0; fields; split; [reflexivity | split; [exact Hq' | exact Hp]]].
  unfold process_segment. fields. rewrite Hz. cbn [negb].
  do 2 (erewrite bind_ok by reflexivity).
  assert (Hlt : (_delivered_bytes_cnt c0 <? wire_ack d) = true) by (apply Z.ltb_lt; exact Ha).
  rewrite Hlt.
  erewrite bind_ok; [reflexivity | ].
  erewrite bind_ok by reflexivity. unfold _shift_send_window.
  erewrite bind_ok by reflexivity. exact Eq.
Qed.

Lemma ack_prunes_send_window_witness :
  let s k := mkSegment k 0 hello false 0 in
  let c := set_sent 15 (set_send_window [(0, s 0); (5, s 5); (10, s 10)] init) in
  exists c',
    _receive_segment (arrivals [frame 0 7 []]) None c = Ok true c' /\
    _delivered_bytes_cnt c' = 7 /\
    queue_ok (_send_window c') /\
    _send_window c' ≡ₚ [(10, s 10)].
Proof.
  cbv zeta.
  apply (ack_prunes_send_window (arrivals [frame 0 7 []]) None
           (set_sent 15
              (set_send_window [(0, mkSegment 0 0 hello false 0);
                                (5, mkSegment 5 0 hello false 0);
                                (10, mkSegment 10 0 hello false 0)] init))
           (frame 0 7 [])).
  - exact (queue_ok_put_nil [(0, mkSegment 0 0 hello false 0);
                             (5, mkSegment 5 0 hello false 0);
                             (10, mkSegment 10 0 hello false 0)]
             ltac:(repeat constructor)).
  - reflexivity.
  - simpl. lia.
  - vm_compute. reflexivity.
Defined.

(** ** The size of the datagrams *)

Lemma len_slice_to_le {A} (l : list A) k : len (slice_to l k) <= len l.
Proof. unfold slice_to, len. rewrite length_take. lia. Qed.

Lemma _send_segment_sized w segment c :
  sized c -> len (data segment) <= max_data_sz ->
  ends (fun _ c' => sized c') (_send_segment w segment) c.
Proof.
  intros (Hw & Ht) Hl. unfold ends, wp. rewrite _send_segment_unfold.
  unfold keep_in_flight, sized.
  destruct (dump segment) as [e|d] eqn:Ed; [exact (conj Hw Ht) | ]. cbv zeta.
  assert (Ht' : Forall (fun d => len d <= max_data_sz + 16) (tx_log c ++ [d])).
  { apply Forall_app. split; [exact Ht | ]. constructor; [ | constructor].
    apply dump_length in Ed. unfold len in *. lia. }
  assert (Hput : forall t n, window_all (fun s => len (data s) <= max_data_sz)
                   (pq_put (_send_window c)
                      (seq_number segment,
                       set_sending_time t (set_data (slice_to (data segment) n) segment)))).
  { intros t n. apply pq_put_all; [exact Hw | ]. fields.
    pose proof (len_slice_to_le (data segment) n). lia. }
  destruct (seq_number segment =? _sent_bytes_cnt c).
  - destruct (negb (len (data segment) =? 0)); fields;
      (split; [first [apply Hput | exact Hw] | exact Ht']).
  - destruct (_sent_bytes_cnt c <? seq_number segment); [exact (conj Hw Ht') | ].
    destruct (negb (len (data segment) =? 0)); fields;
      (split; [first [apply Hput | exact Hw] | exact Ht']).
Qed.

Lemma _shift_recv_window_sized w c :
  sized c -> ends (fun _ c' => sized c') (_shift_recv_window w) c.
Proof.
  intros Hs. unfold ends, _shift_recv_window. wp_prim. apply wp_bind.
  destruct (shift_recv_loop_state (length (_recv_window c)) None c (le_n _))
    as (fs & q & r & b & Eq & _).
  unfold wp at 1. rewrite Eq. destruct fs as [first|]; [ | exact Hs].
  do 2 wp_prim. wp_prim. apply wp_bind.
  match goal with |- wp _ (_send_segment w ?s) _ _ ?c2 =>
    assert (H2 : ends (fun _ c' => sized c') (_send_segment w s) c2)
      by (apply _send_segment_sized; [exact Hs | unfold max_data_sz, len; simpl; lia]) end.
  unfold ends, wp in *.
  destruct (_send_segment w _ _) as [n c3|e c3|]; [ | | contradiction]; exact H2.
Qed.

Lemma _shift_send_window_sized c :
  sized c -> ends (fun _ c' => sized c') _shift_send_window c.
Proof.
  intros (Hw & Ht). unfold ends, _shift_send_window. wp_prim.
  destruct (shift_send_loop_state (length (_send_window c)) c (le_n _)) as (q & E & _ & HP).
  unfold wp. rewrite E. split; [exact (HP _ Hw) | exact Ht].
Qed.

Lemma process_segment_sized w segment c :
  sized c -> ends (fun _ c' => sized c') (process_segment w segment) c.
Proof.
  intros Hs.
  assert (Hrest : forall c1, sized c1 ->
            wp False
              (delivered <- gets _delivered_bytes_cnt ;;
               (if delivered <? ack_number segment then
                  modify (set_delivered (ack_number segment)) ;;; _shift_send_window
                else ret tt) ;;; ret true)
              (fun _ c' => sized c') (fun _ c' => sized c') c1).
  { intros c1 H1. wp_prim. apply wp_bind.
    destruct (_delivered_bytes_cnt c1 <? ack_number segment).
    - wp_prim.
      eapply wp_mono; [ | | apply _shift_send_window_sized; exact H1]; cbv beta.
      + intros _ c2 H2. exact H2.
      + intros _ c2 H2. exact H2.
    - exact H1. }
  unfold ends, process_segment. apply wp_bind.
  destruct (negb (len (data segment) =? 0)).
  - wp_prim.
    match goal with |- wp _ _ _ _ ?c1 =>
      eapply wp_mono; [ | | apply (_shift_recv_window_sized w c1); exact Hs]; cbv beta end.
    + intros _ c2 H2. now apply Hrest.
    + intros _ c2 H2. exact H2.
  - cbn [wp ret]. now apply Hrest.
Qed.

Lemma _receive_segment_sized w timeout c :
  sized c -> ends (fun _ c' => sized c') (_receive_segment w timeout) c.
Proof.
  intros Hs. unfold ends, wp. rewrite _receive_segment_unfold.
  destruct (recvfrom_result w (rx_calls c)) as [d|]; [ | exact Hs].
  cbv zeta. apply process_segment_sized. exact Hs.
Qed.

Lemma _resend_first_segment_sized w c :
  sized c -> ends (fun _ c' => sized c') (_resend_first_segment w) c.
Proof.
  intros (Hw & Ht). unfold ends, _resend_first_segment. wp_prim.
  destruct (pq_get (_send_window c)) as [[[k first] rest]|] eqn:E;
    [ | cbn [wp ret]; exact (conj Hw Ht)].
  destruct (pq_get_all _ _ _ _ E Hw) as [Hf Hrest]. cbn [snd] in Hf.
  wp_prim. apply wp_bind. unfold expired.
  assert (Hsend : forall c1, sized c1 ->
            wp False (_send_segment w first ;;; ret tt)
              (fun _ c' => sized c') (fun _ c' => sized c') c1).
  { intros c1 H1. apply wp_bind. pose proof (_send_segment_sized w first c1 H1 Hf) as G.
    unfold ends, wp in *.
    destruct (_send_segment w first c1) as [n c2|e c2|]; [ | | contradiction]; exact G. }
  assert (Hput : window_all (fun s => len (data s) <= max_data_sz)
                   (pq_put rest (seq_number first, first)))
    by (apply pq_put_all; assumption).
  destruct (negb (acknowledged first)).
  - wp_prim. unfold wp at 1. cbn [ret]. destruct (ACK_TIMEOUT <? _).
    + apply Hsend. exact (conj Hrest Ht).
    + cbn [wp modify]. exact (conj Hput Ht).
  - unfold wp at 1. cbn [ret wp modify]. exact (conj Hput Ht).
Qed.

Lemma send_body_sized w l c :
  sized c -> ends (fun _ c' => sized c') (send_body w l) c.
Proof.
  intros Hs. unfold ends, send_body. do 2 wp_prim. apply wp_bind.
  assert (Hrest : forall (next : send_locals) c1, sized c1 ->
            wp False (_resend_first_segment w ;;; ret next)
              (fun _ c' => sized c') (fun _ c' => sized c') c1).
  { intros next c1 H1. apply wp_bind.
    pose proof (_resend_first_segment_sized w c1 H1) as G. unfold ends, wp in *.
    destruct (_resend_first_segment w c1) as [[] c2|e c2|]; [ | | contradiction]; exact G. }
  destruct ((_ <=? _) && _).
  - do 2 wp_prim. apply wp_bind.
    match goal with |- wp _ (_send_segment w ?s) _ _ ?c1 =>
      assert (G : ends (fun _ c' => sized c') (_send_segment w s) c1) end.
    { apply _send_segment_sized; [exact Hs | ]. fields.
      rewrite len_slice_to by (pose proof (len_nonneg (l_data l)); unfold max_data_sz; lia).
      lia. }
    unfold ends, wp in *.
    destruct (_send_segment w _ _) as [n c2|e c2|]; [ | | contradiction].
    + cbn [ret]. now apply Hrest.
    + exact G.
  - apply wp_bind.
    pose proof (_receive_segment_sized w (Some ACK_TIMEOUT) c Hs) as G. unfold ends, wp in *.
    destruct (_receive_segment w (Some ACK_TIMEOUT) c) as [b c1|e c1|]; [ | | contradiction].
    + cbn [ret]. now apply Hrest.
    + exact G.
Qed.

Lemma send_loop_sized w fuel l c n c' :
  sized c -> send_loop w fuel l c = Ok n c' -> sized c'.
Proof.
  revert l c. induction fuel as [|fuel IH]; intros l c Hs; cbn [send_loop];
    destruct (send_guard l c); try discriminate;
    try (intros [= _ <-]; exact Hs).
  unfold bind. pose proof (send_body_sized w l c Hs) as H. unfold ends, wp in H.
  destruct (send_body w l c) as [l1 c1|e c1|]; try discriminate.
  intros E. exact (IH _ _ H E).
Qed.

Lemma recv_loop_sized w fuel data_sz d0 c d c' :
  sized c -> recv_loop w fuel data_sz d0 c = Ok d c' -> sized c'.
Proof.
  revert d0 c. induction fuel as [|fuel IH]; intros d0 c Hs; cbn [recv_loop];
    destruct (len d0 <? data_sz); try discriminate;
    try (intros [= _ <-]; exact Hs).
  set (c1 := set_buffer _ c).
  assert (Hs1 : sized c1) by exact Hs.
  destruct (len (d0 ++ _) <? data_sz); [ | now apply IH].
  unfold bind.
  pose proof (_receive_segment_sized w None c1 Hs1) as H. unfold ends, wp in H.
  destruct (_receive_segment w None c1) as [b c2|e c2|]; try discriminate.
  now apply IH.
Qed.

Lemma stream_run_sized w c out c' :
  stream_run w c out c' -> sized c -> sized c'.
Proof.
  intros Hr Hs.
  induction Hr as [ | out c1 timeout c2 Hr IH E
                    | out c1 fuel d n c2 Hr IH E
                    | out c1 fuel data_sz d c2 Hr IH E ].
  - exact Hs.
  - destruct (ends_final _ _ _ (_receive_segment_sized w timeout c1 IH)) as (c2' & E' & H).
    assert (c2' = c2) as -> by congruence. exact H.
  - exact (send_loop_sized w fuel _ c1 n c2 IH E).
  - exact (recv_loop_sized w fuel data_sz [] c1 d c2 IH E).
Qed.

(** X29. No datagram is longer than a header and [max_data_sz] bytes: on a
    connection that started fresh, after any run of arrivals and of calls of
    [send] and [recv], every datagram handed to [sendto] so far, first
    transmissions, retransmissions and acknowledgments alike, has at most
    [max_data_sz + 16] bytes, and every segment in the send window carries
    at most [max_data_sz] bytes. *)
Theorem datagrams_fit (w : World) (out : bytes) (c : MyTCPProtocol) :
  stream_run w init out c ->
  (forall d, d ∈ tx_log c -> len d <= max_data_sz + 16) /\
  (forall e, e ∈ _send_window c -> len (data e.2) <= max_data_sz).
Proof.
  intros Hr.
  destruct (stream_run_sized w init out c Hr) as (Hw & Ht).
  { split; constructor. }
  split.
  - intros d Hd. exact (proj1 (Forall_forall _ _) Ht d Hd).
  - intros e He. exact (proj1 (Forall_forall _ _) Hw e He).
Qed.

Lemma datagrams_fit_witness :
  exists c,
    stream_run silent_world init [] c /\
    (length (tx_log c) = 6)%nat /\
    (forall d, d ∈ tx_log c -> len d <= max_data_sz + 16) /\
    (forall e, e ∈ _send_window c -> len (data e.2) <= max_data_sz).
Proof.
  assert (E : exists n c, send silent_world 70 hello init = Ok n c /\
                          length (tx_log c) = 6%nat).
  { eexists _, _. split; vm_compute; reflexivity. }
  destruct E as (n & c & E & Hl).
  assert (Hr : stream_run silent_world init [] c)
    by exact (run_send _ _ [] init 70 hello n c (run_start _ _) E).
  exists c. split; [exact Hr | ]. split; [exact Hl | ].
  exact (datagrams_fit silent_world [] c Hr).
Defined.

(** * The stream and the timeout counter, traced *)

(** ** In-order release, traced to the arrivals *)

Lemma arrived_in_wider w i j i' j' s :
  (i' <= i)%nat -> (j <= j')%nat -> arrived_in w i j s -> arrived_in w i' j' s.
Proof.
  intros Hi Hj (n & d & Hn & H). exists n, d. split; [lia | exact H].
Qed.

Lemma traced_trans w c1 c2 c3 segs1 segs2 :
  traced w c1 c2 segs1 -> traced w c2 c3 segs2 -> traced w c1 c3 (segs1 ++ segs2).
Proof.
  intros (R1 & C1 & F1 & W1) (R2 & C2 & F2 & W2).
  assert (Hstep : forall s, waiting_in c2 s \/ arrived_in w (rx_calls c2) (rx_calls c3) s ->
            waiting_in c1 s \/ arrived_in w (rx_calls c1) (rx_calls c3) s).
  { intros s [H | H].
    - destruct (W1 s H) as [G | G]; [now left | right].
      eapply arrived_in_wider; [ | | exact G]; lia.
    - right. eapply arrived_in_wider; [ | | exact H]; lia. }
  split; [lia | ]. split; [eapply contiguous_app; eassumption | ]. split.
  - apply Forall_app. split.
    + eapply Forall_impl; [exact F1 | ]. intros s [H | H]; [now left | right].
      eapply arrived_in_wider; [ | | exact H]; lia.
    + eapply Forall_impl; [exact F2 | ]. exact Hstep.
  - intros s H. apply Hstep. exact (W2 s H).
Qed.

(** A step that leaves the receive side alone and takes back no [recvfrom]
    call appends nothing. *)
Lemma traced_same w c c' :
  same_recv_side c c' -> (rx_calls c <= rx_calls c')%nat -> traced w c c' [].
Proof.
  intros (H1 & H2 & H3) Hr. split; [exact Hr | ]. split; [exact H1 | ].
  split; [constructor | ]. intros s (k & Hk). left. exists k. now rewrite <- H2.
Qed.

(** The loop of [_shift_recv_window] appends segments of the receive window
    only, each at its sequence number, and puts nothing new into the
    window. *)
Lemma shift_recv_loop_traced fuel first_segment c :
  (length (_recv_window c) <= fuel)%nat ->
  exists fs c' segs,
    shift_recv_loop fuel first_segment c = Ok fs c' /\
    contiguous (_received_bytes_cnt c) segs (_received_bytes_cnt c') /\
    _buffer c' = _buffer c ++ concat (map data segs) /\
    Forall (waiting_in c) segs /\
    (forall s, waiting_in c' s -> waiting_in c s).
Proof.
  revert first_segment c. induction fuel as [|fuel IH]; intros first_segment c Hf;
    cbn [shift_recv_loop];
    destruct (pq_get (_recv_window c)) as [[[k first] rest]|] eqn:E;
    try (exists first_segment, c, []; cbn [map concat contiguous];
         rewrite app_nil_r; now repeat split).
  - apply pq_get_length in E. lia.
  - pose proof (pq_get_perm _ _ _ E) as Hp. apply pq_get_length in E. fields.
    assert (Hsub : forall s, (exists k', (k', s) ∈ rest) -> waiting_in c s).
    { intros s (k' & Hk'). exists k'. rewrite Hp. now right. }
    assert (Hfirst : waiting_in c first) by (exists k; rewrite Hp; left).
    destruct (seq_number first <? _received_bytes_cnt c).
    + destruct (IH (Some (set_acknowledged true first)) (set_recv_window rest c))
        as (fs & c' & segs & Eq & Hc & Hb & Hs & Hw); [fields; lia | ]. fields.
      exists fs, c', segs. split; [exact Eq | ]. split; [exact Hc | ]. split; [exact Hb | ].
      split; [ | intros s Hs'; apply Hsub, Hw, Hs'].
      eapply Forall_impl; [exact Hs | ]. exact Hsub.
    + destruct (seq_number first =? _received_bytes_cnt c) eqn:Eq1.
      * apply Z.eqb_eq in Eq1.
        match goal with |- context [shift_recv_loop fuel ?fs0 ?c1] =>
          destruct (IH fs0 c1) as (fs & c' & segs & Eq & Hc & Hb & Hs & Hw);
            [fields; lia | ] end. fields.
        exists fs, c', (first :: segs). split; [exact Eq | ].
        split; [split; [exact Eq1 | exact Hc] | ].
        split; [rewrite Hb; cbn [map concat]; now rewrite app_assoc | ].
        split; [ | intros s Hs'; apply Hsub, Hw, Hs'].
        constructor; [exact Hfirst | ].
        eapply Forall_impl; [exact Hs | ]. exact Hsub.
      * eexists _, _, []. split; [reflexivity | ]. fields. cbn [map concat contiguous].
        rewrite app_nil_r. split; [reflexivity | ]. split; [reflexivity | ].
        split; [constructor | ].
        intros s (k' & Hk'). unfold waiting_in in *. fields.
        rewrite pq_put_perm in Hk'. apply elem_of_cons in Hk' as [Hk' | Hk'].
        -- injection Hk' as _ ->. exact Hfirst.
        -- apply Hsub. now exists k'.
Qed.

Lemma appends_trans w c1 c2 c3 : appends w c1 c2 -> appends w c2 c3 -> appends w c1 c3.
Proof.
  intros (s1 & T1 & B1) (s2 & T2 & B2). exists (s1 ++ s2).
  split; [exact (traced_trans _ _ _ _ _ _ T1 T2) | ].
  now rewrite B2, B1, map_app, concat_app, app_assoc.
Qed.

Lemma appends_same w c c' :
  same_recv_side c c' -> (rx_calls c <= rx_calls c')%nat -> appends w c c'.
Proof.
  intros H Hr. exists []. split; [exact (traced_same w c c' H Hr) | ].
  destruct H as (_ & _ & ->). cbn [map concat]. now rewrite app_nil_r.
Qed.

Lemma _resend_first_segment_quiet w c :
  ends (fun c c' => same_recv_side c c' /\ rx_calls c' = rx_calls c)
       (_resend_first_segment w) c.
Proof.
  unfold ends, _resend_first_segment. wp_prim.
  destruct (pq_get (_send_window c)) as [[[k first] rest]|]; [ | cbn [wp ret]; now repeat split].
  wp_prim. apply wp_bind. unfold expired.
  assert (Hsend : forall c1, same_recv_side c c1 -> rx_calls c1 = rx_calls c ->
            wp False (_send_segment w first ;;; ret tt)
              (fun _ c' => same_recv_side c c' /\ rx_calls c' = rx_calls c)
              (fun _ c' => same_recv_side c c' /\ rx_calls c' = rx_calls c) c1).
  { intros c1 H1 H2. apply wp_bind. pose proof (_send_segment_recv_side w first c1) as G.
    unfold ends, wp in *.
    destruct (_send_segment w first c1) as [n c2|e c2|]; [ | | contradiction];
      cbn [ret]; relations; intuition congruence. }
  destruct (negb (acknowledged first)).
  - wp_prim. unfold wp at 1. cbn [ret]. destruct (ACK_TIMEOUT <? _).
    + apply Hsend; now repeat split.
    + cbn [wp modify]. now repeat split.
  - unfold wp at 1. cbn [ret wp modify]. now repeat split.
Qed.

(** One call of [_receive_segment]: what it appends to the buffer are
    segments that waited in the receive window or the segment of the
    datagram it received, each appended when the received cursor stood at
    its sequence number. *)
Lemma _receive_segment_appends w timeout c :
  ends (appends w) (_receive_segment w timeout) c.
Proof.
  pose proof (_receive_segment_ends w timeout c) as Hends.
  destruct (ends_final _ _ _ Hends) as (c' & Hf & _ & Hrx & _).
  assert (H : appends w c c'); [ | unfold ends, wp in *;
    destruct (_receive_segment w timeout c) as [b c2|e c2|]; [ | | contradiction];
    cbn [final_state] in Hf; injection Hf as ->; exact H].
  destruct (recvfrom_result w (rx_calls c)) as [d|] eqn:E.
  - destruct (le_lt_dec (length d) 16) as [Hl | Hl].
    + (* no payload: the receive side stays *)
      rewrite (_receive_segment_arrival w timeout c d E) in Hf.
      match type of Hf with context [process_segment w ?s ?c0] =>
        pose proof (process_segment_effect w s c0) as G;
        destruct (process_segment w s c0) as [b c2|e c2|]; [ | | contradiction] end;
        fields; cbn [final_state] in Hf; injection Hf as ->.
      * assert (Hz : len (wire_payload d) = 0) by (rewrite len_wire_payload; unfold len; lia).
        rewrite Hz in G. cbn [Z.eqb] in G. destruct G as (_ & _ & _ & (H1 & H2 & H3) & _).
        apply appends_same; [relations; now repeat split | lia].
      * exfalso. destruct G as (_ & _ & _ & Hne & _). apply Hne.
        rewrite len_wire_payload. unfold len. lia.
    + destruct (arrival_recv_side w timeout c d
                  (fun c' => exists segs,
                     contiguous (_received_bytes_cnt c) segs (_received_bytes_cnt c') /\
                     _buffer c' = _buffer c ++ concat (map data segs) /\
                     Forall (fun s => waiting_in c s \/
                               (seq_number s = wire_seq d /\ data s = wire_payload d)) segs /\
                     forall s, waiting_in c' s ->
                       waiting_in c s \/
                       (seq_number s = wire_seq d /\ data s = wire_payload d)) E Hl)
        as (c'' & Hf' & segs & Hc & Hb & Hs & Hw).
      * intros c1 c2 (H1 & H2 & H3) (segs & G1 & G2 & G3 & G4). exists segs.
        rewrite H1, H3. split; [exact G1 | ]. split; [exact G2 | ]. split; [exact G3 | ].
        intros s (k & Hk). apply G4. exists k. now rewrite <- H2.
      * intros s c0 Hseq Hdata (H1 & H2 & H3).
        match goal with |- wp _ _ _ _ ?c1 =>
          destruct (shift_recv_loop_traced (S (length (_recv_window c0))) None c1)
            as (fs & c2 & segs & El & Hc & Hb & Hs & Hw) end.
        { fields. rewrite pq_put_length. lia. }
        assert (Hold : forall s', waiting_in
                         (set_recv_window (pq_put (_recv_window c0) (seq_number s, s)) c0) s' ->
                  waiting_in c s' \/
                  (seq_number s' = wire_seq d /\ data s' = wire_payload d)).
        { intros s' (k & Hk). fields. rewrite pq_put_perm in Hk.
          apply elem_of_cons in Hk as [Hk | Hk].
          - injection Hk as _ ->. right. now split.
          - left. exists k. now rewrite <- H2. }
        unfold wp. rewrite El. exists segs. fields.
        split; [now rewrite <- H1 | ]. split; [now rewrite Hb, H3 | ].
        split; [eapply Forall_impl; [exact Hs | exact Hold] | ].
        intros s' Hs'. apply Hold, Hw, Hs'.
      * assert (c'' = c') as -> by congruence.
        assert (Hin : forall s, seq_number s = wire_seq d /\ data s = wire_payload d ->
                  arrived_in w (rx_calls c) (rx_calls c') s).
        { intros s [G1 G2]. exists (rx_calls c), d. rewrite Hrx. now repeat split; try lia. }
        exists segs. split; [ | exact Hb].
        split; [lia | ]. split; [exact Hc | ]. split.
        -- eapply Forall_impl; [exact Hs | ]. intros s [G | G]; [now left | right; now apply Hin].
        -- intros s G. destruct (Hw s G) as [G' | G']; [now left | right; now apply Hin].
  - rewrite _receive_segment_unfold, E in Hf. cbn [final_state] in Hf. injection Hf as <-.
    apply appends_same; [now repeat split | fields; lia].
Qed.

Lemma send_body_appends w l c : ends (appends w) (send_body w l) c.
Proof.
  unfold ends, send_body. do 2 wp_prim. apply wp_bind.
  assert (Hrest : forall (next : send_locals) c1, appends w c c1 ->
            wp False (_resend_first_segment w ;;; ret next)
              (fun _ c' => appends w c c') (fun _ c' => appends w c c') c1).
  { intros next c1 H1. apply wp_bind.
    pose proof (_resend_first_segment_quiet w c1) as G. unfold ends, wp in *.
    destruct (_resend_first_segment w c1) as [[] c2|e c2|]; [ | | contradiction];
      cbn [ret]; (eapply appends_trans; [exact H1 | ]);
      (apply appends_same; [apply G | destruct G as [_ ->]; lia]). }
  destruct ((_ <=? _) && _).
  - do 2 wp_prim. apply wp_bind.
    match goal with |- wp _ (_send_segment w ?s) _ _ ?c1 =>
      pose proof (_send_segment_recv_side w s c1) as G; unfold ends, wp in *;
      destruct (_send_segment w s c1) as [n c2|e c2|]; [ | | contradiction] end.
    + cbn [ret]. apply Hrest. destruct G as (G1 & _ & G2).
      apply appends_same; [relations; tauto | fields; lia].
    + destruct G as (G1 & _ & G2). apply appends_same; [relations; tauto | fields; lia].
  - apply wp_bind.
    pose proof (_receive_segment_appends w (Some ACK_TIMEOUT) c) as G. unfold ends, wp in *.
    destruct (_receive_segment w (Some ACK_TIMEOUT) c) as [b c1|e c1|]; [ | | contradiction].
    + cbn [ret]. apply Hrest. apply G.
    + apply G.
Qed.

Lemma send_loop_appends w fuel l c n c' :
  send_loop w fuel l c = Ok n c' -> appends w c c'.
Proof.
  revert l c. induction fuel as [|fuel IH]; intros l c; cbn [send_loop];
    destruct (send_guard l c); try discriminate;
    try (intros [= _ <-]; apply appends_same; [now repeat split | lia]).
  unfold bind. pose proof (send_body_appends w l c) as H. unfold ends, wp in H.
  destruct (send_body w l c) as [l1 c1|e c1|]; try discriminate.
  intros E. eapply appends_trans; [exact H | exact (IH _ _ E)].
Qed.

(** What [recv] returns, followed by what it leaves in the buffer, is what
    the buffer held followed by the payloads of traced segments. *)
Lemma recv_loop_appends w fuel data_sz d0 c d c' :
  recv_loop w fuel data_sz d0 c = Ok d c' ->
  exists segs,
    traced w c c' segs /\
    d ++ _buffer c' = d0 ++ _buffer c ++ concat (map data segs).
Proof.
  revert d0 c. induction fuel as [|fuel IH]; intros d0 c; cbn [recv_loop];
    destruct (len d0 <? data_sz); try discriminate;
    try (intros [= <- <-]; exists []; cbn [map concat]; rewrite app_nil_r;
         split; [apply traced_same; [now repeat split | lia] | reflexivity]).
  set (rb := Z.min data_sz (len (_buffer c))).
  set (c1 := set_buffer (slice_from (_buffer c) rb) c).
  assert (Hsplit : forall tail,
            (d0 ++ slice_to (_buffer c) rb) ++ _buffer c1 ++ tail = d0 ++ _buffer c ++ tail).
  { intros tail. subst c1. fields.
    rewrite <- (slice_to_from (_buffer c) rb) at 3. now rewrite <- !app_assoc. }
  assert (Hc1 : forall c2 segs, traced w c1 c2 segs -> traced w c c2 segs).
  { intros c2 segs H. exact H. }
  destruct (len (d0 ++ slice_to (_buffer c) rb) <? data_sz).
  - unfold bind.
    pose proof (_receive_segment_appends w None c1) as H. unfold ends, wp in H.
    destruct (_receive_segment w None c1) as [b c2|e c2|]; try discriminate.
    destruct H as (segs1 & T1 & Hb1). intros E.
    destruct (IH _ _ E) as (segs2 & T2 & Hb2). exists (segs1 ++ segs2). split.
    + apply Hc1. exact (traced_trans _ _ _ _ _ _ T1 T2).
    + rewrite Hb2, Hb1, map_app, concat_app, <- Hsplit. now rewrite <- !app_assoc.
  - intros E. destruct (IH _ _ E) as (segs & T & Hb). exists segs.
    split; [apply Hc1; exact T | ]. rewrite Hb. apply Hsplit.
Qed.

(** C7. Whatever datagrams arrive, in whatever order, between and during
    whatever calls of [send] and [recv]: the bytes the application has read,
    followed by the bytes waiting in the delivery buffer, are the bytes the
    buffer held at the start followed by the payloads of segments of which
    each one
    - is a segment that waited in the receive window at the start, or the
      segment of a datagram that [recvfrom] handed over during the run, with
      the sequence number and the payload of that datagram, and
    - was appended when the received cursor, the count of the bytes appended
      before it, stood at its sequence number.
    So the payload of a segment with sequence number [k] enters the buffer
    at offset [k] of the stream and nowhere else, after every byte below
    [k]: a segment for [20,30) that arrives while the cursor is at 10 is not
    appended before segments that fill [10,20) have been. What still waits
    in the receive window at the end has the same origin. *)
Theorem in_order_release (w : World) (c : MyTCPProtocol) (out : bytes) (c' : MyTCPProtocol) :
  stream_run w c out c' ->
  exists segs,
    out ++ _buffer c' = _buffer c ++ concat (map data segs) /\
    contiguous (_received_bytes_cnt c) segs (_received_bytes_cnt c') /\
    Forall (fun s => waiting_in c s \/ arrived_in w (rx_calls c) (rx_calls c') s) segs /\
    forall s, waiting_in c' s ->
      waiting_in c s \/ arrived_in w (rx_calls c) (rx_calls c') s.
Proof.
  intros Hr.
  assert (H : exists segs, traced w c c' segs /\
                out ++ _buffer c' = _buffer c ++ concat (map data segs)).
  { induction Hr as [ | out c1 timeout c2 Hr (segs & T & Hb) E
                      | out c1 fuel d n c2 Hr (segs & T & Hb) E
                      | out c1 fuel data_sz d c2 Hr (segs & T & Hb) E ].
    - exists []. cbn [map concat app]. rewrite app_nil_r.
      split; [apply traced_same; [now repeat split | lia] | reflexivity].
    - destruct (ends_final _ _ _ (_receive_segment_appends w timeout c1))
        as (c2' & E' & segs' & T' & Hb').
      assert (c2' = c2) as -> by congruence.
      exists (segs ++ segs'). split; [exact (traced_trans _ _ _ _ _ _ T T') | ].
      now rewrite Hb', app_assoc, Hb, map_app, concat_app, <- app_assoc.
    - destruct (send_loop_appends w fuel _ c1 n c2 E) as (segs' & T' & Hb').
      exists (segs ++ segs'). split; [exact (traced_trans _ _ _ _ _ _ T T') | ].
      now rewrite Hb', app_assoc, Hb, map_app, concat_app, <- app_assoc.
    - destruct (recv_loop_appends w fuel data_sz [] c1 d c2 E) as (segs' & T' & Hb').
      cbn [app] in Hb'.
      exists (segs ++ segs'). split; [exact (traced_trans _ _ _ _ _ _ T T') | ].
      now rewrite <- app_assoc, Hb', app_assoc, Hb, map_app, concat_app, <- app_assoc. }
  destruct H as (segs & (_ & Hc & Hs & Hw) & Hb). exists segs. now repeat split.
Qed.

Lemma in_order_release_witness :
  let w := arrivals [frame 20 0 (ten_from 20); frame 10 0 (ten_from 10)] in
  exists c3 segs,
    stream_run w ten_received (ten_from 10 ++ ten_from 20) c3 /\
    (ten_from 10 ++ ten_from 20) ++ _buffer c3 = concat (map data segs) /\
    contiguous 10 segs (_received_bytes_cnt c3) /\
    Forall (fun s => waiting_in ten_received s \/ arrived_in w 0 (rx_calls c3) s) segs /\
    forall s, waiting_in c3 s ->
      waiting_in ten_received s \/ arrived_in w 0 (rx_calls c3) s.
Proof.
  cbv zeta. destruct gap_run as (c3 & Hrun).
  destruct (in_order_release _ _ _ _ Hrun) as (segs & Hb & Hc & Hs & Hw).
  exists c3, segs. split; [exact Hrun | ]. split; [exact Hb | ].
  split; [exact Hc | ]. split; [exact Hs | exact Hw].
Defined.

(** ** The timeout counter of [send] *)




















